(** * Target resolution and rollout gating of fleet (package [target])

    A shallow embedding of the rollout-limit arithmetic, the availability
    predicates and the target resolver of [pkg/controllers/git/git.go]
    (the part of the file that is package [target]), with the properties
    the specification states about them; then the git repo handler of
    the same file (package [git]) and the bundle reader of
    [pkg/bundle/read.go], with further properties of the code. *)

From Stdlib Require Import ZArith Lia Bool Ascii String List.
From Stdlib Require Import Floats.SpecFloat DecimalString DecimalZ.
From stdpp Require Import base option list sorting strings gmap.

Local Open Scope string_scope.
Local Open Scope list_scope.
Local Open Scope Z_scope.

(** ** Go's [int] on a 64-bit platform *)

Definition MaxInt : Z := 2 ^ 63 - 1.
Definition MinInt : Z := - 2 ^ 63.

(** Two's-complement wrap-around of a mathematical integer into [int]. *)
Definition wrap_int (z : Z) : Z := (z + 2 ^ 63) mod 2 ^ 64 - 2 ^ 63.

Definition in_int (z : Z) : bool := (MinInt <=? z) && (z <=? MaxInt).

(** Go's [len]: the length of a slice as an [int]. *)
Definition len {A : Type} (l : list A) : Z := Z.of_nat (length l).

Arguments len : simpl never.

(** ** Errors

    Go's [error] interface, with the three ways the modelled code builds
    one: [fmt.Errorf], the [*strconv.NumError] of [strconv], and
    [errors.Wrapf] around a cause. Errors of the collaborators (caches,
    content store, option and identity computation) are values of the
    same type. *)

Inductive NumErr : Type := ErrSyntax | ErrRange.

Inductive error : Type :=
| Errorf (msg : string)
| NumError (func num : string) (err : NumErr)
| Wrapf (cause : error) (msg : string).

(** ** [strings.HasSuffix] and [strings.TrimSuffix] *)

Definition HasSuffix (s suffix : string) : bool :=
  (String.length suffix <=? String.length s)%nat
  && String.eqb
       (substring (String.length s - String.length suffix)
                  (String.length suffix) s)
       suffix.

Definition TrimSuffix (s suffix : string) : string :=
  if HasSuffix s suffix
  then substring 0 (String.length s - String.length suffix) s
  else s.

(** ** [strconv.Atoi], after [strconv/atoi.go]

    [Atoi] converts short strings itself and leaves the others to
    [ParseInt(s, 10, 0)], which reads the digits with [ParseUint]. The
    loop of [ParseUint] answers the range error as soon as the next digit
    overflows, before it has read the rest of the string. *)

Definition MaxUint64 : Z := 2 ^ 64 - 1.

Definition is_digit (c : ascii) : bool :=
  (48 <=? N_of_ascii c)%N && (N_of_ascii c <=? 57)%N.

Definition digit_value (c : ascii) : Z := Z.of_N (N_of_ascii c) - 48.

(** The loop of [ParseUint] for base 10 and 64 bits, with the [uint64]
    read so far. *)
Fixpoint ParseUint_loop (s : string) (n : Z) : Z * option NumErr :=
  match s with
  | EmptyString => (n, None)
  | String c rest =>
      if negb (is_digit c) then (0, Some ErrSyntax)
      else if MaxUint64 / 10 + 1 <=? n then (MaxUint64, Some ErrRange)
      else
        let n := n * 10 in
        let n1 := (n + digit_value c) mod 2 ^ 64 in
        if (n1 <? n) || (MaxUint64 <? n1) then (MaxUint64, Some ErrRange)
        else ParseUint_loop rest n1
  end.

Definition ParseUint (s : string) : Z * option NumErr :=
  match s with
  | EmptyString => (0, Some ErrSyntax)
  | _ => ParseUint_loop s 0
  end.

Definition ParseInt (s : string) : Z * option NumErr :=
  match s with
  | EmptyString => (0, Some ErrSyntax)
  | String c rest =>
      let neg := Ascii.eqb c "-" in
      let s := if Ascii.eqb c "+" || neg then rest else s in
      let '(un, err) := ParseUint s in
      match err with
      | Some ErrSyntax => (0, Some ErrSyntax)
      | _ =>
          let cutoff := 2 ^ 63 in
          if negb neg && (cutoff <=? un) then (cutoff - 1, Some ErrRange)
          else if neg && (cutoff <? un) then (- cutoff, Some ErrRange)
          else
            let n := wrap_int un in
            (if neg then wrap_int (- n) else n, None)
      end
  end.

(** The loop of the fast path of [Atoi], with the [int] read so far. *)
Fixpoint Atoi_loop (s : string) (n : Z) : option Z :=
  match s with
  | EmptyString => Some n
  | String ch rest =>
      if is_digit ch then Atoi_loop rest (wrap_int (n * 10 + digit_value ch))
      else None
  end.

Definition Atoi (s : string) : Z * option error :=
  let syntax := (0, Some (NumError "Atoi" s ErrSyntax)) in
  if (0 <? String.length s)%nat && (String.length s <? 19)%nat then
    match s with
    | EmptyString => syntax
    | String c rest =>
        let signed := Ascii.eqb c "-" || Ascii.eqb c "+" in
        let body := if signed then rest else s in
        if signed && (String.length body <? 1)%nat then syntax
        else
          match Atoi_loop body 0 with
          | None => syntax
          | Some n => (if Ascii.eqb c "-" then wrap_int (- n) else n, None)
          end
    end
  else
    let '(i64, err) := ParseInt s in
    (i64, option_map (NumError "Atoi" s) err).

(** [strconv.Itoa]. *)
Definition Itoa (z : Z) : string := NilZero.string_of_int (Z.to_int z).

(** ** [intstr.IntOrString] (k8s.io/apimachinery) *)

Inductive IntOrStringType : Type := Int | String_.

Record IntOrString : Type := {
  Type_ : IntOrStringType;
  IntVal : Z;          (* int32 *)
  StrVal : string
}.

Definition wrap_int32 (z : Z) : Z := (z + 2 ^ 31) mod 2 ^ 32 - 2 ^ 31.

Definition FromInt (val : Z) : IntOrString :=
  {| Type_ := Int; IntVal := wrap_int32 val; StrVal := "" |}.

Definition FromString (val : string) : IntOrString :=
  {| Type_ := String_; IntVal := 0; StrVal := val |}.

(** [func (intstr *IntOrString) IntValue() int]: for a string the result
    of [strconv.Atoi] with its error dropped. *)
Definition IntValue (v : IntOrString) : Z :=
  match Type_ v with
  | String_ => fst (Atoi (StrVal v))
  | Int => IntVal v
  end.

(** [func (intstr *IntOrString) String() string], what [%s] prints. *)
Definition IntOrString_String (v : IntOrString) : string :=
  match Type_ v with
  | String_ => StrVal v
  | Int => Itoa (IntVal v)
  end.

(** ** [float64]

    IEEE 754 binary64 as specified by the standard library's [SpecFloat]:
    53 bits of precision, exponent bound 1024, round to nearest even. *)

Definition float64 : Type := spec_float.

Definition prec64 : Z := 53.
Definition emax64 : Z := 1024.

(** The conversion [float64(count)] of an [int]. *)
Definition float64_of_int (z : Z) : float64 :=
  binary_normalize prec64 emax64 z 0 false.

Definition float64_mul (x y : float64) : float64 := SFmul prec64 emax64 x y.

(** [x <= 0] on [float64]; false when [x] is a NaN. *)
Definition float64_le_zero (x : float64) : bool := SFleb x (S754_zero false).

(** [x > 0] on [float64]. *)
Definition float64_pos (x : float64) : bool := SFltb (S754_zero false) x.

(** The integer part of a finite [float64], rounded toward zero. *)
Definition float64_trunc (x : float64) : option Z :=
  match x with
  | S754_zero _ => Some 0
  | S754_finite s m e =>
      let a := match e with
               | Zneg p => Z.shiftr (Zpos m) (Zpos p)
               | _ => Z.shiftl (Zpos m) e
               end in
      Some (if s then - a else a)
  | _ => None
  end.

(** ** The rollout-limit calculator *)

Definition defLimit : IntOrString := FromString "10%".
Definition defAutoPartitionSize : IntOrString := FromString "25%".
Definition defMaxUnavailablePartitions : IntOrString := FromInt 0.

(** The loop of [Limit] over its variadic budgets: the first one that is
    not nil. *)
Fixpoint first_non_nil (val : list (option IntOrString)) : option IntOrString :=
  match val with
  | [] => None
  | Some v :: _ => Some v
  | None :: rest => first_non_nil rest
  end.

(** The budget [Limit] works with: the first non-nil one, else [defLimit]. *)
Definition selected_budget (val : list (option IntOrString)) : IntOrString :=
  match first_non_nil val with
  | Some v => v
  | None => defLimit
  end.

Section Limit.

(** [strconv.ParseFloat(s, 64)]: the parsed value and the error. *)
Variable ParseFloat : string -> float64 * option error.

(** What the conversion [int(x)] yields when [x] is a NaN, an infinity or
    out of the range of [int]: the language leaves it to the
    implementation. *)
Variable int_unrepresentable : float64 -> Z.

(** The conversion [int(x)] of a [float64]: the fraction is discarded. *)
Definition int_of_float64 (x : float64) : Z :=
  match float64_trunc x with
  | Some z => if in_int z then z else wrap_int (int_unrepresentable x)
  | None => wrap_int (int_unrepresentable x)
  end.

Definition Limit (count : Z) (val : list (option IntOrString))
  : Z * option error :=
  if count =? 0 then (1, None)
  else
    let maxUnavailable := selected_budget val in
    match Type_ maxUnavailable with
    | Int => (IntValue maxUnavailable, None)
    | String_ =>
        let i := IntValue maxUnavailable in
        if 0 <? i then (i, None)
        else if negb (HasSuffix (StrVal maxUnavailable) "%") then
          (0, Some (Errorf (String.append
             "invalid maxUnavailable, must be int or percentage (ending with %): "
             (IntOrString_String maxUnavailable))))
        else
          let '(percent, err) :=
            ParseFloat (TrimSuffix (StrVal maxUnavailable) "%") in
          match err with
          | Some err =>
              (0, Some (Wrapf err (String.append "failed to parse "
                                     (StrVal maxUnavailable))))
          | None =>
              if float64_le_zero percent then (1, None)
              else
                let i :=
                  Z.quot (int_of_float64
                            (float64_mul (float64_of_int count) percent)) 100 in
                if i <=? 0 then (1, None) else (i, None)
          end
    end.

End Limit.

(** The two errors of [Limit], which the specification groups under the
    name InvalidBudget: the budget string is not a percentage, or its
    numeral does not parse (the parse failure [cause] is wrapped). *)
Definition not_a_percentage (v : IntOrString) : error :=
  Errorf (String.append
    "invalid maxUnavailable, must be int or percentage (ending with %): "
    (IntOrString_String v)).

Definition parse_failure (cause : error) (v : IntOrString) : error :=
  Wrapf cause (String.append "failed to parse " (StrVal v)).

Inductive InvalidBudget : error -> Prop :=
| InvalidBudget_format v : InvalidBudget (not_a_percentage v)
| InvalidBudget_parse cause v : InvalidBudget (parse_failure cause v).

(** *** Instances of the two platform parameters, for concrete runs *)

(** The value of a string of decimal digits. *)
Fixpoint parse_digits (s : string) (n : Z) : option Z :=
  match s with
  | EmptyString => Some n
  | String c rest =>
      if is_digit c then parse_digits rest (n * 10 + digit_value c) else None
  end.

(** [strconv.ParseFloat] on unsigned decimal integer numerals, where the
    correctly rounded value is the rounding of the integer itself; every
    other string is rejected by this instance. *)
Definition ParseFloat_digits (s : string) : float64 * option error :=
  match s with
  | EmptyString => (S754_zero false, Some (NumError "ParseFloat" s ErrSyntax))
  | _ =>
      match parse_digits s 0 with
      | None => (S754_zero false, Some (NumError "ParseFloat" s ErrSyntax))
      | Some n =>
          match float64_of_int n with
          | S754_infinity sg =>
              (S754_infinity sg, Some (NumError "ParseFloat" s ErrRange))
          | x => (x, None)
          end
      end
  end.

(** On amd64 the conversion of an unrepresentable value yields the
    smallest [int]. *)
Definition int_unrepresentable_amd64 (x : float64) : Z := MinInt.

(** ** The data model (package [fleet], v1alpha1, as far as the code reads it) *)

(** The selector argument of a cache's [List]: [labels.Everything()] or
    [labels.SelectorFromSet(set)]. *)
Inductive ListSelector : Type :=
| Everything
| SelectorFromSet (set : gmap string string).

(** The result of a call that returns [(value, error)] and whose value is
    only read when the error is nil. *)
Inductive Result (A : Type) : Type :=
| Ok (a : A)
| Err (err : error).

Arguments Ok {A} a.
Arguments Err {A} err.

Record fleet_Cluster : Type := {
  Cluster_Namespace : string;
  Cluster_Name : string;
  Cluster_Labels : gmap string string;
  Cluster_Spec_Paused : bool;
  Cluster_Status_Namespace : string
}.

Record fleet_BundleDeployment : Type := {
  BundleDeployment_Namespace : string;
  BundleDeployment_Name : string;
  BundleDeployment_Labels : gmap string string;
  Spec_StagedDeploymentID : string;
  Spec_DeploymentID : string;
  Status_AppliedDeploymentID : string;
  Status_Ready : bool
}.

Record fleet_RolloutStrategy : Type := {
  RolloutStrategy_MaxUnavailable : option IntOrString;
  RolloutStrategy_MaxUnavailablePartitions : option IntOrString;
  RolloutStrategy_AutoPartitionSize : option IntOrString
}.

(** [fleet.PartitionStatus]; its [Summary] is not touched by this package. *)
Record fleet_PartitionStatus : Type := {
  PartitionStatus_Name : string;
  PartitionStatus_Count : Z;
  PartitionStatus_MaxUnavailable : Z;
  PartitionStatus_Unavailable : Z
}.

(** [DeepCopy] of a deployment: a value equal to the original that shares
    nothing with it. *)
Definition DeepCopy (bd : fleet_BundleDeployment) : fleet_BundleDeployment := bd.

(** [sort.Slice]: the result is a permutation of the slice, in an order
    where no element is [less] than one before it, provided [less] is a
    strict weak order; the order of equal elements is not specified. *)
Definition strict_weak_order {A : Type} (less : A -> A -> bool) : Prop :=
  (forall a b, less a b = true -> less b a = false)
  /\ (forall a b c, less a b = true -> less b c = true -> less a c = true)
  /\ (forall a b c, less a b = false -> less b c = false -> less a c = false).

Class SortSlice : Type := {
  sort_Slice : forall {A : Type}, (A -> A -> bool) -> list A -> list A;
  sort_Slice_Permutation :
    forall (A : Type) (less : A -> A -> bool) (l : list A),
      Permutation (sort_Slice less l) l;
  sort_Slice_Sorted :
    forall (A : Type) (less : A -> A -> bool) (l : list A),
      strict_weak_order less ->
      Sorted (fun a b => less b a = false) (sort_Slice less l)
}.

Section Target.

(** Types of the packages this one imports, which it only passes around:
    [metav1.LabelSelector], [labels.Selector], the fields of
    [fleet.BundleSpec] besides the two read here, [fleet.BundleTarget],
    [fleet.BundleDeploymentOptions], [manifest.Manifest], [bundle.Bundle],
    [bundle.Match], [Partition] and the state of the content store. *)
Context {LabelSelector Selector BundleSpecRest BundleTarget
         BundleDeploymentOptions Manifest bundle_Bundle bundle_Match
         Partition StoreState : Type}.

Record fleet_ClusterGroup : Type := {
  ClusterGroup_Namespace : string;
  ClusterGroup_Name : string;
  ClusterGroup_Labels : gmap string string;
  ClusterGroup_Spec_Selector : option LabelSelector
}.

Record fleet_BundleSpec : Type := {
  BundleSpec_Paused : bool;
  BundleSpec_RolloutStrategy : option fleet_RolloutStrategy;
  BundleSpec_rest : BundleSpecRest
}.

Record fleet_Bundle : Type := {
  Bundle_Namespace : string;
  Bundle_Name : string;
  Bundle_Spec : fleet_BundleSpec
}.

Record Target : Type := {
  Deployment : option fleet_BundleDeployment;
  ClusterGroups : list fleet_ClusterGroup;
  Cluster : fleet_Cluster;
  Bundle : fleet_Bundle;
  Target_BundleTarget : BundleTarget;
  Options : BundleDeploymentOptions;
  DeploymentID : string
}.

(** The assignment [target.Deployment = d]. *)
Definition set_Deployment (t : Target) (d : option fleet_BundleDeployment)
  : Target :=
  {| Deployment := d;
     ClusterGroups := ClusterGroups t;
     Cluster := Cluster t;
     Bundle := Bundle t;
     Target_BundleTarget := Target_BundleTarget t;
     Options := Options t;
     DeploymentID := DeploymentID t |}.

(** A line written with [logrus.Errorf], by its arguments. *)
Inductive LogEntry : Type :=
| invalid_selector (namespace name : string) (selector : LabelSelector)
                   (err : error).

(** What a call may change besides its result: the content store and the
    log. *)
Record State : Type := {
  content : StoreState;
  log : list LogEntry
}.

(** The [Manager]: its caches and its content store, each by the method
    this package calls. *)
Record Manager : Type := {
  clusters_List : string -> ListSelector -> Result (list fleet_Cluster);
  clusterGroups_List :
    string -> ListSelector -> Result (list fleet_ClusterGroup);
  bundleDeploymentCache_List :
    string -> ListSelector -> Result (list fleet_BundleDeployment);
  bundleCache_List : string -> ListSelector -> Result (list fleet_Bundle);
  contentStore_Store : Manifest -> StoreState -> Result string * StoreState
}.

(** The functions of the imported packages: [metav1.LabelSelectorAsSelector],
    [Selector.Matches], [bundle.New], [Bundle.Match], [Match.Manifest],
    the field [Match.Target], [options.Calculate], [options.DeploymentID]. *)
Record Packages : Type := {
  LabelSelectorAsSelector : LabelSelector -> Result Selector;
  Matches : Selector -> gmap string string -> bool;
  bundle_New : fleet_Bundle -> Result bundle_Bundle;
  Match :
    bundle_Bundle -> gmap string (gmap string string) -> gmap string string ->
    option bundle_Match;
  Match_Manifest : bundle_Match -> Result Manifest;
  Match_Target : bundle_Match -> BundleTarget;
  options_Calculate : fleet_BundleSpec -> BundleTarget ->
                      Result BundleDeploymentOptions;
  options_DeploymentID : Manifest -> BundleDeploymentOptions -> Result string
}.

Variable m : Manager.
Variable pkg : Packages.
Context {sorter : SortSlice}.
Variable ParseFloat : string -> float64 * option error.
Variable int_unrepresentable : float64 -> Z.

Definition BundleFromDeployment (bd : fleet_BundleDeployment)
  : string * string :=
  (default "" (BundleDeployment_Labels bd !! "fleet.cattle.io/bundle-namespace"),
   default "" (BundleDeployment_Labels bd !! "fleet.cattle.io/bundle-name")).

Fixpoint ClusterGroupsToLabelMap_loop (cgs : list fleet_ClusterGroup)
  (result : gmap string (gmap string string))
  : gmap string (gmap string string) :=
  match cgs with
  | [] => result
  | cg :: rest =>
      ClusterGroupsToLabelMap_loop rest
        (<[ClusterGroup_Name cg := ClusterGroup_Labels cg]> result)
  end.

Definition ClusterGroupsToLabelMap (cgs : list fleet_ClusterGroup)
  : gmap string (gmap string string) :=
  ClusterGroupsToLabelMap_loop cgs ∅.

(** The loop of [ClusterGroupsForCluster], with the slice [result] built
    so far and the log. *)
Fixpoint ClusterGroupsForCluster_loop (cluster : fleet_Cluster)
  (cgs : list fleet_ClusterGroup) (result : list fleet_ClusterGroup)
  (lg : list LogEntry) : list fleet_ClusterGroup * list LogEntry :=
  match cgs with
  | [] => (result, lg)
  | cg :: rest =>
      match ClusterGroup_Spec_Selector cg with
      | None => ClusterGroupsForCluster_loop cluster rest result lg
      | Some selector =>
          match LabelSelectorAsSelector pkg selector with
          | Err err =>
              ClusterGroupsForCluster_loop cluster rest result
                (lg ++ [invalid_selector (ClusterGroup_Namespace cg)
                          (ClusterGroup_Name cg) selector err])
          | Ok sel =>
              if Matches pkg sel (Cluster_Labels cluster)
              then ClusterGroupsForCluster_loop cluster rest (result ++ [cg]) lg
              else ClusterGroupsForCluster_loop cluster rest result lg
          end
      end
  end.

Definition ClusterGroupsForCluster (cluster : fleet_Cluster) (st : State)
  : (list fleet_ClusterGroup * option error) * State :=
  match clusterGroups_List m (Cluster_Namespace cluster) Everything with
  | Err err => (([], Some err), st)
  | Ok cgs =>
      let '(result, lg) := ClusterGroupsForCluster_loop cluster cgs [] (log st) in
      ((result, None), {| content := content st; log := lg |})
  end.

Definition DeploymentLabels (app : fleet_Bundle) : gmap string string :=
  <["fleet.cattle.io/bundle-namespace" := Bundle_Namespace app]>
    (<["fleet.cattle.io/bundle-name" := Bundle_Name app]> ∅).

(** The first loop of [foldInDeployments]: the deployments by namespace,
    a later one replacing an earlier one of the same namespace. *)
Fixpoint byNamespace_loop (bundleDeployments : list fleet_BundleDeployment)
  (byNamespace : gmap string fleet_BundleDeployment)
  : gmap string fleet_BundleDeployment :=
  match bundleDeployments with
  | [] => byNamespace
  | appDep :: rest =>
      byNamespace_loop rest
        (<[BundleDeployment_Namespace appDep := DeepCopy appDep]> byNamespace)
  end.

(** [foldInDeployments] writes the [Deployment] of the targets it is
    given; the targets after the call are returned with the error. *)
Definition foldInDeployments (app : fleet_Bundle) (targets : list Target)
  : list Target * option error :=
  match bundleDeploymentCache_List m ""
          (SelectorFromSet (DeploymentLabels app)) with
  | Err err => (targets, Some err)
  | Ok bundleDeployments =>
      let byNamespace := byNamespace_loop bundleDeployments ∅ in
      (map (fun target =>
              set_Deployment target
                (byNamespace !! Cluster_Status_Namespace (Cluster target)))
           targets,
       None)
  end.

(** The loop of [Targets] over the clusters: [Err] where the code
    returns [nil, err] from inside the loop. *)
Fixpoint Targets_loop (fleetBundle : fleet_Bundle) (bundle : bundle_Bundle)
  (clusters : list fleet_Cluster) (result : list Target) (st : State)
  : Result (list Target) * State :=
  match clusters with
  | [] => (Ok result, st)
  | cluster :: rest =>
      match ClusterGroupsForCluster cluster st with
      | ((_, Some err), st) => (Err err, st)
      | ((clusterGroups, None), st) =>
          match Match pkg bundle (ClusterGroupsToLabelMap clusterGroups)
                  (Cluster_Labels cluster) with
          | None => Targets_loop fleetBundle bundle rest result st
          | Some match_ =>
              match Match_Manifest pkg match_ with
              | Err err => (Err err, st)
              | Ok manifest =>
                  match options_Calculate pkg (Bundle_Spec fleetBundle)
                          (Match_Target pkg match_) with
                  | Err err => (Err err, st)
                  | Ok opts =>
                      match options_DeploymentID pkg manifest opts with
                      | Err err => (Err err, st)
                      | Ok deploymentID =>
                          match contentStore_Store m manifest (content st) with
                          | (Err err, c) =>
                              (Err err, {| content := c; log := log st |})
                          | (Ok _, c) =>
                              Targets_loop fleetBundle bundle rest
                                (result ++
                                   [{| Deployment := None;
                                       ClusterGroups := clusterGroups;
                                       Cluster := cluster;
                                       Target_BundleTarget :=
                                         Match_Target pkg match_;
                                       Bundle := fleetBundle;
                                       Options := opts;
                                       DeploymentID := deploymentID |}])
                                {| content := c; log := log st |}
                          end
                      end
                  end
              end
          end
      end
  end.

Definition Targets (fleetBundle : fleet_Bundle) (st : State)
  : (list Target * option error) * State :=
  match bundle_New pkg fleetBundle with
  | Err err => (([], Some err), st)
  | Ok bundle =>
      match clusters_List m (Bundle_Namespace fleetBundle) Everything with
      | Err err => (([], Some err), st)
      | Ok clusters =>
          match Targets_loop fleetBundle bundle clusters [] st with
          | (Err err, st) => (([], Some err), st)
          | (Ok result, st) =>
              let result :=
                sort_Slice
                  (fun ti tj =>
                     String.ltb (Cluster_Name (Cluster ti))
                                (Cluster_Name (Cluster tj)))
                  result in
              (foldInDeployments fleetBundle result, st)
          end
      end
  end.

Definition IsPaused (t : Target) : bool :=
  Cluster_Spec_Paused (Cluster t) || BundleSpec_Paused (Bundle_Spec (Bundle t)).

Definition AssignNewDeployment (t : Target) : Target :=
  set_Deployment t
    (Some {| BundleDeployment_Name := Bundle_Name (Bundle t);
             BundleDeployment_Namespace := Cluster_Status_Namespace (Cluster t);
             BundleDeployment_Labels := DeploymentLabels (Bundle t);
             Spec_StagedDeploymentID := "";
             Spec_DeploymentID := "";
             Status_AppliedDeploymentID := "";
             Status_Ready := false |}).

Definition getRollout (targets : list Target) : fleet_RolloutStrategy :=
  let rollout :=
    match targets with
    | t :: _ => BundleSpec_RolloutStrategy (Bundle_Spec (Bundle t))
    | [] => None
    end in
  match rollout with
  | Some r => r
  | None => {| RolloutStrategy_MaxUnavailable := None;
               RolloutStrategy_MaxUnavailablePartitions := None;
               RolloutStrategy_AutoPartitionSize := None |}
  end.

Definition MaxUnavailable (targets : list Target) : Z * option error :=
  let rollout := getRollout targets in
  Limit ParseFloat int_unrepresentable (len targets)
    [RolloutStrategy_MaxUnavailable rollout].

Definition MaxUnavailablePartitions (partitions : list Partition)
  (targets : list Target) : Z * option error :=
  let rollout := getRollout targets in
  Limit ParseFloat int_unrepresentable (len partitions)
    [RolloutStrategy_MaxUnavailablePartitions rollout;
     Some defMaxUnavailablePartitions].

(** [a != b] on strings. *)
Definition string_neq (a b : string) : bool := negb (String.eqb a b).

Definition UpToDate (target : Target) : bool :=
  match Deployment target with
  | None => false
  | Some d =>
      if string_neq (Spec_StagedDeploymentID d) (DeploymentID target)
         || string_neq (Spec_DeploymentID d) (DeploymentID target)
         || string_neq (Status_AppliedDeploymentID d) (DeploymentID target)
      then false
      else true
  end.

Definition IsUnavailable (target : option fleet_BundleDeployment) : bool :=
  match target with
  | None => false
  | Some d =>
      string_neq (Status_AppliedDeploymentID d) (Spec_DeploymentID d)
      || negb (Status_Ready d)
  end.

(** The loop of [Unavailable], with the named result [count]. *)
Fixpoint Unavailable_loop (targets : list Target) (count : Z) : Z :=
  match targets with
  | [] => count
  | target :: rest =>
      match Deployment target with
      | None => Unavailable_loop rest count
      | Some _ =>
          if IsUnavailable (Deployment target)
          then Unavailable_loop rest (wrap_int (count + 1))
          else Unavailable_loop rest count
      end
  end.

Definition Unavailable (targets : list Target) : Z :=
  Unavailable_loop targets 0.

(** The assignment [status.Unavailable = n]. *)
Definition set_Unavailable (status : fleet_PartitionStatus) (n : Z)
  : fleet_PartitionStatus :=
  {| PartitionStatus_Name := PartitionStatus_Name status;
     PartitionStatus_Count := PartitionStatus_Count status;
     PartitionStatus_MaxUnavailable := PartitionStatus_MaxUnavailable status;
     PartitionStatus_Unavailable := n |}.

Fixpoint IsPartitionUnavailable_loop (status : fleet_PartitionStatus)
  (targets : list Target) : fleet_PartitionStatus :=
  match targets with
  | [] => status
  | target :: rest =>
      if negb (UpToDate target) || IsUnavailable (Deployment target)
      then IsPartitionUnavailable_loop
             (set_Unavailable status
                (wrap_int (PartitionStatus_Unavailable status + 1)))
             rest
      else IsPartitionUnavailable_loop status rest
  end.

(** [IsPartitionUnavailable] writes through its [status] pointer: the
    status after the call is returned beside the result. *)
Definition IsPartitionUnavailable (status : fleet_PartitionStatus)
  (targets : list Target) : bool * fleet_PartitionStatus :=
  let status := set_Unavailable status 0 in
  let status := IsPartitionUnavailable_loop status targets in
  (PartitionStatus_MaxUnavailable status <? PartitionStatus_Unavailable status,
   status).

(** * Properties *)

(** ** Strings that end in a percent sign are not numerals *)

Lemma HasSuffix_percent_cons (c : ascii) (r : string) :
  HasSuffix (String c r) "%" =
  match r with
  | EmptyString => Ascii.eqb c "%"
  | _ => HasSuffix r "%"
  end.
Proof.
  unfold HasSuffix. destruct r as [|c' r']; simpl.
  - destruct (Ascii.eqb c "%"); reflexivity.
  - rewrite Nat.sub_0_r. reflexivity.
Qed.

Lemma Atoi_loop_percent (s : string) (n : Z) :
  HasSuffix s "%" = true -> Atoi_loop s n = None.
Proof.
  revert n. induction s as [|c r IH]; intros n H.
  - discriminate.
  - rewrite HasSuffix_percent_cons in H. simpl.
    destruct r as [|c' r'].
    + apply Ascii.eqb_eq in H. subst c. reflexivity.
    + destruct (is_digit c); [apply IH; assumption | reflexivity].
Qed.

(** A string of fewer than 19 bytes that ends in a percent sign is read
    by the fast path of [Atoi], which rejects it. *)
Lemma Atoi_percent (s : string) :
  HasSuffix s "%" = true -> (String.length s < 19)%nat ->
  Atoi s = (0, Some (NumError "Atoi" s ErrSyntax)).
Proof.
  intros H Hlen. destruct s as [|c r]; [discriminate|].
  unfold Atoi.
  assert ((0 <? String.length (String c r))%nat
          && (String.length (String c r) <? 19)%nat = true) as ->.
  { apply andb_true_iff. split; apply Nat.ltb_lt; simpl in *; lia. }
  destruct (Ascii.eqb c "-" || Ascii.eqb c "+") eqn:Hsign.
  - destruct r as [|c' r']; [reflexivity|].
    rewrite HasSuffix_percent_cons in H.
    rewrite andb_false_r, (Atoi_loop_percent _ 0 H). reflexivity.
  - rewrite (Atoi_loop_percent _ 0 H). reflexivity.
Qed.

Lemma IntValue_percent (v : IntOrString) :
  Type_ v = String_ -> HasSuffix (StrVal v) "%" = true ->
  (String.length (StrVal v) < 19)%nat -> IntValue v = 0.
Proof.
  intros Ht H Hlen. unfold IntValue.
  rewrite Ht, (Atoi_percent _ H Hlen). reflexivity.
Qed.

Lemma float64_pos_not_le_zero (x : float64) :
  float64_pos x = true -> float64_le_zero x = false.
Proof.
  unfold float64_pos, float64_le_zero, SFltb, SFleb.
  destruct x as [s|s| |s mx ex]; try destruct s; simpl; congruence.
Qed.

(** ** Exactness of [float64] arithmetic on small integers *)

(** The number of binary digits of a positive number. *)
Definition digits (p : positive) : Z := Zpos (digits2_pos p).

Lemma digits_bounds (p : positive) :
  2 ^ (digits p - 1) <= Zpos p < 2 ^ digits p.
Proof.
  unfold digits. induction p as [p IH|p IH|]; cbn [digits2_pos].
  - rewrite Pos2Z.inj_succ.
    replace (Z.succ (Zpos (digits2_pos p)) - 1)
      with (Z.succ (Zpos (digits2_pos p) - 1)) by lia.
    rewrite !Z.pow_succ_r by lia. lia.
  - rewrite Pos2Z.inj_succ.
    replace (Z.succ (Zpos (digits2_pos p)) - 1)
      with (Z.succ (Zpos (digits2_pos p) - 1)) by lia.
    rewrite !Z.pow_succ_r by lia. lia.
  - simpl. lia.
Qed.

Lemma digits_unique (p : positive) (k : Z) :
  2 ^ (k - 1) <= Zpos p < 2 ^ k -> digits p = k.
Proof.
  intros [Hlo Hhi]. pose proof (digits_bounds p) as [Dlo Dhi].
  assert (0 < digits p) by (unfold digits; lia).
  destruct (Z.lt_trichotomy (digits p) k) as [Hlt | [Heq | Hgt]]; [|exact Heq|].
  - assert (2 ^ digits p <= 2 ^ (k - 1)) by (apply Z.pow_le_mono_r; lia). lia.
  - assert (0 < k).
    { destruct (Z.lt_ge_cases 0 k) as [?|Hk]; [assumption|].
      destruct (Z.eq_dec k 0) as [->|Hk0]; [simpl in Hhi; lia|].
      rewrite Z.pow_neg_r in Hhi by lia. lia. }
    assert (2 ^ k <= 2 ^ (digits p - 1)) by (apply Z.pow_le_mono_r; lia). lia.
Qed.

Lemma shr_1_nonneg (mx : Z) (r s : bool) :
  0 <= mx ->
  shr_1 {| shr_m := mx; shr_r := r; shr_s := s |}
  = {| shr_m := mx / 2; shr_r := Z.odd mx; shr_s := r || s |}.
Proof.
  intros Hm. rewrite <- Z.div2_div.
  destruct mx as [|[p|p|]|p]; try reflexivity. lia.
Qed.

Lemma iter_pos_nat {A : Type} (f : A -> A) (p : positive) (x : A) :
  SpecFloat.iter_pos f p x = Nat.iter (Pos.to_nat p) f x.
Proof.
  revert x. induction p as [p IH|p IH|]; intros x; cbn [SpecFloat.iter_pos].
  - rewrite !IH, Pos2Nat.inj_xI, <- Nat.iter_add, <- Nat.iter_succ_r.
    f_equal. lia.
  - rewrite !IH, Pos2Nat.inj_xO, <- Nat.iter_add. f_equal. lia.
  - reflexivity.
Qed.

Lemma shr_iter (mx : Z) (j : nat) :
  0 <= mx ->
  Nat.iter (S j) shr_1 {| shr_m := mx; shr_r := false; shr_s := false |}
  = {| shr_m := mx / 2 ^ Z.of_nat (S j);
       shr_r := Z.testbit mx (Z.of_nat j);
       shr_s := negb (mx mod 2 ^ Z.of_nat j =? 0) |}.
Proof.
  intros Hm. induction j as [|j IH].
  - cbn [Nat.iter]. rewrite shr_1_nonneg by assumption.
    change (2 ^ Z.of_nat 1) with 2. change (2 ^ Z.of_nat 0) with 1.
    rewrite Z.mod_1_r, Z.bit0_odd. reflexivity.
  - change (Nat.iter (S (S j)) shr_1 ?x) with (shr_1 (Nat.iter (S j) shr_1 x)).
    rewrite IH. rewrite shr_1_nonneg by (apply Z.div_pos; lia).
    f_equal.
    + rewrite Z.div_div by lia. f_equal.
      rewrite (Nat2Z.inj_succ (S j)), Z.pow_succ_r by lia. lia.
    + rewrite Z.testbit_odd, Z.shiftr_div_pow2 by lia. reflexivity.
    + rewrite (Nat2Z.inj_succ j), Z.pow_succ_r by lia.
      rewrite (Z.mul_comm 2), Z.rem_mul_r by lia.
      rewrite <- Z.testbit_spec' by lia.
      assert (0 <= mx mod 2 ^ Z.of_nat j < 2 ^ Z.of_nat j)
        by (apply Z.mod_pos_bound; lia).
      destruct (Z.testbit mx (Z.of_nat j)); cbn [Z.b2z orb].
      * symmetry. apply negb_true_iff, Z.eqb_neq. lia.
      * rewrite Z.mul_0_r, Z.add_0_r. reflexivity.
Qed.

Lemma shr_pos (mx : Z) (e : Z) (n : positive) :
  0 <= mx ->
  shr {| shr_m := mx; shr_r := false; shr_s := false |} e (Zpos n)
  = ({| shr_m := mx / 2 ^ Zpos n;
        shr_r := Z.testbit mx (Zpos n - 1);
        shr_s := negb (mx mod 2 ^ (Zpos n - 1) =? 0) |}, e + Zpos n).
Proof.
  intros Hm. unfold shr. rewrite iter_pos_nat.
  destruct (Pos2Nat.is_succ n) as [j Hj]. rewrite Hj, shr_iter by assumption.
  assert (Zpos n = Z.of_nat (S j)) as Hn by lia.
  rewrite Hn. repeat f_equal; lia.
Qed.

Lemma pow2_pred (n : Z) : 1 <= n -> 2 ^ n = 2 * 2 ^ (n - 1).
Proof. intros Hn. rewrite <- Z.pow_succ_r by lia. f_equal. lia. Qed.

Lemma Pos_iter_xO (c k : positive) :
  Zpos (Pos.iter xO c k) = Zpos c * 2 ^ Zpos k.
Proof.
  induction k as [|k IH] using Pos.peano_ind.
  - simpl. lia.
  - rewrite Pos.iter_succ, Pos2Z.inj_xO, IH, Pos2Z.inj_succ.
    rewrite Z.pow_succ_r by lia. ring.
Qed.

Lemma digits_scaled (mx : positive) (M : positive) (n : Z) :
  0 <= n -> digits mx = 53 -> Zpos M = Zpos mx * 2 ^ n -> digits M = 53 + n.
Proof.
  intros Hn Hd HM. apply digits_unique.
  pose proof (digits_bounds mx) as Hb. rewrite Hd in Hb.
  replace (53 + n - 1) with (52 + n) by lia.
  rewrite !Z.pow_add_r, HM by lia. change (53 - 1) with 52 in Hb.
  assert (0 < 2 ^ n) by (apply Z.pow_pos_nonneg; lia). nia.
Qed.

Lemma fexp64 (e : Z) : -1074 <= e - 53 -> fexp prec64 emax64 e = e - 53.
Proof. unfold fexp, emin, prec64, emax64. lia. Qed.

Lemma shr_fexp_canonical (mx : positive) (e : Z) :
  digits mx = 53 -> -1074 <= e ->
  shr_fexp prec64 emax64 (Zpos mx) e loc_Exact
  = ({| shr_m := Zpos mx; shr_r := false; shr_s := false |}, e).
Proof.
  intros Hd He. unfold shr_fexp. cbn [Zdigits2 shr_record_of_loc].
  fold (digits mx). rewrite Hd, fexp64 by lia.
  replace (53 + e - 53 - e) with 0 by lia. reflexivity.
Qed.

(** Rounding a mantissa that ends in enough zeros loses nothing. *)
Lemma binary_round_aux_exact (s : bool) (M mx : positive) (n e : Z) :
  0 <= n -> Zpos M = Zpos mx * 2 ^ n -> digits mx = 53 ->
  -1074 <= e + n <= 971 ->
  binary_round_aux prec64 emax64 s (Zpos M) e loc_Exact
  = S754_finite s mx (e + n).
Proof.
  intros Hn HM Hd He.
  pose proof (digits_scaled mx M n Hn Hd HM) as HdM.
  unfold binary_round_aux.
  assert (shr_fexp prec64 emax64 (Zpos M) e loc_Exact
          = ({| shr_m := Zpos mx; shr_r := false; shr_s := false |}, e + n))
    as ->.
  { unfold shr_fexp. cbn [Zdigits2 shr_record_of_loc]. fold (digits M).
    rewrite HdM, fexp64 by lia.
    replace (53 + n + e - 53 - e) with n by lia.
    destruct n as [|np|np]; [| |lia].
    - rewrite Z.mul_1_r in HM. rewrite HM, Z.add_0_r. reflexivity.
    - rewrite shr_pos by lia. f_equal. f_equal.
      + rewrite HM. apply Z.div_mul. apply Z.pow_nonzero; lia.
      + rewrite HM. apply Z.mul_pow2_bits_low. lia.
      + apply negb_false_iff, Z.eqb_eq. rewrite HM.
        rewrite (pow2_pred (Zpos np)) by lia.
        replace (Zpos mx * (2 * 2 ^ (Zpos np - 1)))
          with (Zpos mx * 2 * 2 ^ (Zpos np - 1)) by ring.
        apply Z.mod_mul. apply Z.pow_nonzero; lia. }
  cbn [shr_m loc_of_shr_record round_nearest_even].
  rewrite shr_fexp_canonical by (assumption || lia).
  cbn [shr_m]. unfold emax64, prec64.
  destruct (Z.leb_spec (e + n) (1024 - 53)); [reflexivity | lia].
Qed.

(** Rounding a mantissa that lies half way between two neighbours goes
    to the even one. *)
Lemma binary_round_aux_tie (s : bool) (M m0 : positive) (n e : Z) :
  1 <= n -> Zpos M = (2 * Zpos m0 + 1) * 2 ^ (n - 1) ->
  digits m0 = 53 -> Zpos m0 + 1 < 2 ^ 53 ->
  -1074 <= e + n <= 971 ->
  binary_round_aux prec64 emax64 s (Zpos M) e loc_Exact
  = S754_finite s (if Z.even (Zpos m0) then m0 else Pos.succ m0) (e + n).
Proof.
  intros Hn HM Hd Hlt He.
  pose proof (digits_bounds m0) as Hb. rewrite Hd in Hb.
  change (53 - 1) with 52 in Hb.
  assert (0 < 2 ^ (n - 1)) as Hpow by (apply Z.pow_pos_nonneg; lia).
  assert (digits M = 53 + n) as HdM.
  { apply digits_unique. replace (53 + n - 1) with (53 + (n - 1)) by lia.
    replace (53 + n) with (54 + (n - 1)) by lia.
    rewrite !Z.pow_add_r, HM by lia. nia. }
  unfold binary_round_aux.
  assert (shr_fexp prec64 emax64 (Zpos M) e loc_Exact
          = ({| shr_m := Zpos m0; shr_r := true; shr_s := false |}, e + n))
    as ->.
  { unfold shr_fexp. cbn [Zdigits2 shr_record_of_loc]. fold (digits M).
    rewrite HdM, fexp64 by lia.
    replace (53 + n + e - 53 - e) with n by lia.
    destruct n as [|np|np]; [lia| |lia].
    rewrite shr_pos by lia. f_equal. f_equal.
    - rewrite HM.
      rewrite (pow2_pred (Zpos np)) by lia.
      rewrite (Z.mul_comm 2 (2 ^ (Zpos np - 1))).
      rewrite <- Z.div_div by lia. rewrite Z.div_mul by lia.
      rewrite (Z.mul_comm 2), Z.div_add_l by lia. reflexivity.
    - rewrite HM, Z.mul_pow2_bits by lia.
      replace (Zpos np - 1 - (Zpos np - 1)) with 0 by lia.
      rewrite Z.bit0_odd, Z.add_comm, Z.odd_add_mul_2. reflexivity.
    - apply negb_false_iff, Z.eqb_eq. rewrite HM. apply Z.mod_mul. lia. }
  cbn [shr_m loc_of_shr_record round_nearest_even].
  destruct (Z.even (Zpos m0)) eqn:Hev.
  - rewrite shr_fexp_canonical by (assumption || lia).
    cbn [shr_m]. unfold emax64, prec64.
    destruct (Z.leb_spec (e + n) (1024 - 53)); [reflexivity | lia].
  - change (Zpos m0 + 1) with (Zpos (m0 + 1)).
    rewrite shr_fexp_canonical.
    + cbn [shr_m]. unfold emax64, prec64. rewrite Pos.add_1_r.
      destruct (Z.leb_spec (e + n) (1024 - 53)); [reflexivity | lia].
    + apply digits_unique. change (53 - 1) with 52. lia.
    + lia.
Qed.

Lemma float64_trunc_finite (mx : positive) (e : Z) :
  float64_trunc (S754_finite false mx e)
  = Some (if e <? 0 then Zpos mx / 2 ^ (- e) else Zpos mx * 2 ^ e).
Proof.
  unfold float64_trunc. f_equal. destruct e as [|p|p].
  - change (0 <? 0) with false. cbv iota.
    rewrite Z.shiftl_0_r, Z.pow_0_r, Z.mul_1_r. reflexivity.
  - change (Zpos p <? 0) with false. cbv iota.
    apply Z.shiftl_mul_pow2. lia.
  - change (Zneg p <? 0) with true. cbv iota.
    rewrite Z.shiftr_div_pow2 by lia. reflexivity.
Qed.

(** [float64(c)] for a positive [c] below 2^53 is exact: the mantissa is
    [c] shifted to 53 digits. *)
Lemma float64_of_int_exact (c : positive) :
  digits c <= 53 ->
  exists cm : positive,
    Zpos cm = Zpos c * 2 ^ (53 - digits c)
    /\ digits cm = 53
    /\ float64_of_int (Zpos c) = S754_finite false cm (digits c - 53).
Proof.
  intros Hd.
  pose proof (digits_bounds c) as Hb.
  assert (0 < digits c) as Hpos by (unfold digits; lia).
  unfold float64_of_int, binary_normalize, binary_round.
  fold (digits c). rewrite Z.add_0_r, fexp64 by lia.
  unfold shl_align. rewrite Z.sub_0_r.
  destruct (digits c - 53) as [|k|k] eqn:Hk; [|lia|].
  - exists c. assert (digits c = 53) as H53 by lia.
    rewrite H53. change (53 - 53) with 0. rewrite Z.mul_1_r.
    split; [reflexivity|]. split; [reflexivity|].
    rewrite (binary_round_aux_exact false c c 0 0); try lia; reflexivity.
  - exists (Pos.iter xO c k).
    assert (Zpos (Pos.iter xO c k) = Zpos c * 2 ^ Zpos k) as Hm.
    { apply Pos_iter_xO. }
    assert (53 - digits c = Zpos k) as Hk' by lia.
    rewrite Hk'. split; [exact Hm|].
    assert (digits (Pos.iter xO c k) = 53) as Hdm.
    { apply digits_unique. rewrite Hm. change (53 - 1) with 52.
      assert (2 ^ 52 = 2 ^ (digits c - 1) * 2 ^ Zpos k) as ->
        by (rewrite <- Z.pow_add_r by lia; f_equal; lia).
      assert (2 ^ 53 = 2 ^ digits c * 2 ^ Zpos k) as ->
        by (rewrite <- Z.pow_add_r by lia; f_equal; lia).
      assert (0 < 2 ^ Zpos k) by (apply Z.pow_pos_nonneg; lia). nia. }
    split; [exact Hdm|].
    rewrite (binary_round_aux_exact false _ (Pos.iter xO c k) 0 (Zneg k));
      try lia.
    all: try (rewrite Z.add_0_r; reflexivity).
Qed.

(** The float 10. *)
Lemma float64_of_int_10 :
  float64_of_int 10 = S754_finite false 5629499534213120 (-49).
Proof. reflexivity. Qed.

Lemma digits_mono (p q : positive) : (p <= q)%positive -> digits p <= digits q.
Proof.
  intros Hpq. pose proof (digits_bounds p) as Hp.
  pose proof (digits_bounds q) as Hq.
  destruct (Z.le_gt_cases (digits p) (digits q)) as [?|Hgt]; [assumption|].
  assert (2 ^ digits q <= 2 ^ (digits p - 1))
    by (apply Z.pow_le_mono_r; unfold digits in *; lia).
  lia.
Qed.

(** The product [float64(c) * 10], truncated to an integer, is within 2
    of [10 * c] when [10 * c] is below 2^55, and differs from it only
    when [10 * c] is 2 modulo 4. *)
Lemma float64_mul_ten (c : Z) :
  0 < c -> 10 * c < 2 ^ 55 ->
  exists V,
    float64_trunc (float64_mul (float64_of_int c) (float64_of_int 10)) = Some V
    /\ (V = 10 * c
        \/ (10 * c) mod 4 = 2 /\ (V = 10 * c - 2 \/ V = 10 * c + 2)).
Proof.
  intros Hc Hlt. destruct c as [|c|c]; try lia.
  pose proof (digits_bounds c) as Hb.
  assert (0 < digits c) as Hdpos by (unfold digits; lia).
  assert (digits c <= 52) as Hd.
  { destruct (Z.le_gt_cases (digits c) 52) as [?|Hgt]; [assumption|].
    assert (2 ^ 52 <= 2 ^ (digits c - 1)) by (apply Z.pow_le_mono_r; lia).
    lia. }
  destruct (float64_of_int_exact c ltac:(lia)) as (cm & Hcm & Hdcm & ->).
  rewrite float64_of_int_10. unfold float64_mul, SFmul. cbn [xorb].
  set (z := 102 - digits c).
  assert (Zpos (cm * 5629499534213120) = (10 * Zpos c) * 2 ^ z) as HM.
  { rewrite Pos2Z.inj_mul, Hcm. unfold z.
    replace (102 - digits c) with ((53 - digits c) + 49) by lia.
    rewrite Z.pow_add_r by lia. change (2 ^ 49) with 562949953421312. lia. }
  assert (digits c - 53 + -49 = - z) as -> by (unfold z; lia).
  set (X := (10 * c)%positive).
  assert (Zpos X = 10 * Zpos c) as HX by (unfold X; lia).
  rewrite <- HX in HM |- *.
  pose proof (digits_bounds X) as HbX.
  assert (digits c <= digits X) as HdX by (apply digits_mono; lia).
  destruct (Z.lt_ge_cases (Zpos X) (2 ^ 53)) as [H53|H53].
  - (* the product is exact, with an exponent that is not positive *)
    assert (digits X <= 53) as HdX53.
    { destruct (Z.le_gt_cases (digits X) 53) as [?|Hgt]; [assumption|].
      assert (2 ^ 53 <= 2 ^ (digits X - 1)) by (apply Z.pow_le_mono_r; lia).
      lia. }
    destruct (float64_of_int_exact X HdX53) as (xm & Hxm & Hdxm & _).
    rewrite (binary_round_aux_exact false _ xm (z - (53 - digits X)) (- z)).
    + exists (Zpos X). split; [|left; reflexivity].
      rewrite float64_trunc_finite.
      replace (- z + (z - (53 - digits X))) with (digits X - 53) by lia.
      destruct (Z.ltb_spec (digits X - 53) 0).
      * rewrite Hxm. replace (- (digits X - 53)) with (53 - digits X) by lia.
        rewrite Z.div_mul by (apply Z.pow_nonzero; lia). reflexivity.
      * assert (digits X = 53) as E by lia.
        rewrite Hxm, E. change (53 - 53) with 0.
        rewrite Z.pow_0_r, !Z.mul_1_r. reflexivity.
    + unfold z. lia.
    + rewrite HM, Hxm, <- Z.mul_assoc, <- Z.pow_add_r by (unfold z; lia).
      f_equal. f_equal. lia.
    + exact Hdxm.
    + unfold z. lia.
  - destruct (Z.lt_ge_cases (Zpos X) (2 ^ 54)) as [H54|H54].
    + (* one bit is dropped, and it is zero *)
      assert (digits (5 * c) = 53) as Hd5
        by (apply digits_unique; change (53 - 1) with 52; lia).
      rewrite (binary_round_aux_exact false _ (5 * c) (z + 1) (- z)).
      * exists (Zpos X). split; [|left; reflexivity].
        rewrite float64_trunc_finite.
        replace (- z + (z + 1)) with 1 by lia.
        change (1 <? 0) with false. cbv iota. change (2 ^ 1) with 2.
        f_equal. lia.
      * unfold z. lia.
      * rewrite HM, Z.pow_add_r by (unfold z; lia). lia.
      * exact Hd5.
      * lia.
    + (* two bits are dropped *)
      destruct (Z.even (Zpos c)) eqn:Hev.
      * (* both are zero *)
        apply Z.even_spec in Hev as [h Hh].
        assert (0 < h) as Hhpos by lia.
        destruct h as [|h|h]; try lia.
        assert (digits (5 * h) = 53) as Hd5
          by (apply digits_unique; change (53 - 1) with 52; lia).
        rewrite (binary_round_aux_exact false _ (5 * h) (z + 2) (- z)).
        -- exists (Zpos X). split; [|left; reflexivity].
           rewrite float64_trunc_finite.
           replace (- z + (z + 2)) with 2 by lia.
           change (2 <? 0) with false. cbv iota. change (2 ^ 2) with 4.
           f_equal. lia.
        -- unfold z. lia.
        -- rewrite HM, Z.pow_add_r by (unfold z; lia). lia.
        -- exact Hd5.
        -- lia.
      * (* the dropped bits are 10: a tie *)
        rewrite <- Z.negb_odd in Hev. apply negb_false_iff in Hev.
        apply Z.odd_spec in Hev as [h Hh].
        assert (0 < 5 * h + 2) as Hm0 by lia.
        destruct (5 * h + 2) as [|m0|m0] eqn:Hm0'; try lia.
        assert (digits m0 = 53) as Hdm0
          by (apply digits_unique; change (53 - 1) with 52; lia).
        rewrite (binary_round_aux_tie false _ m0 (z + 2) (- z)).
        -- rewrite float64_trunc_finite.
           replace (- z + (z + 2)) with 2 by lia.
           change (2 <? 0) with false. cbv iota. change (2 ^ 2) with 4.
           assert ((10 * Zpos c) mod 4 = 2) as Hmod.
           { replace (10 * Zpos c) with (2 + (5 * h + 2) * 4) by lia.
             rewrite Z.mod_add by lia. reflexivity. }
           destruct (Z.even (Zpos m0)).
           ++ exists (Zpos m0 * 4). split; [reflexivity|]. right.
              split; [exact Hmod|]. left. lia.
           ++ exists (Zpos (Pos.succ m0) * 4). split; [reflexivity|]. right.
              split; [exact Hmod|]. right. lia.
        -- unfold z. lia.
        -- rewrite HM. replace (z + 2 - 1) with (z + 1) by lia.
           rewrite Z.pow_add_r by (unfold z; lia). lia.
        -- exact Hdm0.
        -- lia.
        -- lia.
Qed.

Lemma quot_100_near (c V : Z) :
  0 < c ->
  V = 10 * c \/ (10 * c) mod 4 = 2 /\ (V = 10 * c - 2 \/ V = 10 * c + 2) ->
  Z.quot V 100 = c * 10 / 100.
Proof.
  intros Hc HV. replace (c * 10) with (10 * c) by lia.
  assert (0 <= V) by lia.
  rewrite Z.quot_div_nonneg by lia.
  pose proof (Z.div_mod (10 * c) 100 ltac:(lia)) as Hq.
  pose proof (Z.mod_pos_bound (10 * c) 100 ltac:(lia)) as Hr.
  pose proof (Z.div_mod (10 * c) 4 ltac:(lia)) as Hq4.
  symmetry. apply Z.div_unique with (r := V - 100 * (10 * c / 100)); lia.
Qed.

(** ** The rollout-limit calculator *)

Lemma Limit_zero (val : list (option IntOrString)) :
  Limit ParseFloat int_unrepresentable 0 val = (1, None).
Proof. reflexivity. Qed.

Lemma Limit_nonzero (count : Z) (val : list (option IntOrString)) :
  count <> 0 ->
  Limit ParseFloat int_unrepresentable count val =
  let maxUnavailable := selected_budget val in
  match Type_ maxUnavailable with
  | Int => (IntValue maxUnavailable, None)
  | String_ =>
      if 0 <? IntValue maxUnavailable then (IntValue maxUnavailable, None)
      else if negb (HasSuffix (StrVal maxUnavailable) "%") then
        (0, Some (not_a_percentage maxUnavailable))
      else
        match ParseFloat (TrimSuffix (StrVal maxUnavailable) "%") with
        | (_, Some err) => (0, Some (parse_failure err maxUnavailable))
        | (percent, None) =>
            if float64_le_zero percent then (1, None)
            else
              let i :=
                Z.quot (int_of_float64 int_unrepresentable
                          (float64_mul (float64_of_int count) percent)) 100 in
              if i <=? 0 then (1, None) else (i, None)
        end
    end.
Proof.
  intros Hc. unfold Limit. apply Z.eqb_neq in Hc. rewrite Hc. cbv zeta.
  destruct (Type_ (selected_budget val)); [reflexivity|].
  destruct (0 <? _); [reflexivity|].
  destruct (negb _); [reflexivity|].
  destruct (ParseFloat _) as [percent [err|]]; reflexivity.
Qed.

Lemma selected_budget_explicit (val : list (option IntOrString))
  (b : IntOrString) :
  first_non_nil val = Some b -> selected_budget val = b.
Proof. unfold selected_budget. intros ->. reflexivity. Qed.

(** C2, as amended. For every count > 0 and a selected budget of string
    type whose integer value (IntValue) is not positive: when the string
    does not end in a percent sign, Limit fails with the not-a-percentage
    error; when it ends in a percent sign and the numeral before it does
    not parse as a float, Limit fails with the error that wraps the parse
    failure; both are InvalidBudget errors. A string whose integer value
    is positive is returned as that integer, so Limit(10, "10") is 10 and
    not an error; Limit(10, "abc%") fails with the wrapped parse failure
    of "abc". *)
Theorem Limit_invalid_budget (count : Z) (val : list (option IntOrString)) :
  0 < count ->
  Type_ (selected_budget val) = String_ ->
  let b := selected_budget val in
  (IntValue b <= 0 ->
   (HasSuffix (StrVal b) "%" = false ->
    Limit ParseFloat int_unrepresentable count val
    = (0, Some (not_a_percentage b))
    /\ InvalidBudget (not_a_percentage b))
   /\ (HasSuffix (StrVal b) "%" = true ->
       forall percent cause,
         ParseFloat (TrimSuffix (StrVal b) "%") = (percent, Some cause) ->
         Limit ParseFloat int_unrepresentable count val
         = (0, Some (parse_failure cause b))
         /\ InvalidBudget (parse_failure cause b)))
  /\ (0 < IntValue b ->
      Limit ParseFloat int_unrepresentable count val = (IntValue b, None))
  /\ Limit ParseFloat int_unrepresentable 10 [Some (FromString "10")]
     = (10, None)
  /\ (forall x cause,
        ParseFloat "abc" = (x, Some cause) ->
        Limit ParseFloat int_unrepresentable 10 [Some (FromString "abc%")]
        = (0, Some (parse_failure cause (FromString "abc%")))
        /\ InvalidBudget (parse_failure cause (FromString "abc%"))).
Proof.
  intros Hc Ht b. unfold b. clear b.
  assert (Hnz : count <> 0) by lia.
  pose proof (Limit_nonzero count val Hnz) as HL. cbv zeta in HL.
  rewrite Ht in HL.
  split; [|split; [|split]].
  - intros Hi. apply Z.ltb_ge in Hi. rewrite Hi in HL. split.
    + intros Hs. split; [|constructor]. rewrite HL, Hs. reflexivity.
    + intros Hs percent cause Hpf. split; [|constructor].
      rewrite HL, Hs. simpl. rewrite Hpf. reflexivity.
  - intros Hp. rewrite HL. apply Z.ltb_lt in Hp. rewrite Hp. reflexivity.
  - reflexivity.
  - intros x cause Hpf. split; [|constructor].
    rewrite Limit_nonzero by lia. cbv zeta.
    change (selected_budget [Some (FromString "abc%")])
      with (FromString "abc%").
    change (TrimSuffix (StrVal (FromString "abc%")) "%") with "abc".
    rewrite Hpf. reflexivity.
Qed.

(** C3, as amended. For every count > 0 and an explicit (non-nil) budget:
    a budget of integer type is returned as it is, zero and negative
    values included (Limit(100, 0) is 0); a percentage budget whose
    integer value (IntValue) is not positive, as it is for every
    percentage string of fewer than 19 bytes, and whose parsed value
    percent is positive returns int(float64(count) * percent) / 100,
    multiplied first and then divided by 100 as integers, except that a
    result that is not positive is replaced by 1 (Limit(10, "50%") is 5,
    Limit(3, "50%") is 1). *)
Theorem Limit_explicit_budget (count : Z) (val : list (option IntOrString))
  (b : IntOrString) :
  0 < count ->
  first_non_nil val = Some b ->
  (Type_ b = Int ->
   Limit ParseFloat int_unrepresentable count val = (IntVal b, None))
  /\ (Type_ b = String_ -> HasSuffix (StrVal b) "%" = true ->
      IntValue b <= 0 ->
      forall percent,
        ParseFloat (TrimSuffix (StrVal b) "%") = (percent, None) ->
        float64_pos percent = true ->
        let i := Z.quot (int_of_float64 int_unrepresentable
                           (float64_mul (float64_of_int count) percent)) 100 in
        Limit ParseFloat int_unrepresentable count val
        = (if i <=? 0 then 1 else i, None))
  /\ (Type_ b = String_ -> HasSuffix (StrVal b) "%" = true ->
      (String.length (StrVal b) < 19)%nat -> IntValue b = 0)
  /\ Limit ParseFloat int_unrepresentable 100 [Some (FromInt 0)] = (0, None)
  /\ (ParseFloat "50" = (float64_of_int 50, None) ->
      Limit ParseFloat int_unrepresentable 10 [Some (FromString "50%")]
      = (5, None)
      /\ Limit ParseFloat int_unrepresentable 3 [Some (FromString "50%")]
         = (1, None)).
Proof.
  intros Hc Hb.
  assert (Hnz : count <> 0) by lia.
  pose proof (Limit_nonzero count val Hnz) as HL. cbv zeta in HL.
  rewrite (selected_budget_explicit _ _ Hb) in HL.
  split; [|split; [|split; [|split]]].
  - intros Ht. rewrite HL, Ht. unfold IntValue. rewrite Ht. reflexivity.
  - intros Ht Hs Hi percent Hpf Hpos i. rewrite HL, Ht.
    apply Z.ltb_ge in Hi. rewrite Hi, Hs, Hpf. simpl.
    rewrite (float64_pos_not_le_zero _ Hpos). fold i.
    destruct (i <=? 0); reflexivity.
  - apply IntValue_percent.
  - reflexivity.
  - intros Hpf.
    assert (Hsel : selected_budget [Some (FromString "50%")]
                   = FromString "50%") by reflexivity.
    assert (Htrim : TrimSuffix (StrVal (FromString "50%")) "%" = "50")
      by reflexivity.
    split; rewrite Limit_nonzero by lia; cbv zeta;
      rewrite Hsel, Htrim, Hpf; vm_compute; reflexivity.
Qed.

Lemma int_of_float64_in_range (x : float64) (z : Z) :
  float64_trunc x = Some z -> MinInt <= z <= MaxInt ->
  int_of_float64 int_unrepresentable x = z.
Proof.
  intros Hx Hz. unfold int_of_float64, in_int. rewrite Hx.
  destruct (Z.leb_spec MinInt z); [|lia].
  destruct (Z.leb_spec z MaxInt); [reflexivity|lia].
Qed.

(** C4, as amended. Limit(0, anything) is 1 whatever the budgets; a
    percentage budget whose integer value (IntValue) is not positive and
    whose parsed value is zero or below yields 1; and when every budget
    supplied is nil, the default of 10% applies, so that Limit(count) is
    max(1, count*10/100) for every count > 0 with 10 * count below 2^55,
    the range in which the product float64(count) * 10 keeps the
    quotient by 100. *)
Theorem Limit_at_least_one_slot :
  (forall val, Limit ParseFloat int_unrepresentable 0 val = (1, None))
  /\ (forall count val percent,
        Type_ (selected_budget val) = String_ ->
        HasSuffix (StrVal (selected_budget val)) "%" = true ->
        IntValue (selected_budget val) <= 0 ->
        ParseFloat (TrimSuffix (StrVal (selected_budget val)) "%")
        = (percent, None) ->
        float64_le_zero percent = true ->
        Limit ParseFloat int_unrepresentable count val = (1, None))
  /\ (forall count val,
        first_non_nil val = None ->
        ParseFloat "10" = (float64_of_int 10, None) ->
        0 < count -> 10 * count < 2 ^ 55 ->
        Limit ParseFloat int_unrepresentable count val
        = (Z.max 1 (count * 10 / 100), None)).
Proof.
  split; [reflexivity|]. split.
  - intros count val percent Ht Hs Hi Hpf Hle.
    destruct (Z.eq_dec count 0) as [->|Hnz]; [reflexivity|].
    rewrite Limit_nonzero by assumption. cbv zeta.
    apply Z.ltb_ge in Hi. rewrite Ht, Hi, Hs, Hpf, Hle. reflexivity.
  - intros count val Hnil Hpf Hc Hlt.
    rewrite Limit_nonzero by lia. cbv zeta.
    assert (selected_budget val = defLimit) as ->
      by (unfold selected_budget; rewrite Hnil; reflexivity).
    change (Type_ defLimit) with String_. cbv iota.
    change (IntValue defLimit) with 0.
    change (0 <? 0) with false. cbv iota.
    change (HasSuffix (StrVal defLimit) "%") with true.
    change (TrimSuffix (StrVal defLimit) "%") with "10".
    cbn [negb]. rewrite Hpf.
    change (float64_le_zero (float64_of_int 10)) with false. cbv iota zeta.
    destruct (float64_mul_ten count Hc Hlt) as (V & HV & Hnear).
    assert (MinInt <= V <= MaxInt) as HVr
      by (unfold MinInt, MaxInt; change (2 ^ 55) with 36028797018963968 in Hlt;
          lia).
    rewrite (int_of_float64_in_range _ V HV HVr).
    rewrite (quot_100_near count V Hc Hnear).
    destruct (Z.leb_spec (count * 10 / 100) 0); f_equal; lia.
Qed.

(** C10. For every count > 0, when Limit returns without an error and the
    selected budget is of string type, the value returned is at least 1;
    a value of zero or below is returned only for a selected budget of
    integer type, as when the budget of the strategy is absent and the
    call supplies an integer fallback: MaxUnavailablePartitions with no
    budget set falls back to 0 and returns 0. *)
Theorem Limit_string_budget_at_least_one (count : Z)
  (val : list (option IntOrString)) (v : Z) :
  0 < count ->
  Limit ParseFloat int_unrepresentable count val = (v, None) ->
  (Type_ (selected_budget val) = String_ -> 1 <= v)
  /\ (v <= 0 ->
      Type_ (selected_budget val) = Int /\ v = IntVal (selected_budget val))
  /\ (forall (partitions : list Partition) (targets : list Target),
        0 < len partitions ->
        RolloutStrategy_MaxUnavailablePartitions (getRollout targets) = None ->
        selected_budget
          [RolloutStrategy_MaxUnavailablePartitions (getRollout targets);
           Some defMaxUnavailablePartitions] = FromInt 0
        /\ MaxUnavailablePartitions partitions targets = (0, None)).
Proof.
  intros Hc HL.
  assert (Hnz : count <> 0) by lia.
  rewrite (Limit_nonzero count val Hnz) in HL. cbv zeta in HL.
  assert (Hstr : Type_ (selected_budget val) = String_ -> 1 <= v).
  { intros Ht. rewrite Ht in HL.
    destruct (0 <? IntValue (selected_budget val)) eqn:Hi.
    - apply Z.ltb_lt in Hi. injection HL as <-. lia.
    - destruct (negb _); [discriminate|].
      destruct (ParseFloat _) as [percent [err|]]; [discriminate|].
      destruct (float64_le_zero percent); [injection HL as <-; lia|].
      match type of HL with
      | context [?i <=? 0] => destruct (i <=? 0) eqn:Hi0
      end; injection HL as <-; [lia|]. apply Z.leb_gt in Hi0. lia. }
  split; [exact Hstr|]. split.
  - intros Hv. destruct (Type_ (selected_budget val)) eqn:Ht.
    + split; [reflexivity|]. unfold IntValue in HL. rewrite Ht in HL.
      injection HL as <-. reflexivity.
    + specialize (Hstr eq_refl). lia.
  - intros partitions targets Hp Hr. unfold MaxUnavailablePartitions.
    rewrite Hr. split; [reflexivity|].
    rewrite Limit_nonzero by lia. reflexivity.
Qed.

(** ** The availability predicates *)

Lemma wrap_int_small (z : Z) : MinInt <= z <= MaxInt -> wrap_int z = z.
Proof.
  unfold MinInt, MaxInt, wrap_int. intros H.
  rewrite Z.mod_small; lia.
Qed.

Lemma string_neq_false (a b : string) : string_neq a b = false <-> a = b.
Proof.
  unfold string_neq. rewrite negb_false_iff. apply String.eqb_eq.
Qed.

Lemma string_neq_true (a b : string) : string_neq a b = true <-> a <> b.
Proof.
  unfold string_neq. rewrite negb_true_iff. apply String.eqb_neq.
Qed.

Lemma len_cons {A : Type} (x : A) (l : list A) : len (x :: l) = len l + 1.
Proof. unfold len. simpl length. lia. Qed.

Lemma len_nonneg {A : Type} (l : list A) : 0 <= len l.
Proof. unfold len. lia. Qed.

Lemma len_filter_le {A : Type} (p : A -> bool) (l : list A) :
  len (List.filter p l) <= len l.
Proof.
  induction l as [|x l IH]; simpl; [lia|].
  destruct (p x); rewrite !len_cons; lia.
Qed.

(** A target counts for [Unavailable]: it has a deployment, and the
    deployment is unavailable. *)
Definition counts_unavailable (t : Target) : bool :=
  match Deployment t with
  | None => false
  | Some _ => IsUnavailable (Deployment t)
  end.

(** A target counts against its partition: it is not up to date, or its
    deployment is unavailable. *)
Definition counts_against_partition (t : Target) : bool :=
  negb (UpToDate t) || IsUnavailable (Deployment t).

Lemma Unavailable_loop_count (targets : list Target) (count : Z) :
  0 <= count -> count + len targets <= MaxInt ->
  Unavailable_loop targets count
  = count + len (List.filter counts_unavailable targets).
Proof.
  revert count. induction targets as [|t targets IH]; intros count H0 Hmax.
  - simpl. unfold len. simpl. lia.
  - rewrite len_cons in Hmax. pose proof (len_nonneg targets) as Hn.
    simpl. unfold counts_unavailable at 1.
    destruct (Deployment t) as [d|] eqn:Hd.
    + destruct (IsUnavailable (Some d)).
      * rewrite wrap_int_small by (unfold MinInt, MaxInt in *; lia).
        rewrite IH by lia. rewrite len_cons. lia.
      * apply IH; lia.
    + apply IH; lia.
Qed.

Lemma IsPartitionUnavailable_loop_count (status : fleet_PartitionStatus)
  (targets : list Target) :
  0 <= PartitionStatus_Unavailable status ->
  PartitionStatus_Unavailable status + len targets <= MaxInt ->
  IsPartitionUnavailable_loop status targets
  = set_Unavailable status
      (PartitionStatus_Unavailable status
       + len (List.filter counts_against_partition targets)).
Proof.
  revert status. induction targets as [|t targets IH]; intros status H0 Hmax.
  - simpl. unfold len. simpl. rewrite Z.add_0_r. destruct status; reflexivity.
  - rewrite len_cons in Hmax. pose proof (len_nonneg targets) as Hn.
    simpl. fold (counts_against_partition t).
    destruct (counts_against_partition t).
    + rewrite wrap_int_small by (unfold MinInt, MaxInt in *; lia).
      rewrite IH by (simpl; lia). rewrite len_cons. simpl.
      unfold set_Unavailable. simpl. f_equal. lia.
    + apply IH; lia.
Qed.

Lemma counts_unavailable_against_partition (t : Target) :
  counts_unavailable t = true -> counts_against_partition t = true.
Proof.
  unfold counts_unavailable, counts_against_partition.
  destruct (Deployment t); [|discriminate].
  intros ->. apply orb_true_r.
Qed.

Lemma len_filter_mono {A : Type} (p q : A -> bool) (l : list A) :
  (forall x, p x = true -> q x = true) ->
  len (List.filter p l) <= len (List.filter q l).
Proof.
  intros Hpq. induction l as [|x l IH]; simpl; [lia|].
  destruct (p x) eqn:Hp.
  - rewrite (Hpq x Hp), !len_cons. lia.
  - destruct (q x); rewrite ?len_cons; lia.
Qed.

(** C5. UpToDate(target) is false whenever the target has no deployment;
    with a deployment it is true exactly when the staged, the target
    (spec) and the applied deployment identity of the deployment are all
    equal to the DeploymentID of the target. *)
Theorem UpToDate_iff (target : Target) :
  (Deployment target = None -> UpToDate target = false)
  /\ (forall d : fleet_BundleDeployment,
        Deployment target = Some d ->
        (UpToDate target = true <->
         Spec_StagedDeploymentID d = DeploymentID target
         /\ Spec_DeploymentID d = DeploymentID target
         /\ Status_AppliedDeploymentID d = DeploymentID target)).
Proof.
  unfold UpToDate. split.
  - intros ->. reflexivity.
  - intros d ->.
    destruct (string_neq (Spec_StagedDeploymentID d) _) eqn:H1;
      destruct (string_neq (Spec_DeploymentID d) _) eqn:H2;
      destruct (string_neq (Status_AppliedDeploymentID d) _) eqn:H3;
      simpl;
      first [ apply string_neq_true in H1 | apply string_neq_false in H1 ];
      first [ apply string_neq_true in H2 | apply string_neq_false in H2 ];
      first [ apply string_neq_true in H3 | apply string_neq_false in H3 ];
      split; try discriminate; try tauto.
Qed.

(** C6. IsUnavailable(nil) is false; for a deployment, IsUnavailable is
    true exactly when its applied deployment identity differs from its
    spec (target) deployment identity or it is not ready; Unavailable
    counts the targets that have a deployment and whose deployment is
    unavailable by this predicate. *)
Theorem Unavailable_count :
  IsUnavailable None = false
  /\ (forall d : fleet_BundleDeployment,
        IsUnavailable (Some d) = true <->
        Status_AppliedDeploymentID d <> Spec_DeploymentID d
        \/ Status_Ready d = false)
  /\ (forall targets : list Target,
        len targets <= MaxInt ->
        Unavailable targets
        = len (List.filter
                 (fun t => match Deployment t with
                           | None => false
                           | Some d => IsUnavailable (Some d)
                           end) targets)).
Proof.
  split; [reflexivity|]. split.
  - intros d. simpl. rewrite orb_true_iff, string_neq_true, negb_true_iff.
    reflexivity.
  - intros targets Hlen. unfold Unavailable.
    rewrite Unavailable_loop_count by lia. rewrite Z.add_0_l.
    f_equal. apply List.filter_ext. intros t. unfold counts_unavailable.
    destruct (Deployment t); reflexivity.
Qed.

(** C7. IsPartitionUnavailable replaces status.Unavailable, whatever it
    was, by the number of targets that are not up to date or whose
    deployment is unavailable; it returns true exactly when that number
    is greater than status.MaxUnavailable; and the number is at least
    Unavailable(targets). *)
Theorem IsPartitionUnavailable_count (status : fleet_PartitionStatus)
  (targets : list Target) :
  len targets <= MaxInt ->
  let n := len (List.filter
                  (fun t => negb (UpToDate t) || IsUnavailable (Deployment t))
                  targets) in
  snd (IsPartitionUnavailable status targets) = set_Unavailable status n
  /\ (fst (IsPartitionUnavailable status targets) = true
      <-> PartitionStatus_MaxUnavailable status < n)
  /\ Unavailable targets <= n.
Proof.
  intros Hlen n. unfold IsPartitionUnavailable.
  rewrite IsPartitionUnavailable_loop_count by (simpl; lia).
  change (List.filter counts_against_partition targets)
    with (List.filter
            (fun t => negb (UpToDate t) || IsUnavailable (Deployment t))
            targets).
  fold n. cbn [set_Unavailable PartitionStatus_Unavailable
               PartitionStatus_MaxUnavailable PartitionStatus_Name
               PartitionStatus_Count fst snd].
  rewrite Z.add_0_l. split; [reflexivity|]. split.
  - apply Z.ltb_lt.
  - unfold Unavailable. rewrite Unavailable_loop_count by lia.
    rewrite Z.add_0_l.
    apply (len_filter_mono counts_unavailable counts_against_partition).
    apply counts_unavailable_against_partition.
Qed.

(** ** Cluster groups of a cluster *)

(** The group has a selector, the selector is valid, and it matches the
    labels of the cluster. *)
Definition selects (cluster : fleet_Cluster) (cg : fleet_ClusterGroup) : bool :=
  match ClusterGroup_Spec_Selector cg with
  | None => false
  | Some selector =>
      match LabelSelectorAsSelector pkg selector with
      | Ok sel => Matches pkg sel (Cluster_Labels cluster)
      | Err _ => false
      end
  end.

(** The log line for a group whose selector is not valid, if it is not. *)
Definition selector_error (cg : fleet_ClusterGroup) : list LogEntry :=
  match ClusterGroup_Spec_Selector cg with
  | None => []
  | Some selector =>
      match LabelSelectorAsSelector pkg selector with
      | Ok _ => []
      | Err err => [invalid_selector (ClusterGroup_Namespace cg)
                      (ClusterGroup_Name cg) selector err]
      end
  end.

Definition selector_errors (cgs : list fleet_ClusterGroup) : list LogEntry :=
  flat_map selector_error cgs.

Lemma ClusterGroupsForCluster_loop_spec (cluster : fleet_Cluster)
  (cgs result : list fleet_ClusterGroup) (lg : list LogEntry) :
  ClusterGroupsForCluster_loop cluster cgs result lg
  = (result ++ List.filter (selects cluster) cgs, lg ++ selector_errors cgs).
Proof.
  revert result lg. induction cgs as [|cg cgs IH]; intros result lg.
  - simpl. rewrite !app_nil_r. reflexivity.
  - cbn [ClusterGroupsForCluster_loop List.filter selector_errors flat_map].
    unfold selects at 1, selector_error at 1.
    destruct (ClusterGroup_Spec_Selector cg) as [selector|]; [|apply IH].
    destruct (LabelSelectorAsSelector pkg selector) as [sel|err].
    + destruct (Matches pkg sel (Cluster_Labels cluster)); rewrite IH.
      * rewrite <- app_assoc. reflexivity.
      * reflexivity.
    + rewrite IH, <- app_assoc. reflexivity.
Qed.

Lemma ClusterGroupsForCluster_ok (cluster : fleet_Cluster) (st : State)
  (cgs : list fleet_ClusterGroup) :
  clusterGroups_List m (Cluster_Namespace cluster) Everything = Ok cgs ->
  ClusterGroupsForCluster cluster st
  = ((List.filter (selects cluster) cgs, None),
     {| content := content st; log := log st ++ selector_errors cgs |}).
Proof.
  intros H. unfold ClusterGroupsForCluster.
  rewrite H, ClusterGroupsForCluster_loop_spec. reflexivity.
Qed.

Lemma ClusterGroupsForCluster_err (cluster : fleet_Cluster) (st : State)
  (err : error) :
  clusterGroups_List m (Cluster_Namespace cluster) Everything = Err err ->
  ClusterGroupsForCluster cluster st = (([], Some err), st).
Proof. intros H. unfold ClusterGroupsForCluster. rewrite H. reflexivity. Qed.

(** C9. ClusterGroupsForCluster(cluster) returns exactly the cluster groups
    of the listing of the cluster's namespace that have a selector that
    is valid and matches the labels of the cluster, in the order of the
    listing; a group with no selector is never among them; a group whose
    selector does not parse is logged and left out, and the call does
    not fail for it. *)
Theorem ClusterGroupsForCluster_spec (cluster : fleet_Cluster) (st : State)
  (cgs : list fleet_ClusterGroup) :
  clusterGroups_List m (Cluster_Namespace cluster) Everything = Ok cgs ->
  ClusterGroupsForCluster cluster st
  = ((List.filter (selects cluster) cgs, None),
     {| content := content st; log := log st ++ selector_errors cgs |})
  /\ (forall cg,
        selects cluster cg = true <->
        exists selector sel,
          ClusterGroup_Spec_Selector cg = Some selector
          /\ LabelSelectorAsSelector pkg selector = Ok sel
          /\ Matches pkg sel (Cluster_Labels cluster) = true)
  /\ (forall cg,
        In cg (fst (fst (ClusterGroupsForCluster cluster st))) ->
        ClusterGroup_Spec_Selector cg <> None)
  /\ (forall cg selector err,
        In cg cgs ->
        ClusterGroup_Spec_Selector cg = Some selector ->
        LabelSelectorAsSelector pkg selector = Err err ->
        ~ In cg (fst (fst (ClusterGroupsForCluster cluster st)))
        /\ In (invalid_selector (ClusterGroup_Namespace cg)
                 (ClusterGroup_Name cg) selector err)
              (log (snd (ClusterGroupsForCluster cluster st)))
        /\ snd (fst (ClusterGroupsForCluster cluster st)) = None).
Proof.
  intros Hlist. rewrite (ClusterGroupsForCluster_ok cluster st cgs Hlist).
  cbn [fst snd log].
  split; [reflexivity|]. split; [|split].
  - intros cg. unfold selects. split.
    + destruct (ClusterGroup_Spec_Selector cg) as [selector|]; [|discriminate].
      destruct (LabelSelectorAsSelector pkg selector) as [sel|err] eqn:Hsel;
        [|discriminate].
      intros Hm. exists selector, sel. auto.
    + intros (selector & sel & -> & -> & Hm). exact Hm.
  - intros cg Hin. apply List.filter_In in Hin as [_ Hs]. unfold selects in Hs.
    destruct (ClusterGroup_Spec_Selector cg); [discriminate | discriminate].
  - intros cg selector err Hin Hs Herr. split; [|split].
    + intros Hf. apply List.filter_In in Hf as [_ Hf]. unfold selects in Hf.
      rewrite Hs, Herr in Hf. discriminate.
    + apply List.in_or_app. right. unfold selector_errors.
      apply List.in_flat_map. exists cg. split; [exact Hin|].
      unfold selector_error. rewrite Hs, Herr. left. reflexivity.
    + reflexivity.
Qed.

(** ** The target resolver *)

(** Some target definition of the bundle matches the cluster, given the
    cluster groups of the cluster. *)
Definition matched (bundle : bundle_Bundle) (cluster : fleet_Cluster) : bool :=
  match clusterGroups_List m (Cluster_Namespace cluster) Everything with
  | Err _ => false
  | Ok cgs =>
      match Match pkg bundle
              (ClusterGroupsToLabelMap (List.filter (selects cluster) cgs))
              (Cluster_Labels cluster) with
      | Some _ => true
      | None => false
      end
  end.

(** A step of the loop of [Targets] fails for [cluster] in state [st]:
    the listing of the cluster groups, the manifest of the match, the
    options, the deployment identity, or the content store. *)
Inductive step_fails (fleetBundle : fleet_Bundle) (bundle : bundle_Bundle)
  (cluster : fleet_Cluster) (st : State) (err : error) : Prop :=
| cluster_groups_fail :
    clusterGroups_List m (Cluster_Namespace cluster) Everything = Err err ->
    step_fails fleetBundle bundle cluster st err
| manifest_fails cgs st1 match_ :
    ClusterGroupsForCluster cluster st = ((cgs, None), st1) ->
    Match pkg bundle (ClusterGroupsToLabelMap cgs) (Cluster_Labels cluster)
    = Some match_ ->
    Match_Manifest pkg match_ = Err err ->
    step_fails fleetBundle bundle cluster st err
| options_fail cgs st1 match_ manifest :
    ClusterGroupsForCluster cluster st = ((cgs, None), st1) ->
    Match pkg bundle (ClusterGroupsToLabelMap cgs) (Cluster_Labels cluster)
    = Some match_ ->
    Match_Manifest pkg match_ = Ok manifest ->
    options_Calculate pkg (Bundle_Spec fleetBundle) (Match_Target pkg match_)
    = Err err ->
    step_fails fleetBundle bundle cluster st err
| identity_fails cgs st1 match_ manifest opts :
    ClusterGroupsForCluster cluster st = ((cgs, None), st1) ->
    Match pkg bundle (ClusterGroupsToLabelMap cgs) (Cluster_Labels cluster)
    = Some match_ ->
    Match_Manifest pkg match_ = Ok manifest ->
    options_Calculate pkg (Bundle_Spec fleetBundle) (Match_Target pkg match_)
    = Ok opts ->
    options_DeploymentID pkg manifest opts = Err err ->
    step_fails fleetBundle bundle cluster st err
| store_fails cgs st1 match_ manifest opts deploymentID c :
    ClusterGroupsForCluster cluster st = ((cgs, None), st1) ->
    Match pkg bundle (ClusterGroupsToLabelMap cgs) (Cluster_Labels cluster)
    = Some match_ ->
    Match_Manifest pkg match_ = Ok manifest ->
    options_Calculate pkg (Bundle_Spec fleetBundle) (Match_Target pkg match_)
    = Ok opts ->
    options_DeploymentID pkg manifest opts = Ok deploymentID ->
    contentStore_Store m manifest (content st1) = (Err err, c) ->
    step_fails fleetBundle bundle cluster st err.

Lemma Targets_loop_step_fails (fleetBundle : fleet_Bundle)
  (bundle : bundle_Bundle) (cluster : fleet_Cluster)
  (rest : list fleet_Cluster) (result : list Target) (st : State)
  (err : error) :
  step_fails fleetBundle bundle cluster st err ->
  exists st', Targets_loop fleetBundle bundle (cluster :: rest) result st
              = (Err err, st').
Proof.
  intros [H | cgs st1 mt Hg Hm H | cgs st1 mt mf Hg Hm Hmf H
          | cgs st1 mt mf opts Hg Hm Hmf Ho H
          | cgs st1 mt mf opts id c Hg Hm Hmf Ho Hid H];
    cbn [Targets_loop].
  - rewrite (ClusterGroupsForCluster_err _ _ _ H). eauto.
  - rewrite Hg, Hm, H. eauto.
  - rewrite Hg, Hm, Hmf, H. eauto.
  - rewrite Hg, Hm, Hmf, Ho, H. eauto.
  - rewrite Hg, Hm, Hmf, Ho, Hid, H. eauto.
Qed.

Lemma Targets_loop_app (fleetBundle : fleet_Bundle) (bundle : bundle_Bundle)
  (pre post : list fleet_Cluster) (result : list Target) (st : State) :
  Targets_loop fleetBundle bundle (pre ++ post) result st
  = match Targets_loop fleetBundle bundle pre result st with
    | (Ok r, st1) => Targets_loop fleetBundle bundle post r st1
    | (Err err, st1) => (Err err, st1)
    end.
Proof.
  revert result st. induction pre as [|c pre IH]; intros result st.
  - simpl. destruct (Targets_loop fleetBundle bundle post result st) as [[?|?] ?];
      reflexivity.
  - cbn [app Targets_loop].
    destruct (ClusterGroupsForCluster c st) as [[cgs [err|]] st1];
      [reflexivity|].
    destruct (Match pkg bundle _ _) as [mt|]; [|apply IH].
    destruct (Match_Manifest pkg mt) as [mf|]; [|reflexivity].
    destruct (options_Calculate pkg _ _) as [opts|]; [|reflexivity].
    destruct (options_DeploymentID pkg mf opts) as [id|]; [|reflexivity].
    destruct (contentStore_Store m mf (content st1)) as [[ref|] c'];
      [apply IH | reflexivity].
Qed.

Lemma Targets_loop_clusters (fleetBundle : fleet_Bundle)
  (bundle : bundle_Bundle) (clusters : list fleet_Cluster)
  (result result' : list Target) (st st' : State) :
  Targets_loop fleetBundle bundle clusters result st = (Ok result', st') ->
  map Cluster result'
  = map Cluster result ++ List.filter (matched bundle) clusters.
Proof.
  revert result st. induction clusters as [|c clusters IH]; intros result st H.
  - simpl in H. injection H as <- _. simpl. rewrite app_nil_r. reflexivity.
  - cbn [Targets_loop] in H. cbn [List.filter]. unfold matched at 1.
    destruct (clusterGroups_List m (Cluster_Namespace c) Everything)
      as [cgs|err] eqn:Hl.
    + rewrite (ClusterGroupsForCluster_ok c st cgs Hl) in H.
      destruct (Match pkg bundle _ _) as [mt|]; [|eapply IH; exact H].
      destruct (Match_Manifest pkg mt) as [mf|]; [|discriminate].
      destruct (options_Calculate pkg _ _) as [opts|]; [|discriminate].
      destruct (options_DeploymentID pkg mf opts) as [id|]; [|discriminate].
      destruct (contentStore_Store m mf _) as [[ref|] c']; [|discriminate].
      apply IH in H. rewrite H, map_app. simpl. rewrite <- app_assoc.
      reflexivity.
    + rewrite (ClusterGroupsForCluster_err c st err Hl) in H. discriminate.
Qed.

Lemma Targets_loop_bundle (fleetBundle : fleet_Bundle)
  (bundle : bundle_Bundle) (clusters : list fleet_Cluster)
  (result result' : list Target) (st st' : State) :
  Targets_loop fleetBundle bundle clusters result st = (Ok result', st') ->
  List.Forall (fun t => Bundle t = fleetBundle) result ->
  List.Forall (fun t => Bundle t = fleetBundle) result'.
Proof.
  revert result st. induction clusters as [|c clusters IH]; intros result st H HF.
  - simpl in H. injection H as <- _. exact HF.
  - cbn [Targets_loop] in H.
    destruct (ClusterGroupsForCluster c st) as [[cgs [err|]] st1];
      [discriminate|].
    destruct (Match pkg bundle _ _) as [mt|]; [|eapply IH; eassumption].
    destruct (Match_Manifest pkg mt) as [mf|]; [|discriminate].
    destruct (options_Calculate pkg _ _) as [opts|]; [|discriminate].
    destruct (options_DeploymentID pkg mf opts) as [id|]; [|discriminate].
    destruct (contentStore_Store m mf _) as [[ref|] c']; [|discriminate].
    eapply IH; [exact H|]. apply List.Forall_app. split; [exact HF|].
    constructor; [reflexivity | constructor].
Qed.

Lemma foldInDeployments_bundle (app : fleet_Bundle) (targets : list Target)
  (b : fleet_Bundle) :
  List.Forall (fun t => Bundle t = b) targets ->
  List.Forall (fun t => Bundle t = b) (fst (foldInDeployments app targets)).
Proof.
  intros HF. unfold foldInDeployments.
  destruct (bundleDeploymentCache_List m _ _); [|exact HF].
  cbn [fst]. apply List.Forall_map. exact HF.
Qed.

Lemma map_Cluster_set_Deployment (targets : list Target)
  (f : Target -> option fleet_BundleDeployment) :
  map Cluster (map (fun t => set_Deployment t (f t)) targets)
  = map Cluster targets.
Proof. rewrite map_map. reflexivity. Qed.

Lemma foldInDeployments_clusters (app : fleet_Bundle) (targets : list Target) :
  map Cluster (fst (foldInDeployments app targets)) = map Cluster targets.
Proof.
  unfold foldInDeployments.
  destruct (bundleDeploymentCache_List m _ _); [|reflexivity].
  apply map_Cluster_set_Deployment.
Qed.

(** *** The order of cluster names *)

Lemma ltb_negb_leb (a b : string) : String.ltb a b = negb (String.leb b a).
Proof.
  unfold String.ltb, String.leb. rewrite (String.compare_antisym a b).
  destruct (String.compare b a); reflexivity.
Qed.

Lemma leb_trans (a b c : string) :
  String.leb a b = true -> String.leb b c = true -> String.leb a c = true.
Proof.
  intros H1 H2. apply Is_true_true. apply Is_true_true in H1, H2.
  exact (transitivity (R := String.le) H1 H2).
Qed.

Definition less_by_name (ti tj : Target) : bool :=
  String.ltb (Cluster_Name (Cluster ti)) (Cluster_Name (Cluster tj)).

Lemma less_by_name_strict_weak_order : strict_weak_order less_by_name.
Proof.
  unfold less_by_name. repeat split.
  - intros a b. rewrite !ltb_negb_leb, negb_true_iff, negb_false_iff.
    intros H. destruct (String.leb_total (Cluster_Name (Cluster a))
                          (Cluster_Name (Cluster b))); congruence.
  - intros a b c. rewrite !ltb_negb_leb, !negb_true_iff.
    intros H1 H2.
    destruct (String.leb (Cluster_Name (Cluster c)) (Cluster_Name (Cluster a)))
      eqn:H3; [|reflexivity].
    assert (String.leb (Cluster_Name (Cluster b)) (Cluster_Name (Cluster c))
            = true) as H4.
    { destruct (String.leb_total (Cluster_Name (Cluster b))
                  (Cluster_Name (Cluster c))); congruence. }
    rewrite (leb_trans _ _ _ H4 H3) in H1. discriminate.
  - intros a b c. rewrite !ltb_negb_leb, !negb_false_iff.
    intros H1 H2. exact (leb_trans _ _ _ H2 H1).
Qed.

(** The targets are in ascending order of cluster name. *)
Definition sorted_by_cluster_name (targets : list Target) : Prop :=
  StronglySorted
    (fun ti tj =>
       String.leb (Cluster_Name (Cluster ti)) (Cluster_Name (Cluster tj)) = true)
    targets.

Lemma sort_Slice_by_name (targets : list Target) :
  sorted_by_cluster_name (sort_Slice less_by_name targets).
Proof.
  unfold sorted_by_cluster_name.
  pose proof (sort_Slice_Sorted _ less_by_name targets
                less_by_name_strict_weak_order) as Hs.
  apply Sorted_StronglySorted.
  - intros a b c. apply leb_trans.
  - eapply Sorted_fmap with (f := fun t => t) in Hs.
    + rewrite list_fmap_id in Hs. exact Hs.
    + intros x y. cbv beta. unfold less_by_name.
      rewrite ltb_negb_leb, negb_false_iff. auto.
Qed.

Lemma sorted_by_cluster_name_set_Deployment (targets : list Target)
  (f : Target -> option fleet_BundleDeployment) :
  sorted_by_cluster_name targets ->
  sorted_by_cluster_name (map (fun t => set_Deployment t (f t)) targets).
Proof.
  unfold sorted_by_cluster_name.
  apply (StronglySorted_fmap (fun t => set_Deployment t (f t))).
  intros x y H. exact H.
Qed.

Lemma Targets_unfold (fleetBundle : fleet_Bundle) (bundle : bundle_Bundle)
  (clusters : list fleet_Cluster) (st : State) :
  bundle_New pkg fleetBundle = Ok bundle ->
  clusters_List m (Bundle_Namespace fleetBundle) Everything = Ok clusters ->
  Targets fleetBundle st
  = match Targets_loop fleetBundle bundle clusters [] st with
    | (Err err, st1) => (([], Some err), st1)
    | (Ok result, st1) =>
        (foldInDeployments fleetBundle (sort_Slice less_by_name result), st1)
    end.
Proof. intros Hb Hc. unfold Targets. rewrite Hb, Hc. reflexivity. Qed.

(** *** When the loop succeeds and when it fails *)

(** The steps that Targets takes for a cluster once a target definition
    matches it all succeed: the manifest of the match, the merging of the
    options, the computation of the deployment identity and, whatever the
    content store holds, the storing of the manifest. *)
Definition resolves (fleetBundle : fleet_Bundle) (bundle : bundle_Bundle)
  (cluster : fleet_Cluster) : Prop :=
  forall cgs match_,
    clusterGroups_List m (Cluster_Namespace cluster) Everything = Ok cgs ->
    Match pkg bundle
      (ClusterGroupsToLabelMap (List.filter (selects cluster) cgs))
      (Cluster_Labels cluster) = Some match_ ->
    exists manifest opts deploymentID,
      Match_Manifest pkg match_ = Ok manifest
      /\ options_Calculate pkg (Bundle_Spec fleetBundle)
           (Match_Target pkg match_) = Ok opts
      /\ options_DeploymentID pkg manifest opts = Ok deploymentID
      /\ forall c, exists ref, fst (contentStore_Store m manifest c) = Ok ref.

(** The state after the cluster groups of a namespace were looked up. *)
Definition looked_up (cgs : list fleet_ClusterGroup) (st : State) : State :=
  {| content := content st; log := log st ++ selector_errors cgs |}.

Lemma Targets_loop_skip (fleetBundle : fleet_Bundle) (bundle : bundle_Bundle)
  (cluster : fleet_Cluster) (cgs : list fleet_ClusterGroup)
  (rest : list fleet_Cluster) (result : list Target) (st : State) :
  clusterGroups_List m (Cluster_Namespace cluster) Everything = Ok cgs ->
  matched bundle cluster = false ->
  Targets_loop fleetBundle bundle (cluster :: rest) result st
  = Targets_loop fleetBundle bundle rest result (looked_up cgs st).
Proof.
  intros Hl Hm. cbn [Targets_loop].
  rewrite (ClusterGroupsForCluster_ok cluster st cgs Hl).
  unfold matched in Hm. rewrite Hl in Hm.
  destruct (Match pkg bundle _ _); [discriminate|reflexivity].
Qed.

Lemma Targets_loop_ok (fleetBundle : fleet_Bundle) (bundle : bundle_Bundle)
  (clusters : list fleet_Cluster) :
  (forall cluster, In cluster clusters ->
     exists cgs,
       clusterGroups_List m (Cluster_Namespace cluster) Everything = Ok cgs) ->
  (forall cluster, In cluster clusters -> matched bundle cluster = true ->
     resolves fleetBundle bundle cluster) ->
  forall result st,
    exists result' st',
      Targets_loop fleetBundle bundle clusters result st = (Ok result', st').
Proof.
  induction clusters as [|c clusters IH]; intros Hlist Hres result st.
  - exists result, st. reflexivity.
  - assert (IH' : forall result st,
               exists result' st',
                 Targets_loop fleetBundle bundle clusters result st
                 = (Ok result', st')).
    { apply IH; intros x Hx; [apply Hlist | apply Hres]; right; exact Hx. }
    destruct (Hlist c (or_introl eq_refl)) as [cgs Hl].
    cbn [Targets_loop]. rewrite (ClusterGroupsForCluster_ok c st cgs Hl).
    destruct (Match pkg bundle _ _) as [mt|] eqn:Hm; [|apply IH'].
    assert (matched bundle c = true) as Hmatched.
    { unfold matched. rewrite Hl, Hm. reflexivity. }
    destruct (Hres c (or_introl eq_refl) Hmatched cgs mt Hl Hm)
      as (mf & opts & id & Hmf & Ho & Hid & Hs).
    rewrite Hmf, Ho, Hid. cbn [content log].
    destruct (Hs (content st)) as [ref Href].
    destruct (contentStore_Store m mf (content st)) as [r c'].
    cbn [fst] in Href. subst r. apply IH'.
Qed.

Lemma Targets_loop_err_inv (fleetBundle : fleet_Bundle)
  (bundle : bundle_Bundle) (clusters : list fleet_Cluster) (err : error) :
  forall result st st',
    Targets_loop fleetBundle bundle clusters result st = (Err err, st') ->
    exists pre cluster post r1 st1,
      clusters = pre ++ cluster :: post
      /\ Targets_loop fleetBundle bundle pre result st = (Ok r1, st1)
      /\ step_fails fleetBundle bundle cluster st1 err.
Proof.
  induction clusters as [|c clusters IH]; intros result st st' H;
    [discriminate|].
  assert (Hhere : step_fails fleetBundle bundle c st err ->
                  exists pre cluster post r1 st1,
                    c :: clusters = pre ++ cluster :: post
                    /\ Targets_loop fleetBundle bundle pre result st
                       = (Ok r1, st1)
                    /\ step_fails fleetBundle bundle cluster st1 err).
  { intros Hf. exists [], c, clusters, result, st.
    split; [reflexivity|]. split; [reflexivity|exact Hf]. }
  assert (Hlater : forall r2 st2,
            Targets_loop fleetBundle bundle [c] result st = (Ok r2, st2) ->
            Targets_loop fleetBundle bundle clusters r2 st2 = (Err err, st') ->
            exists pre cluster post r1 st1,
              c :: clusters = pre ++ cluster :: post
              /\ Targets_loop fleetBundle bundle pre result st = (Ok r1, st1)
              /\ step_fails fleetBundle bundle cluster st1 err).
  { intros r2 st2 Hc Hrest.
    destruct (IH _ _ _ Hrest) as (pre & x & post & r1 & st1 & -> & Hpre & Hf).
    exists (c :: pre), x, post, r1, st1. split; [reflexivity|].
    split; [|exact Hf].
    change (c :: pre) with ([c] ++ pre). rewrite Targets_loop_app, Hc.
    exact Hpre. }
  cbn [Targets_loop] in H, Hlater.
  destruct (ClusterGroupsForCluster c st) as [[cgs [e|]] st1] eqn:Hg.
  - injection H as -> _. apply Hhere. apply cluster_groups_fail.
    unfold ClusterGroupsForCluster in Hg.
    destruct (clusterGroups_List m _ _) as [l|e0].
    + destruct (ClusterGroupsForCluster_loop _ _ _ _). discriminate.
    + congruence.
  - destruct (Match pkg bundle _ _) as [mt|] eqn:Hm;
      [|exact (Hlater _ _ eq_refl H)].
    destruct (Match_Manifest pkg mt) as [mf|e] eqn:Hmf;
      [|injection H as -> _; apply Hhere;
        exact (manifest_fails _ _ _ _ _ _ _ _ Hg Hm Hmf)].
    destruct (options_Calculate pkg _ _) as [opts|e] eqn:Ho;
      [|injection H as -> _; apply Hhere;
        exact (options_fail _ _ _ _ _ _ _ _ _ Hg Hm Hmf Ho)].
    destruct (options_DeploymentID pkg mf opts) as [id|e] eqn:Hid;
      [|injection H as -> _; apply Hhere;
        exact (identity_fails _ _ _ _ _ _ _ _ _ _ Hg Hm Hmf Ho Hid)].
    destruct (contentStore_Store m mf (content st1)) as [[ref|e] c'] eqn:Hs.
    + exact (Hlater _ _ eq_refl H).
    + injection H as -> _. apply Hhere.
      exact (store_fails _ _ _ _ _ _ _ _ _ _ _ _ Hg Hm Hmf Ho Hid Hs).
Qed.

(** C8. The target list of a successful Targets(bundle) call is in
    ascending order of cluster name and holds one target for each cluster
    of the listing that some target definition of the bundle matches:
    its clusters are those clusters, in some order, so no cluster appears
    twice when the listing names each cluster once, and every target is
    a target of the bundle.  A cluster that no target definition matches
    is left out and is not an error: the loop passes over it, keeping the
    result, the content store and everything but the log lines of its
    cluster-group lookup; and the call succeeds whenever the cluster
    groups of every listed cluster and the bundle deployments can be
    listed and the steps of the matched clusters succeed, with no
    condition on the clusters that are not matched. *)
Theorem Targets_sorted_one_per_matched_cluster (fleetBundle : fleet_Bundle)
  (st : State) :
  (forall (st' : State) (result : list Target),
     Targets fleetBundle st = ((result, None), st') ->
     exists bundle clusters,
       bundle_New pkg fleetBundle = Ok bundle
       /\ clusters_List m (Bundle_Namespace fleetBundle) Everything
          = Ok clusters
       /\ Permutation (map Cluster result)
            (List.filter (matched bundle) clusters)
       /\ sorted_by_cluster_name result
       /\ (List.NoDup clusters -> List.NoDup (map Cluster result))
       /\ List.Forall (fun t => Bundle t = fleetBundle) result)
  /\ (forall bundle clusters bundleDeployments,
        bundle_New pkg fleetBundle = Ok bundle ->
        clusters_List m (Bundle_Namespace fleetBundle) Everything
        = Ok clusters ->
        (forall cluster, In cluster clusters ->
           exists cgs,
             clusterGroups_List m (Cluster_Namespace cluster) Everything
             = Ok cgs) ->
        (forall cluster, In cluster clusters ->
           matched bundle cluster = true ->
           resolves fleetBundle bundle cluster) ->
        bundleDeploymentCache_List m ""
          (SelectorFromSet (DeploymentLabels fleetBundle))
        = Ok bundleDeployments ->
        exists result st',
          Targets fleetBundle st = ((result, None), st')
          /\ Permutation (map Cluster result)
               (List.filter (matched bundle) clusters))
  /\ (forall bundle cluster cgs rest result,
        clusterGroups_List m (Cluster_Namespace cluster) Everything = Ok cgs ->
        matched bundle cluster = false ->
        Targets_loop fleetBundle bundle (cluster :: rest) result st
        = Targets_loop fleetBundle bundle rest result
            {| content := content st;
               log := log st ++ selector_errors cgs |}).
Proof.
  split; [|split].
  { intros st' result H.
    destruct (bundle_New pkg fleetBundle) as [bundle|e] eqn:Hb;
      [|unfold Targets in H; rewrite Hb in H; discriminate].
    destruct (clusters_List m (Bundle_Namespace fleetBundle) Everything)
      as [clusters|e] eqn:Hc;
      [|unfold Targets in H; rewrite Hb, Hc in H; discriminate].
    exists bundle, clusters. split; [reflexivity|]. split; [reflexivity|].
    rewrite (Targets_unfold _ _ _ _ Hb Hc) in H.
    destruct (Targets_loop fleetBundle bundle clusters [] st) as [[r|e] st1] eqn:Hl;
      [|discriminate].
    pose proof (Targets_loop_bundle _ _ _ _ _ _ _ Hl (List.Forall_nil _)) as HB.
    apply Targets_loop_clusters in Hl. simpl in Hl.
    assert (Hperm : Permutation (map Cluster result)
                      (List.filter (matched bundle) clusters)).
    { rewrite <- Hl. injection H as H _.
      pose proof (foldInDeployments_clusters fleetBundle
                    (sort_Slice less_by_name r)) as Hf.
      rewrite H in Hf. cbn [fst] in Hf. rewrite Hf.
      apply Permutation_map. apply sort_Slice_Permutation. }
    split; [exact Hperm|]. split; [|split].
    - injection H as H _. unfold foldInDeployments in H.
      destruct (bundleDeploymentCache_List m _ _); [|discriminate].
      injection H as <-. apply sorted_by_cluster_name_set_Deployment.
      apply sort_Slice_by_name.
    - intros Hnd. apply (Permutation_NoDup (Permutation_sym Hperm)).
      apply List.NoDup_filter. exact Hnd.
    - injection H as H _.
      pose proof (foldInDeployments_bundle fleetBundle
                    (sort_Slice less_by_name r) fleetBundle) as HF.
      rewrite H in HF. cbn [fst] in HF. apply HF.
      apply (Permutation_Forall (Permutation_sym (sort_Slice_Permutation _ _ r))).
      exact HB. }
  { intros bundle clusters bds Hb Hc Hlist Hres Hf.
    destruct (Targets_loop_ok fleetBundle bundle clusters Hlist Hres [] st)
      as (r & st1 & Hl).
    pose proof (Targets_loop_clusters _ _ _ _ _ _ _ Hl) as Hcl.
    simpl in Hcl.
    exists (fst (foldInDeployments fleetBundle (sort_Slice less_by_name r))),
      st1.
    split.
    - rewrite (Targets_unfold _ _ _ _ Hb Hc), Hl. unfold foldInDeployments.
      rewrite Hf. reflexivity.
    - rewrite foldInDeployments_clusters, <- Hcl.
      apply Permutation_map, sort_Slice_Permutation. }
  { intros bundle cluster cgs rest result Hl Hm.
    exact (Targets_loop_skip fleetBundle bundle cluster cgs rest result st
             Hl Hm). }
Qed.

(** C1, as amended. When the construction of the bundle, the listing of
    the clusters, or, for a cluster reached by the loop, the listing of
    its cluster groups, the manifest of its match, the merging of the
    options, the computation of the deployment identity or the storing
    of the content fails, Targets returns that error and a nil target
    list. When the listing of the bundle deployments fails during the
    fold-in, Targets returns that error. A cluster group whose selector
    cannot be evaluated does not make the call fail: the lookup of the
    cluster groups fails only when their listing does, and when the
    listing succeeds it returns, without an error, the groups whose
    selector is valid and matches, so a group with a selector that
    cannot be evaluated is left out; Targets succeeds whenever the
    bundle is accepted, the clusters, the cluster groups and the bundle
    deployments can be listed and the steps of every matched cluster
    succeed, whatever the selectors are; and every error of Targets is
    the error of one of the failures above. *)
Theorem Targets_failure (fleetBundle : fleet_Bundle) (st : State)
  (err : error) :
  (bundle_New pkg fleetBundle = Err err ->
   Targets fleetBundle st = (([], Some err), st))
  /\ (forall bundle,
        bundle_New pkg fleetBundle = Ok bundle ->
        clusters_List m (Bundle_Namespace fleetBundle) Everything = Err err ->
        Targets fleetBundle st = (([], Some err), st))
  /\ (forall bundle pre cluster post result st1,
        bundle_New pkg fleetBundle = Ok bundle ->
        clusters_List m (Bundle_Namespace fleetBundle) Everything
        = Ok (pre ++ cluster :: post) ->
        Targets_loop fleetBundle bundle pre [] st = (Ok result, st1) ->
        step_fails fleetBundle bundle cluster st1 err ->
        exists st', Targets fleetBundle st = (([], Some err), st'))
  /\ (forall bundle clusters result st1,
        bundle_New pkg fleetBundle = Ok bundle ->
        clusters_List m (Bundle_Namespace fleetBundle) Everything
        = Ok clusters ->
        Targets_loop fleetBundle bundle clusters [] st = (Ok result, st1) ->
        bundleDeploymentCache_List m ""
          (SelectorFromSet (DeploymentLabels fleetBundle)) = Err err ->
        snd (fst (Targets fleetBundle st)) = Some err)
  /\ (forall cluster st0,
        snd (fst (ClusterGroupsForCluster cluster st0)) = Some err ->
        clusterGroups_List m (Cluster_Namespace cluster) Everything = Err err)
  /\ (forall cluster st0 cgs,
        clusterGroups_List m (Cluster_Namespace cluster) Everything = Ok cgs ->
        ClusterGroupsForCluster cluster st0
        = ((List.filter (selects cluster) cgs, None),
           {| content := content st0;
              log := log st0 ++ selector_errors cgs |})
        /\ forall cg selector cause,
             ClusterGroup_Spec_Selector cg = Some selector ->
             LabelSelectorAsSelector pkg selector = Err cause ->
             selects cluster cg = false)
  /\ (forall bundle clusters bundleDeployments,
        bundle_New pkg fleetBundle = Ok bundle ->
        clusters_List m (Bundle_Namespace fleetBundle) Everything
        = Ok clusters ->
        (forall cluster, In cluster clusters ->
           exists cgs,
             clusterGroups_List m (Cluster_Namespace cluster) Everything
             = Ok cgs) ->
        (forall cluster, In cluster clusters ->
           matched bundle cluster = true ->
           resolves fleetBundle bundle cluster) ->
        bundleDeploymentCache_List m ""
          (SelectorFromSet (DeploymentLabels fleetBundle))
        = Ok bundleDeployments ->
        snd (fst (Targets fleetBundle st)) = None)
  /\ (snd (fst (Targets fleetBundle st)) = Some err ->
      bundle_New pkg fleetBundle = Err err
      \/ exists bundle,
           bundle_New pkg fleetBundle = Ok bundle
           /\ (clusters_List m (Bundle_Namespace fleetBundle) Everything
               = Err err
               \/ exists clusters,
                    clusters_List m (Bundle_Namespace fleetBundle) Everything
                    = Ok clusters
                    /\ ((exists pre cluster post result st1,
                           clusters = pre ++ cluster :: post
                           /\ Targets_loop fleetBundle bundle pre [] st
                              = (Ok result, st1)
                           /\ step_fails fleetBundle bundle cluster st1 err)
                        \/ (exists result st1,
                              Targets_loop fleetBundle bundle clusters [] st
                              = (Ok result, st1)
                              /\ bundleDeploymentCache_List m ""
                                   (SelectorFromSet
                                      (DeploymentLabels fleetBundle))
                                 = Err err)))).
Proof.
  split; [|split; [|split; [|split; [|split; [|split; [|split]]]]]].
  - intros Hb. unfold Targets. rewrite Hb. reflexivity.
  - intros bundle Hb Hc. unfold Targets. rewrite Hb, Hc. reflexivity.
  - intros bundle pre cluster post result st1 Hb Hc Hpre Hfail.
    rewrite (Targets_unfold _ _ _ _ Hb Hc), Targets_loop_app, Hpre.
    destruct (Targets_loop_step_fails _ _ _ post result _ _ Hfail) as [st' ->].
    exists st'. reflexivity.
  - intros bundle clusters result st1 Hb Hc Hl Hf.
    rewrite (Targets_unfold _ _ _ _ Hb Hc), Hl. unfold foldInDeployments.
    rewrite Hf. reflexivity.
  - intros cluster st0. unfold ClusterGroupsForCluster.
    destruct (clusterGroups_List m _ _) as [cgs|e].
    + destruct (ClusterGroupsForCluster_loop _ _ _ _). discriminate.
    + cbn [fst snd]. congruence.
  - intros cluster st0 cgs Hl. split.
    + exact (ClusterGroupsForCluster_ok cluster st0 cgs Hl).
    + intros cg selector cause Hs He. unfold selects. rewrite Hs, He.
      reflexivity.
  - intros bundle clusters bds Hb Hc Hlist Hres Hf.
    destruct (Targets_loop_ok fleetBundle bundle clusters Hlist Hres [] st)
      as (r & st1 & Hl).
    rewrite (Targets_unfold _ _ _ _ Hb Hc), Hl. unfold foldInDeployments.
    rewrite Hf. reflexivity.
  - intros H.
    destruct (bundle_New pkg fleetBundle) as [bundle|e] eqn:Hb.
    + right. exists bundle. split; [reflexivity|].
      destruct (clusters_List m (Bundle_Namespace fleetBundle) Everything)
        as [clusters|e] eqn:Hc.
      * right. exists clusters. split; [reflexivity|].
        rewrite (Targets_unfold _ _ _ _ Hb Hc) in H.
        destruct (Targets_loop fleetBundle bundle clusters [] st)
          as [[r|e] st1] eqn:Hl.
        -- right. exists r, st1. split; [reflexivity|].
           unfold foldInDeployments in H.
           destruct (bundleDeploymentCache_List m _ _) as [bds|e];
             [discriminate|].
           cbn [fst snd] in H. congruence.
        -- left. cbn [fst snd] in H. injection H as ->.
           destruct (Targets_loop_err_inv _ _ _ _ _ _ _ Hl)
             as (pre & c & post & r1 & st2 & Hsplit & Hpre & Hfail).
           exists pre, c, post, r1, st2. auto.
      * left. unfold Targets in H. rewrite Hb, Hc in H.
        cbn [fst snd] in H. congruence.
    + left. unfold Targets in H. rewrite Hb in H. cbn [fst snd] in H.
      congruence.
Qed.

(** * Further properties of package [target] *)

(** ** The maps built by loops: a later entry replaces an earlier one *)

(** The last element of [l] that satisfies [p]. *)
Definition find_last {A : Type} (p : A -> bool) (l : list A) : option A :=
  List.find p (List.rev l).

Lemma find_app {A : Type} (p : A -> bool) (l1 l2 : list A) :
  List.find p (l1 ++ l2)
  = match List.find p l1 with
    | Some x => Some x
    | None => List.find p l2
    end.
Proof.
  induction l1 as [|x l1 IH]; simpl; [reflexivity|].
  destruct (p x); [reflexivity | exact IH].
Qed.

Lemma find_last_cons {A : Type} (p : A -> bool) (x : A) (l : list A) :
  find_last p (x :: l)
  = match find_last p l with
    | Some y => Some y
    | None => if p x then Some x else None
    end.
Proof.
  unfold find_last. cbn [List.rev]. rewrite find_app. reflexivity.
Qed.

Lemma find_last_some {A : Type} (p : A -> bool) (l : list A) (x : A) :
  find_last p l = Some x -> In x l /\ p x = true.
Proof.
  unfold find_last. intros H. apply List.find_some in H as [Hin Hp].
  split; [apply List.in_rev; exact Hin | exact Hp].
Qed.

Lemma find_last_none {A : Type} (p : A -> bool) (l : list A) :
  find_last p l = None -> forall x, In x l -> p x = false.
Proof.
  unfold find_last. intros H x Hin.
  apply (List.find_none _ _ H). apply List.in_rev in Hin. exact Hin.
Qed.

Definition named (name : string) (cg : fleet_ClusterGroup) : bool :=
  String.eqb (ClusterGroup_Name cg) name.

Lemma ClusterGroupsToLabelMap_loop_lookup (cgs : list fleet_ClusterGroup)
  (acc : gmap string (gmap string string)) (name : string) :
  ClusterGroupsToLabelMap_loop cgs acc !! name
  = match find_last (named name) cgs with
    | Some cg => Some (ClusterGroup_Labels cg)
    | None => acc !! name
    end.
Proof.
  revert acc. induction cgs as [|cg cgs IH]; intros acc; [reflexivity|].
  cbn [ClusterGroupsToLabelMap_loop]. rewrite IH, find_last_cons.
  destruct (find_last (named name) cgs); [reflexivity|].
  rewrite lookup_insert. unfold named.
  destruct (String.eqb_spec (ClusterGroup_Name cg) name) as [Heq|Hne].
  - rewrite decide_True by exact Heq. reflexivity.
  - rewrite decide_False by exact Hne. reflexivity.
Qed.

(** X1. The label map of a list of cluster groups gives, for a name, the
    labels of the last group of the list with that name, and nothing for
    a name that no group of the list has: of two groups with one name
    the later one is the one the matcher sees. *)
Theorem ClusterGroupsToLabelMap_lookup (cgs : list fleet_ClusterGroup)
  (name : string) :
  ClusterGroupsToLabelMap cgs !! name
  = ClusterGroup_Labels <$> find_last (named name) cgs
  /\ (ClusterGroupsToLabelMap cgs !! name = None <->
      forall cg, In cg cgs -> ClusterGroup_Name cg <> name).
Proof.
  assert (ClusterGroupsToLabelMap cgs !! name
          = ClusterGroup_Labels <$> find_last (named name) cgs) as Hl.
  { unfold ClusterGroupsToLabelMap.
    rewrite ClusterGroupsToLabelMap_loop_lookup.
    destruct (find_last (named name) cgs); [reflexivity|].
    apply lookup_empty. }
  split; [exact Hl|]. rewrite Hl. split.
  - destruct (find_last (named name) cgs) as [cg'|] eqn:Hf; [discriminate|].
    intros _ cg Hin. pose proof (find_last_none _ _ Hf cg Hin) as Hp.
    unfold named in Hp. apply String.eqb_neq. exact Hp.
  - intros Hall.
    destruct (find_last (named name) cgs) as [cg'|] eqn:Hf; [|reflexivity].
    apply find_last_some in Hf as [Hin Hp]. unfold named in Hp.
    apply String.eqb_eq in Hp. destruct (Hall cg' Hin Hp).
Qed.

(** ** The fold-in of the recorded deployments *)

Definition in_namespace (namespace : string) (bd : fleet_BundleDeployment)
  : bool :=
  String.eqb (BundleDeployment_Namespace bd) namespace.

Lemma byNamespace_loop_lookup (bundleDeployments : list fleet_BundleDeployment)
  (acc : gmap string fleet_BundleDeployment) (namespace : string) :
  byNamespace_loop bundleDeployments acc !! namespace
  = match find_last (in_namespace namespace) bundleDeployments with
    | Some bd => Some bd
    | None => acc !! namespace
    end.
Proof.
  revert acc. induction bundleDeployments as [|bd bds IH]; intros acc;
    [reflexivity|].
  cbn [byNamespace_loop]. rewrite IH, find_last_cons.
  destruct (find_last (in_namespace namespace) bds); [reflexivity|].
  rewrite lookup_insert. unfold in_namespace, DeepCopy.
  destruct (String.eqb_spec (BundleDeployment_Namespace bd) namespace)
    as [Heq|Hne].
  - rewrite decide_True by exact Heq. reflexivity.
  - rewrite decide_False by exact Hne. reflexivity.
Qed.

(** X2. When the listing of the bundle deployments succeeds,
    foldInDeployments gives every target the last listed deployment
    whose namespace is the status namespace of the target's cluster, and
    no deployment when none is listed there; a deployment the target had
    before is replaced, every other field of the target and the number
    and order of the targets are kept. When the listing fails the
    targets are returned as they were, with the error. *)
Theorem foldInDeployments_join (app : fleet_Bundle) (targets : list Target) :
  (forall bundleDeployments,
     bundleDeploymentCache_List m "" (SelectorFromSet (DeploymentLabels app))
     = Ok bundleDeployments ->
     foldInDeployments app targets
     = (map (fun t =>
               set_Deployment t
                 (find_last
                    (in_namespace (Cluster_Status_Namespace (Cluster t)))
                    bundleDeployments))
            targets,
        None))
  /\ (forall err,
        bundleDeploymentCache_List m "" (SelectorFromSet (DeploymentLabels app))
        = Err err ->
        foldInDeployments app targets = (targets, Some err)).
Proof.
  unfold foldInDeployments. split.
  - intros bds ->. f_equal. apply List.map_ext. intros t.
    rewrite byNamespace_loop_lookup.
    destruct (find_last _ bds); [reflexivity|].
    rewrite lookup_empty. reflexivity.
  - intros err ->. reflexivity.
Qed.


(** ** Deployment labels and new deployments *)

Lemma DeploymentLabels_lookup (app : fleet_Bundle) :
  DeploymentLabels app !! "fleet.cattle.io/bundle-namespace"
  = Some (Bundle_Namespace app)
  /\ DeploymentLabels app !! "fleet.cattle.io/bundle-name"
     = Some (Bundle_Name app).
Proof.
  unfold DeploymentLabels. split.
  - apply lookup_insert_eq.
  - rewrite lookup_insert_ne by discriminate. apply lookup_insert_eq.
Qed.

(** X3. A bundle deployment whose labels include the deployment labels
    of a bundle, as every deployment that the fold-in selects does, is
    traced back by BundleFromDeployment to the namespace and the name of
    that bundle. *)
Theorem BundleFromDeployment_DeploymentLabels (app : fleet_Bundle)
  (bd : fleet_BundleDeployment) :
  DeploymentLabels app ⊆ BundleDeployment_Labels bd ->
  BundleFromDeployment bd = (Bundle_Namespace app, Bundle_Name app).
Proof.
  intros Hsub. destruct (DeploymentLabels_lookup app) as [Hns Hname].
  unfold BundleFromDeployment.
  rewrite (lookup_weaken _ _ _ _ Hns Hsub), (lookup_weaken _ _ _ _ Hname Hsub).
  reflexivity.
Qed.

(** X4. AssignNewDeployment gives the target a deployment named after the
    bundle, in the status namespace of the cluster and with the
    deployment labels of the bundle, so that the fold-in finds it there
    and BundleFromDeployment leads back to the bundle. With its empty
    identities and without readiness the new deployment is unavailable,
    and the target is up to date only if its own DeploymentID is empty.
    The other fields of the target are kept. *)
Theorem AssignNewDeployment_pending (t : Target) :
  exists d,
    Deployment (AssignNewDeployment t) = Some d
    /\ BundleDeployment_Name d = Bundle_Name (Bundle t)
    /\ find_last (in_namespace (Cluster_Status_Namespace (Cluster t))) [d]
       = Some d
    /\ BundleFromDeployment d
       = (Bundle_Namespace (Bundle t), Bundle_Name (Bundle t))
    /\ IsUnavailable (Some d) = true
    /\ (UpToDate (AssignNewDeployment t) = true <-> DeploymentID t = "")
    /\ set_Deployment (AssignNewDeployment t) (Deployment t) = t.
Proof.
  eexists. split; [reflexivity|]. split; [reflexivity|]. split.
  - unfold find_last, in_namespace. cbn [List.rev app List.find
      BundleDeployment_Namespace]. rewrite String.eqb_refl. reflexivity.
  - split.
    { unfold BundleFromDeployment. cbn [BundleDeployment_Labels].
      destruct (DeploymentLabels_lookup (Bundle t)) as [-> ->]. reflexivity. }
    split; [reflexivity|]. split.
    + unfold UpToDate, AssignNewDeployment, set_Deployment, string_neq.
      cbn [Deployment DeploymentID Spec_StagedDeploymentID Spec_DeploymentID
           Status_AppliedDeploymentID].
      destruct (String.eqb_spec "" (DeploymentID t)) as [Heq|Hne]; cbn.
      * split; [intros _; symmetry; exact Heq | reflexivity].
      * split; [discriminate | intros Heq; destruct Hne; symmetry; exact Heq].
    + destruct t; reflexivity.
Qed.

(** ** Staleness and availability *)

(** X5. An up to date target has a deployment whose applied identity is
    its spec identity, so it is unavailable, and counts against its
    partition, exactly when that deployment is not ready. *)
Theorem UpToDate_unavailable_iff_not_ready (t : Target) :
  UpToDate t = true ->
  exists d,
    Deployment t = Some d
    /\ Status_AppliedDeploymentID d = Spec_DeploymentID d
    /\ IsUnavailable (Deployment t) = negb (Status_Ready d)
    /\ (negb (UpToDate t) || IsUnavailable (Deployment t))
       = negb (Status_Ready d).
Proof.
  intros Hup. pose proof Hup as Hup'. unfold UpToDate in Hup.
  destruct (Deployment t) as [d|] eqn:Hd; [|discriminate].
  exists d. split; [reflexivity|].
  destruct (string_neq (Spec_StagedDeploymentID d) _) eqn:H1; [discriminate|].
  destruct (string_neq (Spec_DeploymentID d) _) eqn:H2; [discriminate|].
  destruct (string_neq (Status_AppliedDeploymentID d) _) eqn:H3;
    [discriminate|].
  apply string_neq_false in H2, H3.
  assert (Status_AppliedDeploymentID d = Spec_DeploymentID d) as Heq
    by congruence.
  split; [exact Heq|].
  assert (IsUnavailable (Some d) = negb (Status_Ready d)) as Hun.
  { cbn [IsUnavailable]. rewrite Heq.
    unfold string_neq. rewrite String.eqb_refl. reflexivity. }
  split; [exact Hun|]. rewrite Hup', Hun. reflexivity.
Qed.

Lemma set_Unavailable_idem (status : fleet_PartitionStatus) (a b : Z) :
  set_Unavailable (set_Unavailable status a) b = set_Unavailable status b.
Proof. reflexivity. Qed.

Lemma IsPartitionUnavailable_loop_fields (status : fleet_PartitionStatus)
  (targets : list Target) :
  IsPartitionUnavailable_loop status targets
  = set_Unavailable status
      (PartitionStatus_Unavailable
         (IsPartitionUnavailable_loop status targets)).
Proof.
  revert status. induction targets as [|t targets IH]; intros status.
  - destruct status; reflexivity.
  - cbn [IsPartitionUnavailable_loop].
    destruct (negb (UpToDate t) || IsUnavailable (Deployment t)); [|apply IH].
    rewrite IH at 1. rewrite set_Unavailable_idem. reflexivity.
Qed.

(** X6. IsPartitionUnavailable does not depend on the Unavailable count
    the status had, writes no other field of the status, and is
    idempotent: called again on the status it left, with the same
    targets, it returns the same answer and leaves the status as it is. *)
Theorem IsPartitionUnavailable_idempotent (status : fleet_PartitionStatus)
  (targets : list Target) :
  (forall n,
     IsPartitionUnavailable (set_Unavailable status n) targets
     = IsPartitionUnavailable status targets)
  /\ (let after := snd (IsPartitionUnavailable status targets) in
      PartitionStatus_Name after = PartitionStatus_Name status
      /\ PartitionStatus_Count after = PartitionStatus_Count status
      /\ PartitionStatus_MaxUnavailable after
         = PartitionStatus_MaxUnavailable status
      /\ IsPartitionUnavailable after targets
         = IsPartitionUnavailable status targets).
Proof.
  split; [reflexivity|].
  unfold IsPartitionUnavailable. cbn [snd].
  pose proof (IsPartitionUnavailable_loop_fields (set_Unavailable status 0)
                targets) as HL.
  rewrite set_Unavailable_idem in HL.
  set (L := IsPartitionUnavailable_loop (set_Unavailable status 0) targets)
    in *.
  assert (set_Unavailable L 0 = set_Unavailable status 0) as HL0
    by (rewrite HL; reflexivity).
  rewrite HL0. fold L.
  split; [rewrite HL; reflexivity|].
  split; [rewrite HL; reflexivity|].
  split; [rewrite HL; reflexivity|].
  reflexivity.
Qed.

(** X7. Unavailable(targets) and the count that IsPartitionUnavailable
    writes lie between 0 and the number of targets, so a partition whose
    MaxUnavailable is at least the number of its targets is never
    unavailable; and when every target is up to date with an available
    deployment the count written is 0. *)
Theorem unavailable_counts_bounded (status : fleet_PartitionStatus)
  (targets : list Target) :
  len targets <= MaxInt ->
  let after := snd (IsPartitionUnavailable status targets) in
  0 <= Unavailable targets <= len targets
  /\ 0 <= PartitionStatus_Unavailable after <= len targets
  /\ (len targets <= PartitionStatus_MaxUnavailable status ->
      fst (IsPartitionUnavailable status targets) = false)
  /\ (List.Forall
        (fun t => UpToDate t = true /\ IsUnavailable (Deployment t) = false)
        targets ->
      PartitionStatus_Unavailable after = 0).
Proof.
  intros Hlen after. unfold after, IsPartitionUnavailable, Unavailable.
  cbn [fst snd].
  rewrite IsPartitionUnavailable_loop_count by (simpl; lia).
  rewrite Unavailable_loop_count by lia.
  cbn [set_Unavailable PartitionStatus_Unavailable
       PartitionStatus_MaxUnavailable].
  rewrite !Z.add_0_l.
  pose proof (len_filter_le counts_unavailable targets) as H1.
  pose proof (len_filter_le counts_against_partition targets) as H2.
  pose proof (len_nonneg (List.filter counts_unavailable targets)) as H3.
  pose proof (len_nonneg (List.filter counts_against_partition targets)) as H4.
  split; [lia|]. split; [lia|]. split.
  - intros Hmax. apply Z.ltb_ge. lia.
  - intros Hall.
    assert (List.filter counts_against_partition targets = []) as ->;
      [|reflexivity].
    clear - Hall.
    induction Hall as [|t l [Hu Ha] _ IH]; [reflexivity|].
    cbn [List.filter]. unfold counts_against_partition at 1.
    rewrite Hu, Ha. exact IH.
Qed.

Lemma len_app {A : Type} (l1 l2 : list A) : len (l1 ++ l2) = len l1 + len l2.
Proof. unfold len. rewrite length_app. lia. Qed.

(** X8. Both counts add up over a concatenation: Unavailable of two
    target lists put together is the sum of their Unavailable counts,
    and so is the count that IsPartitionUnavailable writes. *)
Theorem unavailable_counts_app (status : fleet_PartitionStatus)
  (l1 l2 : list Target) :
  len (l1 ++ l2) <= MaxInt ->
  Unavailable (l1 ++ l2) = Unavailable l1 + Unavailable l2
  /\ PartitionStatus_Unavailable
       (snd (IsPartitionUnavailable status (l1 ++ l2)))
     = PartitionStatus_Unavailable (snd (IsPartitionUnavailable status l1))
       + PartitionStatus_Unavailable (snd (IsPartitionUnavailable status l2)).
Proof.
  intros Hlen. rewrite len_app in Hlen.
  pose proof (len_nonneg l1). pose proof (len_nonneg l2).
  unfold Unavailable, IsPartitionUnavailable. cbn [snd].
  rewrite !Unavailable_loop_count by (rewrite ?len_app; lia).
  rewrite !IsPartitionUnavailable_loop_count by (simpl; rewrite ?len_app; lia).
  cbn [set_Unavailable PartitionStatus_Unavailable].
  rewrite !List.filter_app, !len_app. lia.
Qed.


(** ** The budgets of a rollout *)

(** X9. Every error of Limit is an InvalidBudget error that comes with
    the value 0, for a count other than 0 and a selected budget of
    string type whose integer value is not positive: either the string
    does not end in a percent sign, or the numeral before the percent
    sign is what the float parser rejected. An integer budget never
    fails. *)
Theorem Limit_error_inv (count : Z) (val : list (option IntOrString))
  (v : Z) (err : error) :
  Limit ParseFloat int_unrepresentable count val = (v, Some err) ->
  let b := selected_budget val in
  v = 0 /\ count <> 0 /\ Type_ b = String_ /\ IntValue b <= 0
  /\ InvalidBudget err
  /\ (HasSuffix (StrVal b) "%" = false /\ err = not_a_percentage b
      \/ HasSuffix (StrVal b) "%" = true
         /\ exists percent cause,
              ParseFloat (TrimSuffix (StrVal b) "%") = (percent, Some cause)
              /\ err = parse_failure cause b).
Proof.
  intros HL b. unfold b. clear b.
  destruct (Z.eq_dec count 0) as [->|Hnz]; [discriminate|].
  rewrite (Limit_nonzero count val Hnz) in HL. cbv zeta in HL.
  destruct (Type_ (selected_budget val)) eqn:Ht; [discriminate|].
  destruct (0 <? IntValue (selected_budget val)) eqn:Hi; [discriminate|].
  apply Z.ltb_ge in Hi.
  destruct (HasSuffix (StrVal (selected_budget val)) "%") eqn:Hs; cbn [negb] in HL.
  - destruct (ParseFloat _) as [percent [cause|]] eqn:Hpf.
    + injection HL as <- <-.
      split; [reflexivity|]. split; [assumption|]. split; [reflexivity|].
      split; [assumption|]. split; [constructor|].
      right. split; [reflexivity|]. exists percent, cause. split; reflexivity.
    + destruct (float64_le_zero percent); [discriminate|].
      match type of HL with
      | context [?i <=? 0] => destruct (i <=? 0)
      end; discriminate.
  - injection HL as <- <-.
    split; [reflexivity|]. split; [assumption|]. split; [reflexivity|].
    split; [assumption|]. split; [constructor|].
    left. split; reflexivity.
Qed.

(** X10. When no budget is given, Limit never fails and allows at least
    one slot, for every count, as long as the float parser reads "10" as
    ten; so MaxUnavailable of targets whose bundle sets no maxUnavailable
    never fails. For no targets, and for no partitions, the budget is 1
    whatever the strategy says. *)
Theorem Limit_default_never_fails :
  ParseFloat "10" = (float64_of_int 10, None) ->
  (forall count val,
     first_non_nil val = None ->
     exists v, Limit ParseFloat int_unrepresentable count val = (v, None)
               /\ 1 <= v)
  /\ (forall targets : list Target,
        RolloutStrategy_MaxUnavailable (getRollout targets) = None ->
        exists v, MaxUnavailable targets = (v, None) /\ 1 <= v)
  /\ MaxUnavailable [] = (1, None)
  /\ (forall targets : list Target,
        MaxUnavailablePartitions (@nil Partition) targets = (1, None)).
Proof.
  intros Hpf.
  assert (forall count val,
            first_non_nil val = None ->
            exists v, Limit ParseFloat int_unrepresentable count val
                      = (v, None) /\ 1 <= v) as Hdef.
  { intros count val Hnil.
    destruct (Z.eq_dec count 0) as [->|Hnz];
      [exists 1; split; [reflexivity | lia]|].
    rewrite Limit_nonzero by assumption. cbv zeta.
    assert (selected_budget val = defLimit) as ->
      by (unfold selected_budget; rewrite Hnil; reflexivity).
    change (Type_ defLimit) with String_. cbv iota.
    change (IntValue defLimit) with 0.
    change (0 <? 0) with false. cbv iota.
    change (HasSuffix (StrVal defLimit) "%") with true.
    change (TrimSuffix (StrVal defLimit) "%") with "10".
    cbn [negb]. rewrite Hpf.
    change (float64_le_zero (float64_of_int 10)) with false. cbv iota zeta.
    match goal with
    | |- context [?i <=? 0] => destruct (Z.leb_spec i 0)
    end; eexists; (split; [reflexivity | lia]). }
  split; [exact Hdef|]. split; [|split; reflexivity].
  intros targets Hr. unfold MaxUnavailable. rewrite Hr.
  apply Hdef. reflexivity.
Qed.


(** ** What Targets computes for each cluster, and what it leaves behind *)

(** The target [t] is what the loop of [Targets] builds for its cluster:
    the cluster groups that select the cluster, the target definition
    that matches, the options merged for it and the deployment identity
    of its manifest and options. *)
Definition resolved_for (fleetBundle : fleet_Bundle) (bundle : bundle_Bundle)
  (t : Target) : Prop :=
  exists cgs match_ manifest,
    clusterGroups_List m (Cluster_Namespace (Cluster t)) Everything = Ok cgs
    /\ ClusterGroups t = List.filter (selects (Cluster t)) cgs
    /\ Match pkg bundle (ClusterGroupsToLabelMap (ClusterGroups t))
         (Cluster_Labels (Cluster t)) = Some match_
    /\ Target_BundleTarget t = Match_Target pkg match_
    /\ Match_Manifest pkg match_ = Ok manifest
    /\ options_Calculate pkg (Bundle_Spec fleetBundle)
         (Match_Target pkg match_) = Ok (Options t)
    /\ options_DeploymentID pkg manifest (Options t) = Ok (DeploymentID t).

Lemma Targets_loop_resolved (fleetBundle : fleet_Bundle)
  (bundle : bundle_Bundle) (clusters : list fleet_Cluster)
  (result result' : list Target) (st st' : State) :
  Targets_loop fleetBundle bundle clusters result st = (Ok result', st') ->
  List.Forall (resolved_for fleetBundle bundle) result ->
  List.Forall (resolved_for fleetBundle bundle) result'.
Proof.
  revert result st. induction clusters as [|c clusters IH]; intros result st H HF.
  - simpl in H. injection H as <- _. exact HF.
  - cbn [Targets_loop] in H.
    destruct (clusterGroups_List m (Cluster_Namespace c) Everything)
      as [cgs|err] eqn:Hl.
    + rewrite (ClusterGroupsForCluster_ok c st cgs Hl) in H.
      destruct (Match pkg bundle _ _) as [mt|] eqn:Hm;
        [|eapply IH; eassumption].
      destruct (Match_Manifest pkg mt) as [mf|] eqn:Hmf; [|discriminate].
      destruct (options_Calculate pkg _ _) as [opts|] eqn:Ho; [|discriminate].
      destruct (options_DeploymentID pkg mf opts) as [id|] eqn:Hid;
        [|discriminate].
      destruct (contentStore_Store m mf _) as [[ref|] c']; [|discriminate].
      eapply IH; [exact H|]. apply List.Forall_app. split; [exact HF|].
      constructor; [|constructor].
      exists cgs, mt, mf. cbn [Cluster ClusterGroups Target_BundleTarget
                               Options DeploymentID].
      repeat split; assumption || reflexivity.
    + rewrite (ClusterGroupsForCluster_err c st err Hl) in H. discriminate.
Qed.

(** X11. Every target of a successful Targets(bundle) call carries the
    cluster groups whose selector selects its cluster, the target
    definition that the bundle matches for the cluster and these groups,
    the options merged from the bundle and that definition, the
    deployment identity computed from the manifest of the match and
    these options, and as its deployment the last listed bundle
    deployment of the status namespace of its cluster, if there is one. *)
Theorem Targets_resolved (fleetBundle : fleet_Bundle) (st st' : State)
  (result : list Target) :
  Targets fleetBundle st = ((result, None), st') ->
  exists bundle bundleDeployments,
    bundle_New pkg fleetBundle = Ok bundle
    /\ bundleDeploymentCache_List m ""
         (SelectorFromSet (DeploymentLabels fleetBundle))
       = Ok bundleDeployments
    /\ List.Forall
         (fun t =>
            resolved_for fleetBundle bundle t
            /\ Deployment t
               = find_last
                   (in_namespace (Cluster_Status_Namespace (Cluster t)))
                   bundleDeployments)
         result.
Proof.
  intros H.
  destruct (bundle_New pkg fleetBundle) as [bundle|e] eqn:Hb;
    [|unfold Targets in H; rewrite Hb in H; discriminate].
  destruct (clusters_List m (Bundle_Namespace fleetBundle) Everything)
    as [clusters|e] eqn:Hc;
    [|unfold Targets in H; rewrite Hb, Hc in H; discriminate].
  rewrite (Targets_unfold _ _ _ _ Hb Hc) in H.
  destruct (Targets_loop fleetBundle bundle clusters [] st) as [[r|e] st1] eqn:Hl;
    [|discriminate].
  pose proof (Targets_loop_resolved _ _ _ _ _ _ _ Hl (List.Forall_nil _)) as HR.
  injection H as H _. unfold foldInDeployments in H.
  destruct (bundleDeploymentCache_List m _ _) as [bds|e] eqn:Hd;
    [|discriminate].
  injection H as <-. exists bundle, bds.
  split; [reflexivity|]. split; [reflexivity|].
  apply List.Forall_map.
  apply (Permutation_Forall
           (Permutation_sym (sort_Slice_Permutation _ less_by_name r))) in HR.
  eapply List.Forall_impl; [|exact HR].
  intros t Ht. split; [exact Ht|].
  cbn [set_Deployment Deployment Cluster]. rewrite byNamespace_loop_lookup.
  destruct (find_last _ bds); [reflexivity | apply lookup_empty].
Qed.

(** The manifests that the loop of [Targets] stores for a cluster: that
    of its match, if it has one. *)
Definition manifests_of (bundle : bundle_Bundle) (cluster : fleet_Cluster)
  : list Manifest :=
  match clusterGroups_List m (Cluster_Namespace cluster) Everything with
  | Err _ => []
  | Ok cgs =>
      match Match pkg bundle
              (ClusterGroupsToLabelMap (List.filter (selects cluster) cgs))
              (Cluster_Labels cluster) with
      | None => []
      | Some match_ =>
          match Match_Manifest pkg match_ with
          | Ok manifest => [manifest]
          | Err _ => []
          end
      end
  end.

(** The lines that the lookup of the cluster groups of a cluster logs. *)
Definition cluster_log (cluster : fleet_Cluster) : list LogEntry :=
  match clusterGroups_List m (Cluster_Namespace cluster) Everything with
  | Err _ => []
  | Ok cgs => selector_errors cgs
  end.

(** The content store after the manifests are stored one after another. *)
Definition store_all (manifests : list Manifest) (c : StoreState)
  : StoreState :=
  fold_left (fun c manifest => snd (contentStore_Store m manifest c))
    manifests c.

Lemma Targets_loop_effects (fleetBundle : fleet_Bundle)
  (bundle : bundle_Bundle) (clusters : list fleet_Cluster)
  (result result' : list Target) (st st' : State) :
  Targets_loop fleetBundle bundle clusters result st = (Ok result', st') ->
  log st' = log st ++ flat_map cluster_log clusters
  /\ content st'
     = store_all (flat_map (manifests_of bundle) clusters) (content st).
Proof.
  revert result st. induction clusters as [|c clusters IH]; intros result st H.
  - simpl in H. injection H as _ <-. simpl. rewrite app_nil_r. auto.
  - cbn [Targets_loop] in H. cbn [flat_map].
    unfold cluster_log at 1, manifests_of at 1.
    destruct (clusterGroups_List m (Cluster_Namespace c) Everything)
      as [cgs|err] eqn:Hl.
    + rewrite (ClusterGroupsForCluster_ok c st cgs Hl) in H.
      destruct (Match pkg bundle _ _) as [mt|] eqn:Hm.
      * destruct (Match_Manifest pkg mt) as [mf|] eqn:Hmf; [|discriminate].
        destruct (options_Calculate pkg _ _) as [opts|]; [|discriminate].
        destruct (options_DeploymentID pkg mf opts) as [id|]; [|discriminate].
        cbn [content log] in H.
        destruct (contentStore_Store m mf (content st)) as [[ref|] c'] eqn:Hs;
          [|discriminate].
        apply IH in H as [Hlog Hcontent]. cbn [content log] in Hlog, Hcontent.
        split.
        -- rewrite Hlog, <- app_assoc. reflexivity.
        -- rewrite Hcontent. unfold store_all. cbn [app fold_left].
           rewrite Hs. reflexivity.
      * apply IH in H as [Hlog Hcontent]. cbn [content log] in Hlog, Hcontent.
        split; [rewrite Hlog, <- app_assoc; reflexivity | exact Hcontent].
    + rewrite (ClusterGroupsForCluster_err c st err Hl) in H. discriminate.
Qed.

(** X12. A successful Targets(bundle) call stores one manifest for each
    listed cluster that the bundle matches, in the order of the listing
    and not of the sorted result, and stores nothing else; and it logs,
    for each listed cluster, one line for every cluster group of its
    namespace whose selector is not valid, after what was logged before. *)
Theorem Targets_effects (fleetBundle : fleet_Bundle) (st st' : State)
  (result : list Target) :
  Targets fleetBundle st = ((result, None), st') ->
  exists bundle clusters,
    bundle_New pkg fleetBundle = Ok bundle
    /\ clusters_List m (Bundle_Namespace fleetBundle) Everything = Ok clusters
    /\ log st' = log st ++ flat_map cluster_log clusters
    /\ content st'
       = store_all (flat_map (manifests_of bundle) clusters) (content st)
    /\ length (flat_map (manifests_of bundle) clusters) = length result.
Proof.
  intros H.
  destruct (bundle_New pkg fleetBundle) as [bundle|e] eqn:Hb;
    [|unfold Targets in H; rewrite Hb in H; discriminate].
  destruct (clusters_List m (Bundle_Namespace fleetBundle) Everything)
    as [clusters|e] eqn:Hc;
    [|unfold Targets in H; rewrite Hb, Hc in H; discriminate].
  exists bundle, clusters. split; [reflexivity|]. split; [reflexivity|].
  rewrite (Targets_unfold _ _ _ _ Hb Hc) in H.
  destruct (Targets_loop fleetBundle bundle clusters [] st) as [[r|e] st1] eqn:Hl;
    [|discriminate].
  injection H as H <-.
  destruct (Targets_loop_effects _ _ _ _ _ _ _ Hl) as [Hlog Hcontent].
  split; [exact Hlog|]. split; [exact Hcontent|].
  assert (length result = length r) as ->.
  { pose proof (foldInDeployments_clusters fleetBundle
                  (sort_Slice less_by_name r)) as Hf.
    rewrite H in Hf. cbn [fst] in Hf.
    apply (f_equal (@length _)) in Hf. rewrite !length_map in Hf.
    rewrite Hf. apply Permutation_length. apply sort_Slice_Permutation. }
  clear H Hlog Hcontent.
  assert (forall res res' s s',
            Targets_loop fleetBundle bundle clusters res s = (Ok res', s') ->
            (length (flat_map (manifests_of bundle) clusters)
             + length res = length res')%nat) as Hlen.
  { clear. induction clusters as [|c clusters IH]; intros res res' s s' H.
    - simpl in H. injection H as <- _. reflexivity.
    - cbn [Targets_loop] in H. cbn [flat_map]. unfold manifests_of at 1.
      destruct (clusterGroups_List m (Cluster_Namespace c) Everything)
        as [cgs|err] eqn:Hl.
      + rewrite (ClusterGroupsForCluster_ok c s cgs Hl) in H.
        destruct (Match pkg bundle _ _) as [mt|] eqn:Hm;
          [|eapply IH; exact H].
        destruct (Match_Manifest pkg mt) as [mf|] eqn:Hmf; [|discriminate].
        destruct (options_Calculate pkg _ _) as [opts|]; [|discriminate].
        destruct (options_DeploymentID pkg mf opts) as [id|]; [|discriminate].
        destruct (contentStore_Store m mf _) as [[ref|] c']; [|discriminate].
        apply IH in H. rewrite length_app in H. simpl in *. lia.
      + rewrite (ClusterGroupsForCluster_err c s err Hl) in H. discriminate. }
  specialize (Hlen _ _ _ _ Hl). simpl in Hlen. lia.
Qed.

(** X13. With no cluster in the namespace of the bundle, Targets returns
    no target and leaves the content store and the log as they are,
    whatever the listing of the cluster groups would return; its error
    is that of the listing of the bundle deployments, if that fails; and
    MaxUnavailable of its result is 1. *)
Theorem Targets_no_clusters (fleetBundle : fleet_Bundle)
  (bundle : bundle_Bundle) (st : State) :
  bundle_New pkg fleetBundle = Ok bundle ->
  clusters_List m (Bundle_Namespace fleetBundle) Everything = Ok [] ->
  fst (fst (Targets fleetBundle st)) = []
  /\ snd (Targets fleetBundle st) = st
  /\ snd (fst (Targets fleetBundle st))
     = match bundleDeploymentCache_List m ""
               (SelectorFromSet (DeploymentLabels fleetBundle)) with
       | Ok _ => None
       | Err err => Some err
       end
  /\ MaxUnavailable (fst (fst (Targets fleetBundle st))) = (1, None).
Proof.
  intros Hb Hc. rewrite (Targets_unfold _ _ _ _ Hb Hc). cbn [Targets_loop].
  assert (sort_Slice less_by_name (@nil Target) = []) as ->
    by (apply Permutation_nil, Permutation_sym, sort_Slice_Permutation).
  unfold foldInDeployments.
  destruct (bundleDeploymentCache_List m _ _); repeat split.
Qed.


(** ** The bundles of a cluster *)

(** A line of the log of [BundlesForCluster]: its own line for a bundle
    that [bundle.New] rejects, or a line that the lookup of the cluster
    groups wrote. *)
Inductive BundleLogEntry : Type :=
| ignore_bad_app (namespace name : string) (err : error)
| cluster_groups_line (entry : LogEntry).

(** The loop of [BundlesForCluster], with the slice [result] built so far
    and the log; [store] is the content store, which is only handed to
    the lookup of the cluster groups. *)
Fixpoint BundlesForCluster_loop (cluster : fleet_Cluster)
  (bundles result : list fleet_Bundle) (store : StoreState)
  (lg : list BundleLogEntry)
  : Result (list fleet_Bundle) * list BundleLogEntry :=
  match bundles with
  | [] => (Ok result, lg)
  | app :: rest =>
      match bundle_New pkg app with
      | Err err =>
          BundlesForCluster_loop cluster rest result store
            (lg ++ [ignore_bad_app (Bundle_Namespace app) (Bundle_Name app) err])
      | Ok bundle =>
          match ClusterGroupsForCluster cluster
                  {| content := store; log := [] |} with
          | ((_, Some err), st) =>
              (Err err, lg ++ map cluster_groups_line (log st))
          | ((cgs, None), st) =>
              match Match pkg bundle (ClusterGroupsToLabelMap cgs)
                      (Cluster_Labels cluster) with
              | Some _ =>
                  BundlesForCluster_loop cluster rest (result ++ [app]) store
                    (lg ++ map cluster_groups_line (log st))
              | None =>
                  BundlesForCluster_loop cluster rest result store
                    (lg ++ map cluster_groups_line (log st))
              end
          end
      end
  end.

Definition BundlesForCluster (cluster : fleet_Cluster) (store : StoreState)
  (lg : list BundleLogEntry)
  : (list fleet_Bundle * option error) * list BundleLogEntry :=
  match bundleCache_List m (Cluster_Namespace cluster) Everything with
  | Err err => (([], Some err), lg)
  | Ok bundles =>
      match BundlesForCluster_loop cluster bundles [] store lg with
      | (Err err, lg) => (([], Some err), lg)
      | (Ok result, lg) => ((result, None), lg)
      end
  end.

(** [bundle.New] accepts the bundle, and one of its target definitions
    matches the cluster. *)
Definition targets_cluster (cluster : fleet_Cluster) (app : fleet_Bundle)
  : bool :=
  match bundle_New pkg app with
  | Err _ => false
  | Ok bundle => matched bundle cluster
  end.

(** [bundle.New] accepts the bundle. *)
Definition well_formed (app : fleet_Bundle) : bool :=
  match bundle_New pkg app with
  | Err _ => false
  | Ok _ => true
  end.

(** What [BundlesForCluster] logs for a bundle, when the cluster groups
    can be listed. *)
Definition bundle_log (cluster : fleet_Cluster) (app : fleet_Bundle)
  : list BundleLogEntry :=
  match bundle_New pkg app with
  | Err err => [ignore_bad_app (Bundle_Namespace app) (Bundle_Name app) err]
  | Ok _ => map cluster_groups_line (cluster_log cluster)
  end.

Lemma BundlesForCluster_loop_ok (cluster : fleet_Cluster)
  (cgs : list fleet_ClusterGroup) (bundles result : list fleet_Bundle)
  (store : StoreState) (lg : list BundleLogEntry) :
  clusterGroups_List m (Cluster_Namespace cluster) Everything = Ok cgs ->
  BundlesForCluster_loop cluster bundles result store lg
  = (Ok (result ++ List.filter (targets_cluster cluster) bundles),
     lg ++ flat_map (bundle_log cluster) bundles).
Proof.
  intros Hl. revert result lg.
  induction bundles as [|app bundles IH]; intros result lg.
  - simpl. rewrite !app_nil_r. reflexivity.
  - cbn [BundlesForCluster_loop List.filter flat_map].
    unfold targets_cluster at 1, bundle_log at 1, matched, cluster_log.
    destruct (bundle_New pkg app) as [bundle|err].
    + rewrite (ClusterGroupsForCluster_ok cluster _ cgs Hl), Hl.
      cbn [log]. rewrite app_nil_l.
      destruct (Match pkg bundle _ _); rewrite IH, <- !app_assoc; reflexivity.
    + rewrite IH, <- app_assoc. reflexivity.
Qed.

Lemma BundlesForCluster_loop_none_well_formed (cluster : fleet_Cluster)
  (bundles result : list fleet_Bundle) (store : StoreState)
  (lg : list BundleLogEntry) :
  List.Forall (fun app => well_formed app = false) bundles ->
  BundlesForCluster_loop cluster bundles result store lg
  = (Ok result, lg ++ flat_map (bundle_log cluster) bundles).
Proof.
  intros HF. revert lg. induction HF as [|app bundles Hw _ IH]; intros lg.
  - simpl. rewrite app_nil_r. reflexivity.
  - cbn [BundlesForCluster_loop flat_map]. unfold bundle_log at 1.
    unfold well_formed in Hw.
    destruct (bundle_New pkg app) as [bundle|err]; [discriminate|].
    rewrite IH, <- app_assoc. reflexivity.
Qed.

Lemma BundlesForCluster_loop_err (cluster : fleet_Cluster)
  (bundles result : list fleet_Bundle) (store : StoreState)
  (lg lg' : list BundleLogEntry) (err : error) :
  BundlesForCluster_loop cluster bundles result store lg = (Err err, lg') ->
  clusterGroups_List m (Cluster_Namespace cluster) Everything = Err err
  /\ List.Exists (fun app => well_formed app = true) bundles.
Proof.
  revert result lg. induction bundles as [|app bundles IH]; intros result lg H.
  - discriminate.
  - cbn [BundlesForCluster_loop] in H.
    destruct (bundle_New pkg app) as [bundle|e] eqn:Hb.
    + destruct (clusterGroups_List m (Cluster_Namespace cluster) Everything)
        as [cgs|e] eqn:Hl.
      * rewrite (ClusterGroupsForCluster_ok cluster _ cgs Hl) in H.
        destruct (Match pkg bundle _ _); apply IH in H as [H _]; discriminate.
      * rewrite (ClusterGroupsForCluster_err cluster _ e Hl) in H.
        injection H as <- _. split; [reflexivity|].
        apply List.Exists_cons_hd. unfold well_formed. rewrite Hb. reflexivity.
    + apply IH in H as [H1 H2]. split; [exact H1|].
      apply List.Exists_cons_tl. exact H2.
Qed.

(** X14. When the bundles of the namespace of a cluster and its cluster
    groups can be listed, BundlesForCluster returns, in the order of the
    listing, exactly the bundles that bundle.New accepts and of which a
    target definition matches the cluster. A bundle that bundle.New
    rejects is logged and left out without failing the call; for every
    other bundle the cluster groups are looked up again, which logs
    their invalid selectors once more. *)
Theorem BundlesForCluster_spec (cluster : fleet_Cluster)
  (bundles : list fleet_Bundle) (cgs : list fleet_ClusterGroup)
  (store : StoreState) (lg : list BundleLogEntry) :
  bundleCache_List m (Cluster_Namespace cluster) Everything = Ok bundles ->
  clusterGroups_List m (Cluster_Namespace cluster) Everything = Ok cgs ->
  BundlesForCluster cluster store lg
  = ((List.filter (targets_cluster cluster) bundles, None),
     lg ++ flat_map (bundle_log cluster) bundles)
  /\ (forall app,
        In app (fst (fst (BundlesForCluster cluster store lg))) <->
        In app bundles
        /\ exists bundle match_,
             bundle_New pkg app = Ok bundle
             /\ Match pkg bundle
                  (ClusterGroupsToLabelMap
                     (fst (fst (ClusterGroupsForCluster cluster
                                  {| content := store; log := [] |}))))
                  (Cluster_Labels cluster) = Some match_)
  /\ (forall app err,
        In app bundles -> bundle_New pkg app = Err err ->
        In (ignore_bad_app (Bundle_Namespace app) (Bundle_Name app) err)
           (snd (BundlesForCluster cluster store lg))).
Proof.
  intros Hb Hl.
  assert (BundlesForCluster cluster store lg
          = ((List.filter (targets_cluster cluster) bundles, None),
             lg ++ flat_map (bundle_log cluster) bundles)) as Heq.
  { unfold BundlesForCluster.
    rewrite Hb, (BundlesForCluster_loop_ok cluster cgs _ _ _ _ Hl).
    reflexivity. }
  split; [exact Heq|]. rewrite Heq. cbn [fst snd].
  rewrite (ClusterGroupsForCluster_ok cluster _ cgs Hl). cbn [fst].
  split.
  - intros app. rewrite List.filter_In. unfold targets_cluster, matched.
    rewrite Hl. split.
    + intros [Hin Hm]. split; [exact Hin|].
      destruct (bundle_New pkg app) as [bundle|]; [|discriminate].
      destruct (Match pkg bundle _ _) as [mt|] eqn:HM; [|discriminate].
      exists bundle, mt. split; [reflexivity | exact HM].
    + intros [Hin (bundle & mt & -> & ->)]. split; [exact Hin | reflexivity].
  - intros app err Hin Herr. apply List.in_or_app. right.
    apply List.in_flat_map. exists app. split; [exact Hin|].
    unfold bundle_log. rewrite Herr. left. reflexivity.
Qed.

(** X15. BundlesForCluster fails only when the listing of the bundles
    fails, or when the listing of the cluster groups fails and
    bundle.New accepts at least one listed bundle; it then returns no
    bundle. When bundle.New accepts no listed bundle, which includes an
    empty listing, the call returns no bundle and no error, even if the
    listing of the cluster groups would fail. *)
Theorem BundlesForCluster_errors (cluster : fleet_Cluster)
  (store : StoreState) (lg : list BundleLogEntry) :
  (forall err,
     snd (fst (BundlesForCluster cluster store lg)) = Some err ->
     fst (fst (BundlesForCluster cluster store lg)) = []
     /\ (bundleCache_List m (Cluster_Namespace cluster) Everything = Err err
         \/ exists bundles,
              bundleCache_List m (Cluster_Namespace cluster) Everything
              = Ok bundles
              /\ clusterGroups_List m (Cluster_Namespace cluster) Everything
                 = Err err
              /\ List.Exists (fun app => well_formed app = true) bundles))
  /\ (forall bundles,
        bundleCache_List m (Cluster_Namespace cluster) Everything
        = Ok bundles ->
        List.Forall (fun app => well_formed app = false) bundles ->
        fst (BundlesForCluster cluster store lg) = ([], None)).
Proof.
  split.
  - intros err. unfold BundlesForCluster.
    destruct (bundleCache_List m (Cluster_Namespace cluster) Everything)
      as [bundles|e] eqn:Hb.
    + destruct (BundlesForCluster_loop cluster bundles [] store lg)
        as [[result|e] lg'] eqn:Hloop; cbn [fst snd]; [discriminate|].
      intros [= ->]. split; [reflexivity|]. right. exists bundles.
      apply BundlesForCluster_loop_err in Hloop as [H1 H2]. auto.
    + cbn [fst snd]. intros [= ->]. auto.
  - intros bundles Hb HF. unfold BundlesForCluster.
    rewrite Hb, (BundlesForCluster_loop_none_well_formed _ _ _ _ _ HF).
    reflexivity.
Qed.

Lemma Targets_clusters_matched (fleetBundle : fleet_Bundle)
  (bundle : bundle_Bundle) (st st' : State) (result : list Target) :
  bundle_New pkg fleetBundle = Ok bundle ->
  Targets fleetBundle st = ((result, None), st') ->
  List.Forall (fun t => matched bundle (Cluster t) = true) result.
Proof.
  intros Hb H.
  destruct (clusters_List m (Bundle_Namespace fleetBundle) Everything)
    as [clusters|e] eqn:Hc;
    [|unfold Targets in H; rewrite Hb, Hc in H; discriminate].
  rewrite (Targets_unfold _ _ _ _ Hb Hc) in H.
  destruct (Targets_loop fleetBundle bundle clusters [] st) as [[r|e] st1] eqn:Hl;
    [|discriminate].
  apply Targets_loop_clusters in Hl. simpl in Hl. injection H as H _.
  pose proof (foldInDeployments_clusters fleetBundle
                (sort_Slice less_by_name r)) as Hf.
  rewrite H in Hf. cbn [fst] in Hf.
  apply List.Forall_forall. intros t Hin.
  assert (In (Cluster t) (map Cluster result)) as Hin'
    by (apply List.in_map; exact Hin).
  rewrite Hf in Hin'.
  apply (Permutation_in _ (Permutation_map Cluster
                             (sort_Slice_Permutation _ less_by_name r)))
    in Hin'.
  rewrite Hl in Hin'. apply List.filter_In in Hin' as [_ Hm]. exact Hm.
Qed.

(** X16. Targets and BundlesForCluster agree: when Targets(bundle)
    succeeds and resolves a target for a cluster, and the bundle is
    among the listed bundles of the namespace of that cluster, then
    BundlesForCluster of the cluster succeeds and returns the bundle. *)
Theorem BundlesForCluster_of_target (fleetBundle : fleet_Bundle)
  (st st' : State) (result : list Target) (t : Target)
  (bundles : list fleet_Bundle) (store : StoreState)
  (lg : list BundleLogEntry) :
  Targets fleetBundle st = ((result, None), st') ->
  In t result ->
  bundleCache_List m (Cluster_Namespace (Cluster t)) Everything = Ok bundles ->
  In fleetBundle bundles ->
  snd (fst (BundlesForCluster (Cluster t) store lg)) = None
  /\ In fleetBundle (fst (fst (BundlesForCluster (Cluster t) store lg))).
Proof.
  intros H Hin Hb Hfb.
  destruct (bundle_New pkg fleetBundle) as [bundle|e] eqn:Hnew;
    [|unfold Targets in H; rewrite Hnew in H; discriminate].
  pose proof (Targets_clusters_matched _ _ _ _ _ Hnew H) as HF.
  rewrite List.Forall_forall in HF. specialize (HF t Hin).
  pose proof HF as HF'. unfold matched in HF'.
  destruct (clusterGroups_List m (Cluster_Namespace (Cluster t)) Everything)
    as [cgs|e] eqn:Hl; [|discriminate].
  unfold BundlesForCluster.
  rewrite Hb, (BundlesForCluster_loop_ok (Cluster t) cgs _ _ _ _ Hl).
  cbn [fst snd]. rewrite app_nil_l. split; [reflexivity|].
  apply List.filter_In. split; [exact Hfb|].
  unfold targets_cluster. rewrite Hnew. exact HF.
Qed.

(** ** The summary of a bundle *)

Section Summaries.

(** [fleet.BundleState] with its value [fleet.Pending], the fields of
    [fleet.BundleSummary] besides [DesiredReady] with their zero value,
    and the three functions of package [summary] that are called here. *)
Context {BundleState BundleSummaryRest : Type}.
Variable Pending : BundleState.
Variable no_summary : BundleSummaryRest.

Record fleet_BundleSummary : Type := {
  DesiredReady : Z;
  BundleSummary_rest : BundleSummaryRest
}.

Variable GetDeploymentState : fleet_BundleDeployment -> BundleState.
Variable MessageFromDeployment : option fleet_BundleDeployment -> string.
Variable IncrementState :
  fleet_BundleSummary -> string -> BundleState -> string -> fleet_BundleSummary.

Definition Target_State (t : Target) : BundleState :=
  match Deployment t with
  | None => Pending
  | Some d => GetDeploymentState d
  end.

Definition Message (t : Target) : string :=
  MessageFromDeployment (Deployment t).

Fixpoint Summary_loop (targets : list Target)
  (bundleSummary : fleet_BundleSummary) : fleet_BundleSummary :=
  match targets with
  | [] => bundleSummary
  | currentTarget :: rest =>
      let cluster :=
        String.append (Cluster_Namespace (Cluster currentTarget))
          (String.append "/" (Cluster_Name (Cluster currentTarget))) in
      let bundleSummary :=
        IncrementState bundleSummary cluster (Target_State currentTarget)
          (Message currentTarget) in
      let bundleSummary :=
        {| DesiredReady := wrap_int (DesiredReady bundleSummary + 1);
           BundleSummary_rest := BundleSummary_rest bundleSummary |} in
      Summary_loop rest bundleSummary
  end.

Definition Summary (targets : list Target) : fleet_BundleSummary :=
  Summary_loop targets
    {| DesiredReady := 0; BundleSummary_rest := no_summary |}.

Lemma Summary_loop_DesiredReady (targets : list Target) :
  (forall s name state message,
      DesiredReady (IncrementState s name state message) = DesiredReady s) ->
  forall s,
    0 <= DesiredReady s ->
    DesiredReady s + len targets <= MaxInt ->
    DesiredReady (Summary_loop targets s) = DesiredReady s + len targets.
Proof.
  intros Hinc. induction targets as [|t rest IH]; intros s H0 Hmax.
  - unfold len. cbn. lia.
  - rewrite len_cons in Hmax |- *. pose proof (len_nonneg rest) as Hr.
    cbn [Summary_loop]. rewrite IH; cbn [DesiredReady]; rewrite Hinc;
      rewrite wrap_int_small by (unfold MinInt, MaxInt in *; lia); lia.
Qed.

(** X26. Summary counts every target as desired: when IncrementState
    leaves the DesiredReady counter alone, the counter of the summary is
    the number of targets, whatever their state, and the summary of no
    targets is the zero summary. *)
Theorem Summary_DesiredReady (targets : list Target) :
  (forall s name state message,
      DesiredReady (IncrementState s name state message) = DesiredReady s) ->
  len targets <= MaxInt ->
  DesiredReady (Summary targets) = len targets
  /\ Summary [] = {| DesiredReady := 0; BundleSummary_rest := no_summary |}.
Proof.
  intros Hinc Hmax. split; [|reflexivity].
  unfold Summary. rewrite Summary_loop_DesiredReady; cbn [DesiredReady];
    try assumption; lia.
Qed.

End Summaries.


End Target.

(** * The git repo handler (package [git]) *)

(** ** The objects the handler reads and generates, as far as it sets
    their fields; a field the handler leaves out holds its zero value. *)

Record metav1_ObjectMeta : Type := {
  ObjectMeta_Name : string;
  ObjectMeta_Namespace : string;
  (** seconds and nanoseconds since the Unix epoch; [None] is the zero
      time *)
  ObjectMeta_CreationTimestamp : option (Z * Z)
}.

Record fleet_GitRepoSpec : Type := {
  GitRepoSpec_Repo : string;
  GitRepoSpec_Branch : string;
  GitRepoSpec_Revision : string;
  GitRepoSpec_ClientSecretName : string;
  GitRepoSpec_ServiceAccount : string;
  GitRepoSpec_BundleDirs : list string
}.

Record fleet_GitRepo : Type := {
  GitRepo_Namespace : string;
  GitRepo_Name : string;
  GitRepo_Spec : fleet_GitRepoSpec
}.

Record rbacv1_PolicyRule : Type := {
  PolicyRule_Verbs : list string;
  PolicyRule_APIGroups : list string;
  PolicyRule_Resources : list string
}.

Record rbacv1_Subject : Type := {
  Subject_Kind : string;
  Subject_Name : string;
  Subject_Namespace : string
}.

Record rbacv1_RoleRef : Type := {
  RoleRef_APIGroup : string;
  RoleRef_Kind : string;
  RoleRef_Name : string
}.

Record gitjob_Credential : Type := {
  Credential_GitSecretName : string;
  Credential_GitHostname : string
}.

Record gitjob_GitInfo : Type := {
  GitInfo_Credential : gitjob_Credential;
  GitInfo_Provider : string;
  GitInfo_Repo : string;
  GitInfo_Revision : string;
  GitInfo_Branch : string
}.

Record corev1_Container : Type := {
  Container_Name : string;
  Container_Image : string;
  Container_ImagePullPolicy : string;
  Container_Command : list string;
  Container_WorkingDir : string
}.

Record corev1_PodSpec : Type := {
  PodSpec_ServiceAccountName : string;
  PodSpec_RestartPolicy : string;
  PodSpec_Containers : list corev1_Container
}.

Record corev1_PodTemplateSpec : Type := {
  PodTemplateSpec_ObjectMeta : metav1_ObjectMeta;
  PodTemplateSpec_Spec : corev1_PodSpec
}.

Record batchv1_JobSpec : Type := {
  JobSpec_Template : corev1_PodTemplateSpec
}.

Record gitjob_GitJobSpec : Type := {
  GitJobSpec_Git : gitjob_GitInfo;
  GitJobSpec_JobSpec : batchv1_JobSpec
}.

(** [config.Config], the two fields read here. *)
Record config_Config : Type := {
  Config_AgentImage : string;
  Config_AgentImagePullPolicy : string
}.

Definition RestartPolicyNever : string := "Never".

Section Handler.

(** [genericcondition.GenericCondition], and the fields of
    [fleet.GitRepoStatus] besides the two the handler writes. *)
Context {GenericCondition GitRepoStatusRest : Type}.

Record gitjob_GitJobStatus : Type := {
  GitJobStatus_Commit : string;
  GitJobStatus_Conditions : list GenericCondition
}.

Record gitjob_GitJob : Type := {
  GitJob_ObjectMeta : metav1_ObjectMeta;
  GitJob_Spec : gitjob_GitJobSpec;
  GitJob_Status : gitjob_GitJobStatus
}.

Record fleet_GitRepoStatus : Type := {
  GitRepoStatus_Commit : string;
  GitRepoStatus_Conditions : list GenericCondition;
  GitRepoStatus_rest : GitRepoStatusRest
}.

(** [runtime.Object], the four kinds the handler generates. *)
Inductive runtime_Object : Type :=
  | ServiceAccount (meta : metav1_ObjectMeta)
  | Role (meta : metav1_ObjectMeta) (rules : list rbacv1_PolicyRule)
  | RoleBinding (meta : metav1_ObjectMeta) (subjects : list rbacv1_Subject)
      (roleRef : rbacv1_RoleRef)
  | GitJob (job : gitjob_GitJob).

Record handler : Type := {
  gitjobCache_Get : string -> string -> Result gitjob_GitJob
}.

Variable h : handler.

(** [name.SafeConcatName] of wrangler and the value of [config.Get()]. *)
Variable SafeConcatName : list string -> string.
Variable config_Get : config_Config.

Definition meta (name namespace : string) : metav1_ObjectMeta :=
  {| ObjectMeta_Name := name;
     ObjectMeta_Namespace := namespace;
     ObjectMeta_CreationTimestamp := None |}.

Definition OnChange (gitrepo : fleet_GitRepo) (status : fleet_GitRepoStatus)
  : list runtime_Object * fleet_GitRepoStatus * option error :=
  let dirs := GitRepoSpec_BundleDirs (GitRepo_Spec gitrepo) in
  let dirs := if len dirs =? 0 then ["."] else dirs in
  let status :=
    match gitjobCache_Get h (GitRepo_Namespace gitrepo) (GitRepo_Name gitrepo) with
    | Ok gitJob =>
        {| GitRepoStatus_Commit := GitJobStatus_Commit (GitJob_Status gitJob);
           GitRepoStatus_Conditions :=
             GitJobStatus_Conditions (GitJob_Status gitJob);
           GitRepoStatus_rest := GitRepoStatus_rest status |}
    | Err _ =>
        {| GitRepoStatus_Commit := "";
           GitRepoStatus_Conditions := [];
           GitRepoStatus_rest := GitRepoStatus_rest status |}
    end in
  let branch := GitRepoSpec_Branch (GitRepo_Spec gitrepo) in
  let rev := GitRepoSpec_Revision (GitRepo_Spec gitrepo) in
  let branch :=
    if String.eqb branch "" && String.eqb rev "" then "master" else branch in
  let saName := SafeConcatName ["git"; GitRepo_Name gitrepo] in
  ([ ServiceAccount (meta saName (GitRepo_Namespace gitrepo));
     Role (meta saName (GitRepo_Namespace gitrepo))
       [ {| PolicyRule_Verbs := ["get"; "create"; "update"];
            PolicyRule_APIGroups := ["fleet.cattle.io"];
            PolicyRule_Resources := ["bundles"] |};
         {| PolicyRule_Verbs := ["get"];
            PolicyRule_APIGroups := ["fleet.cattle.io"];
            PolicyRule_Resources := ["gitrepos"] |} ];
     RoleBinding (meta saName (GitRepo_Namespace gitrepo))
       [ {| Subject_Kind := "ServiceAccount";
            Subject_Name := saName;
            Subject_Namespace := GitRepo_Namespace gitrepo |} ]
       {| RoleRef_APIGroup := "rbac.authorization.k8s.io";
          RoleRef_Kind := "Role";
          RoleRef_Name := saName |};
     GitJob
       {| GitJob_ObjectMeta :=
            meta (GitRepo_Name gitrepo) (GitRepo_Namespace gitrepo);
          GitJob_Spec :=
            {| GitJobSpec_Git :=
                 {| GitInfo_Credential :=
                      {| Credential_GitSecretName :=
                           GitRepoSpec_ClientSecretName (GitRepo_Spec gitrepo);
                         Credential_GitHostname := "github.com" |};
                    GitInfo_Provider := "polling";
                    GitInfo_Repo := GitRepoSpec_Repo (GitRepo_Spec gitrepo);
                    GitInfo_Revision := rev;
                    GitInfo_Branch := branch |};
               GitJobSpec_JobSpec :=
                 {| JobSpec_Template :=
                      {| PodTemplateSpec_ObjectMeta :=
                           {| ObjectMeta_Name := "";
                              ObjectMeta_Namespace := "";
                              ObjectMeta_CreationTimestamp := Some (0, 0) |};
                         PodTemplateSpec_Spec :=
                           {| PodSpec_ServiceAccountName := saName;
                              PodSpec_RestartPolicy := RestartPolicyNever;
                              PodSpec_Containers :=
                                [ {| Container_Name := "fleet";
                                     Container_Image :=
                                       Config_AgentImage config_Get;
                                     Container_ImagePullPolicy :=
                                       Config_AgentImagePullPolicy config_Get;
                                     Container_Command :=
                                       [ "fleet";
                                         "apply";
                                         String.append
                                           "--label=fleet.cattle.io/repo-name="
                                           (GitRepo_Name gitrepo);
                                         "--namespace";
                                         GitRepo_Namespace gitrepo;
                                         "--service-account";
                                         GitRepoSpec_ServiceAccount
                                           (GitRepo_Spec gitrepo);
                                         GitRepo_Name gitrepo ] ++ dirs;
                                     Container_WorkingDir :=
                                       "/workspace/source" |} ] |} |} |} |};
          GitJob_Status :=
            {| GitJobStatus_Commit := ""; GitJobStatus_Conditions := [] |} |} ],
   status, None).

(** ** Properties of the handler *)

Definition job_pod (job : gitjob_GitJob) : corev1_PodSpec :=
  PodTemplateSpec_Spec (JobSpec_Template (GitJobSpec_JobSpec (GitJob_Spec job))).

Definition job_git (job : gitjob_GitJob) : gitjob_GitInfo :=
  GitJobSpec_Git (GitJob_Spec job).

(** The objects hold a service account, or a role, of this name in this
    namespace. *)
Definition has_ServiceAccount (objects : list runtime_Object)
  (namespace name : string) : Prop :=
  exists mt, In (ServiceAccount mt) objects
             /\ ObjectMeta_Namespace mt = namespace
             /\ ObjectMeta_Name mt = name.

Definition has_Role (objects : list runtime_Object)
  (namespace name : string) (rules : list rbacv1_PolicyRule) : Prop :=
  exists mt, In (Role mt rules) objects
             /\ ObjectMeta_Namespace mt = namespace
             /\ ObjectMeta_Name mt = name.

(** The objects bind the service account to a role of its namespace that
    they hold, with these rules. *)
Definition bound_to (objects : list runtime_Object)
  (namespace account : string) (rules : list rbacv1_PolicyRule) : Prop :=
  exists mt subject ref,
    In (RoleBinding mt [subject] ref) objects
    /\ ObjectMeta_Namespace mt = namespace
    /\ subject = {| Subject_Kind := "ServiceAccount";
                    Subject_Name := account;
                    Subject_Namespace := namespace |}
    /\ RoleRef_Kind ref = "Role"
    /\ has_Role objects namespace (RoleRef_Name ref) rules.

(** X17. OnChange never returns an error, also when the git job is not in
    the cache: the returned status then has an empty commit and no
    conditions, and otherwise the commit and conditions of the cached git
    job.  The commit and conditions passed in are dropped, every other
    field of the status is returned as passed, the generated objects do
    not depend on the status, and feeding the returned status back gives
    the same result. *)
Theorem OnChange_status (gitrepo : fleet_GitRepo) (status : fleet_GitRepoStatus) :
  snd (OnChange gitrepo status) = None
  /\ GitRepoStatus_rest (snd (fst (OnChange gitrepo status)))
     = GitRepoStatus_rest status
  /\ (forall gitJob,
         gitjobCache_Get h (GitRepo_Namespace gitrepo) (GitRepo_Name gitrepo)
         = Ok gitJob ->
         GitRepoStatus_Commit (snd (fst (OnChange gitrepo status)))
         = GitJobStatus_Commit (GitJob_Status gitJob)
         /\ GitRepoStatus_Conditions (snd (fst (OnChange gitrepo status)))
            = GitJobStatus_Conditions (GitJob_Status gitJob))
  /\ (forall err,
         gitjobCache_Get h (GitRepo_Namespace gitrepo) (GitRepo_Name gitrepo)
         = Err err ->
         GitRepoStatus_Commit (snd (fst (OnChange gitrepo status))) = ""
         /\ GitRepoStatus_Conditions (snd (fst (OnChange gitrepo status))) = [])
  /\ (forall other,
         fst (fst (OnChange gitrepo other)) = fst (fst (OnChange gitrepo status))
         /\ (GitRepoStatus_rest other = GitRepoStatus_rest status ->
             OnChange gitrepo other = OnChange gitrepo status))
  /\ OnChange gitrepo (snd (fst (OnChange gitrepo status)))
     = OnChange gitrepo status.
Proof.
  unfold OnChange. cbn [fst snd].
  destruct (gitjobCache_Get h (GitRepo_Namespace gitrepo) (GitRepo_Name gitrepo))
    as [gitJob|e]; cbn [GitRepoStatus_rest GitRepoStatus_Commit
                        GitRepoStatus_Conditions].
  - split; [reflexivity|]. split; [reflexivity|]. split.
    { intros j [= <-]. split; reflexivity. }
    split; [intros err [=]|]. split; [|reflexivity].
    intros other. split; [reflexivity|]. intros ->. reflexivity.
  - split; [reflexivity|]. split; [reflexivity|]. split; [intros j [=]|].
    split; [intros err _; split; reflexivity|]. split; [|reflexivity].
    intros other. split; [reflexivity|]. intros ->. reflexivity.
Qed.

(** X18. OnChange generates four objects, the last of which is a git job
    named after the git repo, in its namespace.  The job always names
    something to check out: it keeps the revision and the branch of the
    git repo, except that its branch is "master" when the git repo gives
    neither.  Its pod has one container, whose command is the eight fixed
    arguments followed by the bundle directories of the git repo, or by
    the single directory "." when the git repo lists none, so the command
    never ends without a directory. *)
Theorem OnChange_job (gitrepo : fleet_GitRepo) (status : fleet_GitRepoStatus) :
  exists account role binding job container dirs,
    fst (fst (OnChange gitrepo status))
    = [account; role; binding; GitJob job]
    /\ ObjectMeta_Name (GitJob_ObjectMeta job) = GitRepo_Name gitrepo
    /\ ObjectMeta_Namespace (GitJob_ObjectMeta job) = GitRepo_Namespace gitrepo
    /\ GitInfo_Repo (job_git job) = GitRepoSpec_Repo (GitRepo_Spec gitrepo)
    /\ GitInfo_Revision (job_git job)
       = GitRepoSpec_Revision (GitRepo_Spec gitrepo)
    /\ (GitInfo_Branch (job_git job) <> ""
        \/ GitInfo_Revision (job_git job) <> "")
    /\ (GitRepoSpec_Branch (GitRepo_Spec gitrepo) <> ""
        \/ GitRepoSpec_Revision (GitRepo_Spec gitrepo) <> "" ->
        GitInfo_Branch (job_git job)
        = GitRepoSpec_Branch (GitRepo_Spec gitrepo))
    /\ (GitRepoSpec_Branch (GitRepo_Spec gitrepo) = "" ->
        GitRepoSpec_Revision (GitRepo_Spec gitrepo) = "" ->
        GitInfo_Branch (job_git job) = "master")
    /\ PodSpec_Containers (job_pod job) = [container]
    /\ Container_Command container
       = [ "fleet"; "apply";
           String.append "--label=fleet.cattle.io/repo-name="
             (GitRepo_Name gitrepo);
           "--namespace"; GitRepo_Namespace gitrepo;
           "--service-account";
           GitRepoSpec_ServiceAccount (GitRepo_Spec gitrepo);
           GitRepo_Name gitrepo ] ++ dirs
    /\ dirs <> []
    /\ (GitRepoSpec_BundleDirs (GitRepo_Spec gitrepo) <> [] ->
        dirs = GitRepoSpec_BundleDirs (GitRepo_Spec gitrepo))
    /\ (GitRepoSpec_BundleDirs (GitRepo_Spec gitrepo) = [] -> dirs = ["."]).
Proof.
  unfold OnChange. cbn [fst snd].
  do 5 eexists.
  exists (if len (GitRepoSpec_BundleDirs (GitRepo_Spec gitrepo)) =? 0
          then ["."] else GitRepoSpec_BundleDirs (GitRepo_Spec gitrepo)).
  split; [reflexivity|].
  unfold job_git, job_pod.
  cbn [GitJob_ObjectMeta GitJob_Spec GitJobSpec_Git GitJobSpec_JobSpec
       JobSpec_Template PodTemplateSpec_Spec PodSpec_Containers
       GitInfo_Repo GitInfo_Revision GitInfo_Branch meta
       ObjectMeta_Name ObjectMeta_Namespace].
  split; [reflexivity|]. split; [reflexivity|]. split; [reflexivity|].
  split; [reflexivity|].
  assert (Hdirs : forall l : list string, (len l =? 0) = true <-> l = []).
  { intros l. rewrite Z.eqb_eq. unfold len. destruct l; cbn [length].
    - split; reflexivity.
    - split; [lia | discriminate]. }
  split; [|split; [|split; [|split; [reflexivity|split; [reflexivity|]]]]].
  - destruct (String.eqb_spec (GitRepoSpec_Branch (GitRepo_Spec gitrepo)) "")
      as [Hb|Hb]; [|left; exact Hb].
    destruct (String.eqb_spec (GitRepoSpec_Revision (GitRepo_Spec gitrepo)) "")
      as [Hr|Hr]; [|right; exact Hr].
    left. cbn. discriminate.
  - intros Hne.
    destruct (String.eqb_spec (GitRepoSpec_Branch (GitRepo_Spec gitrepo)) "")
      as [Hb|Hb]; [|reflexivity].
    destruct (String.eqb_spec (GitRepoSpec_Revision (GitRepo_Spec gitrepo)) "")
      as [Hr|Hr]; [|reflexivity].
    destruct Hne; contradiction.
  - intros -> ->. reflexivity.
  - destruct (len (GitRepoSpec_BundleDirs (GitRepo_Spec gitrepo)) =? 0) eqn:Hl.
    + split; [discriminate|]. split; [|reflexivity].
      intros Hne. apply Hdirs in Hl. contradiction.
    + assert (GitRepoSpec_BundleDirs (GitRepo_Spec gitrepo) <> []) as Hne.
      { intros He. apply Hdirs in He. congruence. }
      split; [exact Hne|]. split; [reflexivity|]. intros He. contradiction.
Qed.

(** X19. Every reference among the objects OnChange generates resolves to
    one of them: the pod of the git job runs under a service account that
    is among the objects, in the namespace of the git repo, and the
    objects bind that service account to a role among them, in the same
    namespace, that allows get, create and update on bundles and get on
    git repos of fleet.cattle.io and nothing else. *)
Theorem OnChange_access (gitrepo : fleet_GitRepo) (status : fleet_GitRepoStatus) :
  forall job,
    In (GitJob job) (fst (fst (OnChange gitrepo status))) ->
    ObjectMeta_Namespace (GitJob_ObjectMeta job) = GitRepo_Namespace gitrepo
    /\ has_ServiceAccount (fst (fst (OnChange gitrepo status)))
         (GitRepo_Namespace gitrepo) (PodSpec_ServiceAccountName (job_pod job))
    /\ bound_to (fst (fst (OnChange gitrepo status)))
         (GitRepo_Namespace gitrepo) (PodSpec_ServiceAccountName (job_pod job))
         [ {| PolicyRule_Verbs := ["get"; "create"; "update"];
              PolicyRule_APIGroups := ["fleet.cattle.io"];
              PolicyRule_Resources := ["bundles"] |};
           {| PolicyRule_Verbs := ["get"];
              PolicyRule_APIGroups := ["fleet.cattle.io"];
              PolicyRule_Resources := ["gitrepos"] |} ].
Proof.
  intros job Hin. unfold OnChange in *. cbn [fst snd] in *.
  destruct Hin as [Hin|[Hin|[Hin|[Hin|[]]]]]; try discriminate.
  injection Hin as <-. unfold job_pod.
  cbn [GitJob_ObjectMeta GitJob_Spec GitJobSpec_JobSpec JobSpec_Template
       PodTemplateSpec_Spec PodSpec_ServiceAccountName meta
       ObjectMeta_Namespace].
  split; [reflexivity|]. split.
  - eexists. split; [left; reflexivity|]. split; reflexivity.
  - do 3 eexists. split; [right; right; left; reflexivity|].
    split; [reflexivity|]. split; [reflexivity|]. split; [reflexivity|].
    eexists. split; [right; left; reflexivity|]. split; reflexivity.
Qed.


End Handler.


(** * Reading a bundle (package [bundle], read.go) *)

(** Ranging over a Go map visits every entry once, in an order that is
    not specified. *)
Class MapRange : Type := {
  range_map : forall {V : Type}, gmap string V -> list (string * V);
  range_map_Permutation :
    forall (V : Type) (mp : gmap string V),
      Permutation (range_map mp) (map_to_list mp)
}.

(** [fmt.Sprintf("target%03d", i)] for an index [i] of a slice: the
    decimal digits of [i], padded with zeros on the left to three
    digits. *)
Fixpoint zeros (n : nat) : string :=
  match n with
  | O => ""
  | S n => String "0" (zeros n)
  end.

Definition Sprintf_target03d (i : nat) : string :=
  let digits := Itoa (Z.of_nat i) in
  String.append "target"
    (String.append (zeros (3 - String.length digits)) digits).

Section Read.

(** [fleet.BundleResource], [fleet.BundleDeploymentOptions] and the fields
    of [fleet.BundleTarget] and [fleet.BundleSpec] that this file does not
    touch. *)
Context {BundleResource BundleDeploymentOptions BundleTargetRest
         BundleSpecOther : Type}.

Context {ranger : MapRange} {sorter : SortSlice}.

(** The zero value of [fleet.BundleDeploymentOptions]. *)
Variable no_options : BundleDeploymentOptions.

Record fleet_BundleTarget : Type := {
  BundleTarget_Name : string;
  BundleTarget_Overlays : list string;
  BundleTarget_rest : BundleTargetRest
}.

Record fleet_BundleOverlay : Type := {
  BundleOverlay_Name : string;
  BundleOverlay_Overlays : list string;
  BundleOverlay_Options : BundleDeploymentOptions;
  BundleOverlay_Resources : list BundleResource
}.

(** The fields of [fleet.BundleSpec] besides the pause flag and the rollout
    strategy. *)
Record BundleSpec_fields : Type := {
  BundleSpec_Targets : list fleet_BundleTarget;
  BundleSpec_Overlays : list fleet_BundleOverlay;
  BundleSpec_Resources : list BundleResource;
  BundleSpec_other : BundleSpecOther
}.

Definition BundleSpec : Type := @fleet_BundleSpec BundleSpec_fields.

Definition Spec_Targets (spec : BundleSpec) : list fleet_BundleTarget :=
  BundleSpec_Targets (BundleSpec_rest spec).

Definition Spec_Overlays (spec : BundleSpec) : list fleet_BundleOverlay :=
  BundleSpec_Overlays (BundleSpec_rest spec).

Definition set_Targets (spec : BundleSpec)
  (targets : list fleet_BundleTarget) : BundleSpec :=
  {| BundleSpec_Paused := BundleSpec_Paused spec;
     BundleSpec_RolloutStrategy := BundleSpec_RolloutStrategy spec;
     BundleSpec_rest :=
       {| BundleSpec_Targets := targets;
          BundleSpec_Overlays := Spec_Overlays spec;
          BundleSpec_Resources := BundleSpec_Resources (BundleSpec_rest spec);
          BundleSpec_other := BundleSpec_other (BundleSpec_rest spec) |} |}.

Definition set_Overlays (spec : BundleSpec)
  (overlays : list fleet_BundleOverlay) : BundleSpec :=
  {| BundleSpec_Paused := BundleSpec_Paused spec;
     BundleSpec_RolloutStrategy := BundleSpec_RolloutStrategy spec;
     BundleSpec_rest :=
       {| BundleSpec_Targets := Spec_Targets spec;
          BundleSpec_Overlays := overlays;
          BundleSpec_Resources := BundleSpec_Resources (BundleSpec_rest spec);
          BundleSpec_other := BundleSpec_other (BundleSpec_rest spec) |} |}.

Definition set_Name (target : fleet_BundleTarget) (name : string)
  : fleet_BundleTarget :=
  {| BundleTarget_Name := name;
     BundleTarget_Overlays := BundleTarget_Overlays target;
     BundleTarget_rest := BundleTarget_rest target |}.

Definition set_Resources (overlay : fleet_BundleOverlay)
  (resources : list BundleResource) : fleet_BundleOverlay :=
  {| BundleOverlay_Name := BundleOverlay_Name overlay;
     BundleOverlay_Overlays := BundleOverlay_Overlays overlay;
     BundleOverlay_Options := BundleOverlay_Options overlay;
     BundleOverlay_Resources := resources |}.

(** ** setTargetNames *)

(** The loop over the targets from index [i] on. *)
Fixpoint setTargetNames_loop (i : nat) (targets : list fleet_BundleTarget)
  : list fleet_BundleTarget :=
  match targets with
  | [] => []
  | target :: rest =>
      (if String.eqb (BundleTarget_Name target) ""
       then set_Name target (Sprintf_target03d i)
       else target)
      :: setTargetNames_loop (S i) rest
  end.

Definition setTargetNames (spec : BundleSpec) : BundleSpec :=
  set_Targets spec (setTargetNames_loop 0 (Spec_Targets spec)).

(** ** assignOverlay *)

(** Reading a map of slices at a key that may be missing. *)
Definition index_map (overlays : gmap string (list BundleResource))
  (name : string) : list BundleResource :=
  default [] (overlays !! name).

Definition is_defined (defined : gmap string bool) (name : string) : bool :=
  default false (defined !! name).

(** The first loop: every overlay of the bundle is marked as defined and
    takes the resources the map holds under its name. *)
Fixpoint assign_loop (overlays : gmap string (list BundleResource))
  (bundle_Overlays : list fleet_BundleOverlay) (defined : gmap string bool)
  : list fleet_BundleOverlay * gmap string bool :=
  match bundle_Overlays with
  | [] => ([], defined)
  | overlay :: rest =>
      let defined := <[BundleOverlay_Name overlay := true]> defined in
      let overlay :=
        set_Resources overlay (index_map overlays (BundleOverlay_Name overlay)) in
      let '(rest, defined) := assign_loop overlays rest defined in
      (overlay :: rest, defined)
  end.

(** The second loop: every entry of the map whose name is not defined is
    appended as a new overlay. *)
Fixpoint append_loop (defined : gmap string bool)
  (entries : list (string * list BundleResource))
  (bundle_Overlays : list fleet_BundleOverlay) : list fleet_BundleOverlay :=
  match entries with
  | [] => bundle_Overlays
  | (name, resources) :: rest =>
      if is_defined defined name
      then append_loop defined rest bundle_Overlays
      else append_loop defined rest
             (bundle_Overlays
              ++ [ {| BundleOverlay_Name := name;
                      BundleOverlay_Overlays := [];
                      BundleOverlay_Options := no_options;
                      BundleOverlay_Resources := resources |} ])
  end.

Definition less_by_overlay_name (a b : fleet_BundleOverlay) : bool :=
  String.ltb (BundleOverlay_Name a) (BundleOverlay_Name b).

Definition assignOverlay (bundle : BundleSpec)
  (overlays : gmap string (list BundleResource)) : BundleSpec :=
  let '(assigned, defined) := assign_loop overlays (Spec_Overlays bundle) ∅ in
  let appended := append_loop defined (range_map overlays) assigned in
  set_Overlays bundle (sort_Slice less_by_overlay_name appended).

(** ** overlays *)

(** [sets.String]: [Insert] adds every item, and [List] returns the
    members in ascending order. *)
Definition sets_Insert (s : gset string) (items : list string) : gset string :=
  foldl (fun s item => {[item]} ∪ s) s items.

Definition sets_List (s : gset string) : list string :=
  sort_Slice String.ltb (elements s).

Definition overlays (bundle : BundleSpec) : list string :=
  let overlayNames :=
    foldl (fun s target => sets_Insert s (BundleTarget_Overlays target))
      ∅ (Spec_Targets bundle) in
  let overlayNames :=
    foldl (fun s overlay => sets_Insert s (BundleOverlay_Overlays overlay))
      overlayNames (Spec_Overlays bundle) in
  sets_List overlayNames.

(** ** Properties of setTargetNames *)

(** Reading a string of decimal digits. *)
Definition read_digits (s : string) : option Z :=
  option_map Z.of_uint (NilEmpty.uint_of_string s).

Lemma read_digits_zero (s : string) :
  read_digits (String "0" s) = read_digits s.
Proof.
  unfold read_digits. cbn [NilEmpty.uint_of_string].
  destruct (NilEmpty.uint_of_string s); reflexivity.
Qed.

Lemma read_digits_zeros (k : nat) (s : string) :
  read_digits (String.append (zeros k) s) = read_digits s.
Proof.
  induction k as [|k IH]; [reflexivity|].
  change (String.append (zeros (S k)) s)
    with (String "0" (String.append (zeros k) s)).
  rewrite read_digits_zero. exact IH.
Qed.

Lemma read_digits_Itoa (z : Z) : 0 <= z -> read_digits (Itoa z) = Some z.
Proof.
  intros Hz. unfold Itoa, read_digits.
  pose proof (DecimalZ.of_to z) as Hof.
  destruct (Z.to_int z) as [d|d] eqn:Hd.
  - cbn [NilZero.string_of_int].
    assert (NilZero.string_of_uint d = NilEmpty.string_of_uint d) as ->.
    { destruct d; try reflexivity.
      destruct z; cbn in Hd, Hof; discriminate. }
    rewrite NilEmpty.usu. cbn [option_map]. f_equal. exact Hof.
  - destruct z; cbn in Hd; try discriminate. lia.
Qed.

Lemma length_append (a b : string) :
  String.length (String.append a b) = (String.length a + String.length b)%nat.
Proof.
  induction a as [|c a IH]; [reflexivity|].
  change (String.append (String c a) b) with (String c (String.append a b)).
  cbn [String.length]. rewrite IH. reflexivity.
Qed.

Lemma length_zeros (k : nat) : String.length (zeros k) = k.
Proof. induction k as [|k IH]; cbn; [reflexivity | rewrite IH; reflexivity]. Qed.

(** The digits a default name ends in. *)
Definition default_digits (i : nat) : string :=
  String.append (zeros (3 - String.length (Itoa (Z.of_nat i))))
    (Itoa (Z.of_nat i)).

Lemma Sprintf_target03d_digits (i : nat) :
  Sprintf_target03d i = String.append "target" (default_digits i).
Proof. reflexivity. Qed.

Lemma default_digits_read (i : nat) :
  read_digits (default_digits i) = Some (Z.of_nat i).
Proof.
  unfold default_digits. rewrite read_digits_zeros.
  apply read_digits_Itoa. lia.
Qed.

Lemma default_digits_length (i : nat) :
  (3 <= String.length (default_digits i))%nat.
Proof.
  unfold default_digits. rewrite length_append, length_zeros. lia.
Qed.

Lemma Sprintf_target03d_inj (i j : nat) :
  Sprintf_target03d i = Sprintf_target03d j -> i = j.
Proof.
  rewrite !Sprintf_target03d_digits. intros H.
  change (String.append "target" (default_digits i))
    with (String "t" (String "a" (String "r" (String "g" (String "e"
            (String "t" (default_digits i))))))) in H.
  change (String.append "target" (default_digits j))
    with (String "t" (String "a" (String "r" (String "g" (String "e"
            (String "t" (default_digits j))))))) in H.
  injection H as H.
  pose proof (default_digits_read i) as Hi.
  rewrite H, default_digits_read in Hi. injection Hi as Hi. lia.
Qed.

Lemma Sprintf_target03d_nonempty (i : nat) :
  String.eqb (Sprintf_target03d i) "" = false.
Proof. rewrite Sprintf_target03d_digits. reflexivity. Qed.

(** What the loop makes of one target at index [i]. *)
Definition named_at (i : nat) (target : fleet_BundleTarget)
  : fleet_BundleTarget :=
  if String.eqb (BundleTarget_Name target) ""
  then set_Name target (Sprintf_target03d i)
  else target.

Lemma setTargetNames_loop_lookup (targets : list fleet_BundleTarget) :
  forall i k,
    setTargetNames_loop i targets !! k
    = named_at (i + k) <$> targets !! k.
Proof.
  induction targets as [|t rest IH]; intros i k; [reflexivity|].
  cbn [setTargetNames_loop]. destruct k as [|k].
  - cbn. rewrite Nat.add_0_r. reflexivity.
  - cbn [lookup list_lookup]. rewrite IH.
    replace (S i + k)%nat with (i + S k)%nat by lia. reflexivity.
Qed.

Lemma setTargetNames_loop_length (targets : list fleet_BundleTarget) :
  forall i, length (setTargetNames_loop i targets) = length targets.
Proof.
  induction targets as [|t rest IH]; intros i; [reflexivity|].
  cbn [setTargetNames_loop length]. rewrite IH. reflexivity.
Qed.

Lemma named_at_nonempty (i : nat) (target : fleet_BundleTarget) :
  String.eqb (BundleTarget_Name (named_at i target)) "" = false.
Proof.
  unfold named_at.
  destruct (String.eqb (BundleTarget_Name target) "") eqn:He; [|exact He].
  apply Sprintf_target03d_nonempty.
Qed.

Lemma setTargetNames_loop_named (targets : list fleet_BundleTarget) :
  forall i,
    List.Forall (fun t => BundleTarget_Name t <> "")
      (setTargetNames_loop i targets).
Proof.
  induction targets as [|t rest IH]; intros i; constructor.
  - fold (named_at i t). intros He.
    pose proof (named_at_nonempty i t) as Hn. rewrite He in Hn. discriminate.
  - apply IH.
Qed.

Lemma setTargetNames_loop_fixed (targets : list fleet_BundleTarget) :
  forall i,
    List.Forall (fun t => BundleTarget_Name t <> "") targets ->
    setTargetNames_loop i targets = targets.
Proof.
  induction targets as [|t rest IH]; intros i H; [reflexivity|].
  inversion H as [|? ? Ht Hrest]; subst. cbn [setTargetNames_loop].
  rewrite (IH _ Hrest).
  destruct (String.eqb_spec (BundleTarget_Name t) ""); [contradiction|].
  reflexivity.
Qed.


Lemma setTargetNames_lookup (spec : BundleSpec) (i : nat) :
  Spec_Targets (setTargetNames spec) !! i
  = named_at i <$> Spec_Targets spec !! i.
Proof.
  unfold setTargetNames, set_Targets, Spec_Targets at 1.
  cbn [BundleSpec_rest BundleSpec_Targets].
  apply (setTargetNames_loop_lookup _ 0%nat i).
Qed.

(** X20. setTargetNames leaves no target of the bundle unnamed.  It keeps
    the number and the order of the targets and changes nothing but the
    names of the targets whose name is empty; a bundle whose targets are
    all named is returned as it is, and so is the result when the
    function is applied again. *)
Theorem setTargetNames_named (spec : BundleSpec) :
  length (Spec_Targets (setTargetNames spec)) = length (Spec_Targets spec)
  /\ List.Forall (fun t => BundleTarget_Name t <> "")
       (Spec_Targets (setTargetNames spec))
  /\ (forall i target,
         Spec_Targets spec !! i = Some target ->
         exists target',
           Spec_Targets (setTargetNames spec) !! i = Some target'
           /\ set_Name target' (BundleTarget_Name target) = target
           /\ (BundleTarget_Name target <> "" -> target' = target))
  /\ set_Targets (setTargetNames spec) (Spec_Targets spec) = spec
  /\ (List.Forall (fun t => BundleTarget_Name t <> "") (Spec_Targets spec) ->
      setTargetNames spec = spec)
  /\ setTargetNames (setTargetNames spec) = setTargetNames spec.
Proof.
  assert (Hfix : forall s : BundleSpec,
             List.Forall (fun t => BundleTarget_Name t <> "") (Spec_Targets s) ->
             setTargetNames s = s).
  { intros s H. unfold setTargetNames.
    rewrite (setTargetNames_loop_fixed _ 0%nat H).
    destruct s as [p r [ts os rs ot]]. reflexivity. }
  assert (Hnamed : List.Forall (fun t => BundleTarget_Name t <> "")
                     (Spec_Targets (setTargetNames spec))).
  { unfold setTargetNames, set_Targets, Spec_Targets at 1.
    cbn [BundleSpec_rest BundleSpec_Targets].
    apply setTargetNames_loop_named. }
  split; [|split; [exact Hnamed|split; [|split; [|split]]]].
  - unfold setTargetNames, set_Targets, Spec_Targets at 1.
    cbn [BundleSpec_rest BundleSpec_Targets].
    apply setTargetNames_loop_length.
  - intros i target Hi. exists (named_at i target).
    rewrite setTargetNames_lookup, Hi. split; [reflexivity|].
    unfold named_at.
    destruct (String.eqb_spec (BundleTarget_Name target) "") as [He|He].
    + split; [|intros; contradiction].
      destruct target as [n o r]. reflexivity.
    + split; [|reflexivity]. destruct target as [n o r]. reflexivity.
  - destruct spec as [p r [ts os rs ot]]. reflexivity.
  - apply Hfix.
  - apply Hfix. exact Hnamed.
Qed.

(** X21. A target without a name at position i is named "target"
    followed by at least three decimal digits that read as i, so two
    targets that setTargetNames names get different names. *)
Theorem setTargetNames_default_names (spec : BundleSpec) (i : nat)
  (target : fleet_BundleTarget) :
  Spec_Targets spec !! i = Some target ->
  BundleTarget_Name target = "" ->
  exists target' digits,
    Spec_Targets (setTargetNames spec) !! i = Some target'
    /\ BundleTarget_Name target' = String.append "target" digits
    /\ (3 <= String.length digits)%nat
    /\ read_digits digits = Some (Z.of_nat i)
    /\ forall j other,
         Spec_Targets spec !! j = Some other ->
         BundleTarget_Name other = "" ->
         j <> i ->
         exists other',
           Spec_Targets (setTargetNames spec) !! j = Some other'
           /\ BundleTarget_Name other' <> BundleTarget_Name target'.
Proof.
  intros Hi Hn.
  exists (named_at i target), (default_digits i).
  rewrite setTargetNames_lookup, Hi.
  assert (Hname : forall k t, BundleTarget_Name t = "" ->
                    BundleTarget_Name (named_at k t) = Sprintf_target03d k).
  { intros k t Ht. unfold named_at. rewrite Ht. reflexivity. }
  split; [reflexivity|]. rewrite (Hname _ _ Hn).
  split; [apply Sprintf_target03d_digits|].
  split; [apply default_digits_length|].
  split; [apply default_digits_read|].
  intros j other Hj Ho Hne. exists (named_at j other).
  rewrite setTargetNames_lookup, Hj. split; [reflexivity|].
  rewrite (Hname _ _ Ho). intros He. apply Hne.
  apply Sprintf_target03d_inj. exact He.
Qed.


(** ** Properties of assignOverlay *)

(** The overlay the first loop makes of an overlay of the bundle, and the
    overlay the second loop makes of an entry of the map. *)
Definition assigned (overlays : gmap string (list BundleResource))
  (overlay : fleet_BundleOverlay) : fleet_BundleOverlay :=
  set_Resources overlay (index_map overlays (BundleOverlay_Name overlay)).

Definition appended (entry : string * list BundleResource)
  : fleet_BundleOverlay :=
  {| BundleOverlay_Name := fst entry;
     BundleOverlay_Overlays := [];
     BundleOverlay_Options := no_options;
     BundleOverlay_Resources := snd entry |}.

(** The bundle has an overlay of this name. *)
Definition names_overlay (bundle_Overlays : list fleet_BundleOverlay)
  (name : string) : bool :=
  existsb (fun o => String.eqb (BundleOverlay_Name o) name) bundle_Overlays.

Lemma assign_loop_fst (overlays : gmap string (list BundleResource))
  (l : list fleet_BundleOverlay) :
  forall defined,
    fst (assign_loop overlays l defined) = map (assigned overlays) l.
Proof.
  induction l as [|o rest IH]; intros defined; [reflexivity|].
  cbn [assign_loop map]. specialize (IH (<[BundleOverlay_Name o := true]> defined)).
  destruct (assign_loop overlays rest _) as [r d]. cbn [fst] in *.
  rewrite IH. reflexivity.
Qed.

Lemma assign_loop_snd (overlays : gmap string (list BundleResource))
  (l : list fleet_BundleOverlay) (name : string) :
  forall defined,
    is_defined (snd (assign_loop overlays l defined)) name
    = is_defined defined name || names_overlay l name.
Proof.
  induction l as [|o rest IH]; intros defined.
  - cbn. rewrite orb_false_r. reflexivity.
  - cbn [assign_loop names_overlay existsb].
    specialize (IH (<[BundleOverlay_Name o := true]> defined)).
    destruct (assign_loop overlays rest _) as [r d]. cbn [snd] in *.
    rewrite IH. fold (names_overlay rest name). unfold is_defined.
    destruct (String.eqb_spec (BundleOverlay_Name o) name) as [->|Hne].
    + rewrite lookup_insert_eq. cbn. rewrite orb_true_r. reflexivity.
    + rewrite lookup_insert_ne by exact Hne. reflexivity.
Qed.

Lemma append_loop_spec (defined : gmap string bool)
  (entries : list (string * list BundleResource)) :
  forall acc,
    append_loop defined entries acc
    = acc ++ map appended
               (List.filter (fun e => negb (is_defined defined (fst e))) entries).
Proof.
  induction entries as [|[name resources] rest IH]; intros acc.
  - cbn. rewrite app_nil_r. reflexivity.
  - cbn [append_loop List.filter fst].
    destruct (is_defined defined name); cbn [negb].
    + apply IH.
    + rewrite IH, <- app_assoc. reflexivity.
Qed.

Lemma filter_Permutation_bool {A : Type} (f : A -> bool) (l l' : list A) :
  Permutation l l' -> Permutation (List.filter f l) (List.filter f l').
Proof.
  induction 1 as [|x l l' _ IH|x y l|l l' l'' _ IH1 _ IH2].
  - constructor.
  - cbn. destruct (f x); [constructor|]; exact IH.
  - cbn. destruct (f x), (f y); try reflexivity. constructor.
  - etransitivity; eassumption.
Qed.

(** The overlays of the bundle before they are sorted. *)
Definition unsorted (bundle : BundleSpec)
  (overlays : gmap string (list BundleResource))
  (entries : list (string * list BundleResource)) : list fleet_BundleOverlay :=
  map (assigned overlays) (Spec_Overlays bundle)
  ++ map appended
       (List.filter
          (fun e => negb (names_overlay (Spec_Overlays bundle) (fst e)))
          entries).

Lemma assignOverlay_unfold (bundle : BundleSpec)
  (overlays : gmap string (list BundleResource)) :
  assignOverlay bundle overlays
  = set_Overlays bundle
      (sort_Slice less_by_overlay_name
         (unsorted bundle overlays (range_map overlays))).
Proof.
  unfold assignOverlay, unsorted.
  pose proof (assign_loop_fst overlays (Spec_Overlays bundle) ∅) as H1.
  pose proof (fun name =>
                assign_loop_snd overlays (Spec_Overlays bundle) name ∅) as H2.
  destruct (assign_loop overlays (Spec_Overlays bundle) ∅) as [r d].
  cbn [fst snd] in *. subst r. rewrite append_loop_spec.
  rewrite (filter_ext (fun e => negb (is_defined d (fst e)))
             (fun e => negb (names_overlay (Spec_Overlays bundle) (fst e))));
    [reflexivity|].
  intros [name resources]. cbn [fst]. rewrite H2. reflexivity.
Qed.

Lemma assignOverlay_Permutation (bundle : BundleSpec)
  (overlays : gmap string (list BundleResource)) :
  Permutation (Spec_Overlays (assignOverlay bundle overlays))
    (unsorted bundle overlays (map_to_list overlays)).
Proof.
  rewrite assignOverlay_unfold.
  unfold set_Overlays, Spec_Overlays at 1.
  cbn [BundleSpec_rest BundleSpec_Overlays].
  rewrite sort_Slice_Permutation. unfold unsorted.
  apply Permutation_app_head, Permutation_map, filter_Permutation_bool.
  apply range_map_Permutation.
Qed.

Lemma less_by_overlay_name_strict_weak_order :
  strict_weak_order less_by_overlay_name.
Proof.
  unfold less_by_overlay_name. repeat split.
  - intros a b. rewrite !ltb_negb_leb, negb_true_iff, negb_false_iff.
    intros H. destruct (String.leb_total (BundleOverlay_Name a)
                          (BundleOverlay_Name b)); congruence.
  - intros a b c. rewrite !ltb_negb_leb, !negb_true_iff.
    intros H1 H2.
    destruct (String.leb (BundleOverlay_Name c) (BundleOverlay_Name a))
      eqn:H3; [|reflexivity].
    assert (String.leb (BundleOverlay_Name b) (BundleOverlay_Name c) = true)
      as H4.
    { destruct (String.leb_total (BundleOverlay_Name b)
                  (BundleOverlay_Name c)); congruence. }
    rewrite (leb_trans _ _ _ H4 H3) in H1. discriminate.
  - intros a b c. rewrite !ltb_negb_leb, !negb_false_iff.
    intros H1 H2. exact (leb_trans _ _ _ H2 H1).
Qed.

(** The overlays are in ascending order of name. *)
Definition sorted_by_overlay_name (l : list fleet_BundleOverlay) : Prop :=
  StronglySorted
    (fun a b => String.leb (BundleOverlay_Name a) (BundleOverlay_Name b) = true)
    l.

Lemma sort_Slice_by_overlay_name (l : list fleet_BundleOverlay) :
  sorted_by_overlay_name (sort_Slice less_by_overlay_name l).
Proof.
  unfold sorted_by_overlay_name.
  pose proof (sort_Slice_Sorted _ less_by_overlay_name l
                less_by_overlay_name_strict_weak_order) as Hs.
  apply Sorted_StronglySorted.
  - intros a b c. apply leb_trans.
  - eapply Sorted_fmap with (f := fun t => t) in Hs.
    + rewrite list_fmap_id in Hs. exact Hs.
    + intros x y. cbv beta. unfold less_by_overlay_name.
      rewrite ltb_negb_leb, negb_false_iff. auto.
Qed.

Lemma names_overlay_In (l : list fleet_BundleOverlay) (name : string) :
  names_overlay l name = true <-> In name (map BundleOverlay_Name l).
Proof.
  unfold names_overlay. rewrite existsb_exists, in_map_iff.
  split; intros (o & H1 & H2).
  - exists o. apply String.eqb_eq in H2. auto.
  - exists o. split; [exact H2|]. apply String.eqb_eq. exact H1.
Qed.


Lemma unsorted_names (bundle : BundleSpec)
  (overlays : gmap string (list BundleResource))
  (entries : list (string * list BundleResource)) :
  map BundleOverlay_Name (unsorted bundle overlays entries)
  = map BundleOverlay_Name (Spec_Overlays bundle)
    ++ map fst
         (List.filter
            (fun e => negb (names_overlay (Spec_Overlays bundle) (fst e)))
            entries).
Proof.
  unfold unsorted. rewrite map_app, !map_map. reflexivity.
Qed.

Lemma In_map_to_list (overlays : gmap string (list BundleResource))
  (name : string) (resources : list BundleResource) :
  In (name, resources) (map_to_list overlays)
  <-> overlays !! name = Some resources.
Proof. rewrite <- list_elem_of_In. apply elem_of_map_to_list. Qed.

(** X22. After assignOverlay every overlay of the bundle holds exactly the
    resources the map has under its name, and no resources when the map
    has no such name; nothing of the bundle but its overlays changes. *)
Theorem assignOverlay_resources (bundle : BundleSpec)
  (overlays : gmap string (list BundleResource)) :
  List.Forall
    (fun o => BundleOverlay_Resources o
              = default [] (overlays !! BundleOverlay_Name o))
    (Spec_Overlays (assignOverlay bundle overlays))
  /\ set_Overlays (assignOverlay bundle overlays) (Spec_Overlays bundle)
     = bundle.
Proof.
  split.
  - rewrite assignOverlay_Permutation. unfold unsorted.
    apply Forall_app. split; apply List.Forall_forall; intros o Ho;
      apply in_map_iff in Ho; destruct Ho as (x & <- & Hx).
    + reflexivity.
    + apply filter_In in Hx. destruct Hx as [Hx _]. destruct x as [name res].
      apply In_map_to_list in Hx. cbn [appended fst snd BundleOverlay_Name
                                        BundleOverlay_Resources].
      rewrite Hx. reflexivity.
  - rewrite assignOverlay_unfold.
    destruct bundle as [p r [ts os rs ot]]. reflexivity.
Qed.

(** X23. After assignOverlay the overlays of the bundle are in ascending
    order of name.  They are, in some order, the overlays the bundle had,
    each with its resources replaced, and one new overlay, without
    options, for each entry of the map that no overlay of the bundle is
    named after: the names are those of the bundle's overlays and the
    keys of the map, and no overlay is dropped. *)
Theorem assignOverlay_overlays (bundle : BundleSpec)
  (overlays : gmap string (list BundleResource)) :
  sorted_by_overlay_name (Spec_Overlays (assignOverlay bundle overlays))
  /\ Permutation (Spec_Overlays (assignOverlay bundle overlays))
       (map (assigned overlays) (Spec_Overlays bundle)
        ++ map appended
             (List.filter
                (fun e => negb (names_overlay (Spec_Overlays bundle) (fst e)))
                (map_to_list overlays)))
  /\ (forall name,
         In name (map BundleOverlay_Name
                    (Spec_Overlays (assignOverlay bundle overlays)))
         <-> In name (map BundleOverlay_Name (Spec_Overlays bundle))
             \/ is_Some (overlays !! name))
  /\ (length (Spec_Overlays bundle)
      <= length (Spec_Overlays (assignOverlay bundle overlays)))%nat.
Proof.
  pose proof (assignOverlay_Permutation bundle overlays) as Hperm.
  split; [|split; [exact Hperm|split]].
  - rewrite assignOverlay_unfold.
    unfold set_Overlays, Spec_Overlays at 1.
    cbn [BundleSpec_rest BundleSpec_Overlays].
    apply sort_Slice_by_overlay_name.
  - intros name.
    assert (In name (map BundleOverlay_Name
                       (Spec_Overlays (assignOverlay bundle overlays)))
            <-> In name (map BundleOverlay_Name
                           (unsorted bundle overlays (map_to_list overlays))))
      as ->.
    { split; apply Permutation_in; [|symmetry]; apply Permutation_map;
        exact Hperm. }
    rewrite unsorted_names, in_app_iff. split.
    + intros [H|H]; [left; exact H|right].
      apply in_map_iff in H. destruct H as ([n res] & <- & Hx).
      apply filter_In in Hx. destruct Hx as [Hx _].
      apply In_map_to_list in Hx. exists res. exact Hx.
    + intros [H|[res H]]; [left; exact H|].
      destruct (names_overlay (Spec_Overlays bundle) name) eqn:Hn.
      * left. apply names_overlay_In. exact Hn.
      * right. apply in_map_iff. exists (name, res). split; [reflexivity|].
        apply filter_In. split; [apply In_map_to_list; exact H|].
        cbn [fst]. rewrite Hn. reflexivity.
  - rewrite (Permutation_length Hperm). unfold unsorted.
    rewrite length_app, length_map. lia.
Qed.

Lemma NoDup_map_fst_filter {A B : Type} (f : A * B -> bool) (l : list (A * B)) :
  List.NoDup (map fst l) -> List.NoDup (map fst (List.filter f l)).
Proof.
  induction l as [|x l IH]; intros H; [constructor|].
  inversion H as [|? ? Hx Hl]; subst. cbn [List.filter].
  destruct (f x); [|exact (IH Hl)].
  cbn [map]. constructor; [|exact (IH Hl)].
  intros Hin. apply Hx. apply in_map_iff in Hin.
  destruct Hin as (y & Hy & Hin). apply filter_In in Hin.
  apply in_map_iff. exists y. tauto.
Qed.

Lemma strictly_sorted {A : Type} (f : A -> string) (l : list A) :
  StronglySorted (fun a b => String.leb (f a) (f b) = true) l ->
  List.NoDup (map f l) ->
  StronglySorted (fun a b => String.ltb (f a) (f b) = true) l.
Proof.
  induction 1 as [|a l Hs IH Ha]; intros Hnd; constructor.
  - apply IH. inversion Hnd; assumption.
  - inversion Hnd as [|? ? Hnotin _]; subst.
    rewrite List.Forall_forall in Ha |- *. intros x Hx.
    rewrite ltb_negb_leb, negb_true_iff.
    destruct (String.leb (f x) (f a)) eqn:Hxa; [|reflexivity].
    exfalso. apply Hnotin. rewrite (leb_antisym _ _ (Ha x Hx) Hxa).
    apply in_map. exact Hx.
Qed.

(** Overlays with different names come out in strictly ascending order. *)
Lemma assignOverlay_strictly_sorted (bundle : BundleSpec)
  (overlays : gmap string (list BundleResource)) :
  List.NoDup (map BundleOverlay_Name (Spec_Overlays bundle)) ->
  StronglySorted
    (fun a b => String.ltb (BundleOverlay_Name a) (BundleOverlay_Name b) = true)
    (Spec_Overlays (assignOverlay bundle overlays)).
Proof.
  intros Hnd. apply strictly_sorted.
  - rewrite assignOverlay_unfold.
    unfold set_Overlays, Spec_Overlays at 1.
    cbn [BundleSpec_rest BundleSpec_Overlays].
    apply sort_Slice_by_overlay_name.
  - eapply Permutation_NoDup.
    + symmetry. apply Permutation_map. apply assignOverlay_Permutation.
    + rewrite unsorted_names. apply List.NoDup_app.
      * exact Hnd.
      * apply NoDup_map_fst_filter. apply NoDup_ListNoDup.
        apply NoDup_fst_map_to_list.
      * intros name Hin Hin2. apply in_map_iff in Hin2.
        destruct Hin2 as ([n res] & <- & Hx). apply filter_In in Hx.
        destruct Hx as [_ Hx]. cbn [fst] in *.
        apply names_overlay_In in Hin. rewrite Hin in Hx. discriminate.
Qed.


(** ** Properties of overlays *)

Lemma sets_Insert_elem (items : list string) :
  forall (s : gset string) (x : string),
    x ∈ sets_Insert s items <-> x ∈ s \/ In x items.
Proof.
  induction items as [|item rest IH]; intros s x.
  - cbn. tauto.
  - change (sets_Insert s (item :: rest))
      with (sets_Insert ({[item]} ∪ s) rest).
    rewrite IH, elem_of_union, elem_of_singleton. cbn [In].
    split; intros H; intuition auto.
Qed.

Lemma foldl_sets_Insert_elem {A : Type} (f : A -> list string) (l : list A) :
  forall (s : gset string) (x : string),
    x ∈ foldl (fun s t => sets_Insert s (f t)) s l
    <-> x ∈ s \/ exists t, In t l /\ In x (f t).
Proof.
  induction l as [|t rest IH]; intros s x.
  - cbn. split; [auto|]. intros [H|(t & [] & _)]. exact H.
  - cbn [foldl]. rewrite IH, sets_Insert_elem. cbn [In]. split.
    + intros [[H|H]|(t' & H1 & H2)]; [left; exact H| |].
      * right. exists t. auto.
      * right. exists t'. auto.
    + intros [H|(t' & [<-|H1] & H2)]; [auto|auto|].
      right. exists t'. auto.
Qed.

Lemma ltb_strict_weak_order : strict_weak_order String.ltb.
Proof.
  repeat split.
  - intros a b. rewrite !ltb_negb_leb, negb_true_iff, negb_false_iff.
    intros H. destruct (String.leb_total a b); congruence.
  - intros a b c. rewrite !ltb_negb_leb, !negb_true_iff.
    intros H1 H2.
    destruct (String.leb c a) eqn:H3; [|reflexivity].
    assert (String.leb b c = true) as H4.
    { destruct (String.leb_total b c); congruence. }
    rewrite (leb_trans _ _ _ H4 H3) in H1. discriminate.
  - intros a b c. rewrite !ltb_negb_leb, !negb_false_iff.
    intros H1 H2. exact (leb_trans _ _ _ H2 H1).
Qed.

Lemma ltb_irrefl (a : string) : String.ltb a a = false.
Proof.
  rewrite ltb_negb_leb, negb_false_iff.
  destruct (String.leb_total a a); assumption.
Qed.

Lemma strictly_sorted_NoDup {A : Type} (f : A -> string) (l : list A) :
  StronglySorted (fun a b => String.ltb (f a) (f b) = true) l ->
  List.NoDup (map f l).
Proof.
  induction 1 as [|a l Hs IH Ha]; cbn [map]; constructor; [|exact IH].
  intros Hin. apply in_map_iff in Hin. destruct Hin as (x & Hx & Hin).
  rewrite List.Forall_forall in Ha. specialize (Ha x Hin).
  rewrite Hx, ltb_irrefl in Ha. discriminate.
Qed.

Lemma strictly_sorted_unique {A : Type} (f : A -> string) (l1 l2 : list A) :
  StronglySorted (fun a b => String.ltb (f a) (f b) = true) l1 ->
  StronglySorted (fun a b => String.ltb (f a) (f b) = true) l2 ->
  Permutation l1 l2 ->
  l1 = l2.
Proof.
  intros H1 H2 Hp.
  assert (AntiSymm eq (fun a b : A => String.ltb (f a) (f b) = true)) as Ha.
  { intros a b Hab Hba. exfalso.
    destruct ltb_strict_weak_order as (Hasym & _ & _).
    rewrite (Hasym _ _ Hab) in Hba. discriminate. }
  exact (StronglySorted_unique _ l1 l2 H1 H2 Hp).
Qed.

Lemma sets_List_sorted (s : gset string) :
  StronglySorted (fun a b => String.ltb a b = true) (sets_List s).
Proof.
  unfold sets_List.
  apply (strictly_sorted (fun a => a)).
  - pose proof (sort_Slice_Sorted _ String.ltb (elements s)
                  ltb_strict_weak_order) as Hs.
    apply Sorted_StronglySorted.
    + intros a b c. apply leb_trans.
    + eapply Sorted_fmap with (f := fun t => t) in Hs.
      * rewrite list_fmap_id in Hs. exact Hs.
      * intros x y. cbv beta. rewrite ltb_negb_leb, negb_false_iff. auto.
  - rewrite map_id. eapply Permutation_NoDup.
    + symmetry. apply sort_Slice_Permutation.
    + apply NoDup_ListNoDup. apply NoDup_elements.
Qed.

Lemma sets_List_In (s : gset string) (x : string) :
  In x (sets_List s) <-> x ∈ s.
Proof.
  unfold sets_List. rewrite <- elem_of_elements, list_elem_of_In.
  split; apply Permutation_in; [|symmetry]; apply sort_Slice_Permutation.
Qed.

(** X25. overlays returns the overlay names that the targets and the
    overlays of the bundle refer to, each name once, in strictly
    ascending order; it is the only such list, whatever order the set of
    names is traversed in. *)
Theorem overlays_sorted_set (bundle : BundleSpec) :
  StronglySorted (fun a b => String.ltb a b = true) (overlays bundle)
  /\ (forall name,
         In name (overlays bundle)
         <-> (exists target, In target (Spec_Targets bundle)
                             /\ In name (BundleTarget_Overlays target))
             \/ (exists overlay, In overlay (Spec_Overlays bundle)
                                 /\ In name (BundleOverlay_Overlays overlay)))
  /\ (forall l,
         StronglySorted (fun a b => String.ltb a b = true) l ->
         (forall name, In name l <-> In name (overlays bundle)) ->
         l = overlays bundle).
Proof.
  assert (Hs : StronglySorted (fun a b => String.ltb a b = true)
                 (overlays bundle)) by apply sets_List_sorted.
  split; [exact Hs|]. split.
  - intros name. unfold overlays. rewrite sets_List_In.
    rewrite !foldl_sets_Insert_elem. rewrite elem_of_empty. tauto.
  - intros l Hl Hin.
    apply (strictly_sorted_unique (fun a => a)); try assumption.
    apply Permutation.NoDup_Permutation; [| |exact Hin].
    + rewrite <- (map_id l). apply (strictly_sorted_NoDup (fun a => a) l Hl).
    + rewrite <- (map_id (overlays bundle)).
      apply (strictly_sorted_NoDup (fun a => a) _ Hs).
Qed.


(** ** read, Read and Open *)

(** [bundle.Bundle], with its field [Definition], which may be nil. *)
Context {bundle_Bundle : Type}.
Variable Definition_ : bundle_Bundle -> option (@fleet_Bundle BundleSpec_fields).

Record bundleMeta : Type := {
  bundleMeta_ObjectMeta : metav1_ObjectMeta;
  bundleMeta_Manifests : string;
  bundleMeta_Overlays : string;
  bundleMeta_Chart : string
}.

(** What the file calls from elsewhere: [yaml.Unmarshal] into a pointer to
    an empty [fleet.BundleSpec], which it may leave nil, and into an empty
    [bundleMeta]; [json.Marshal] of a bundle; [readOverlays],
    [readResources] and [New] of this package, which read the files below
    the base directory and do not change the bundle; [filepath.Join], and
    [os.Open] followed by reading the file to its end.  The files do not
    change during a call. *)
Variable yaml_Unmarshal_BundleSpec :
  list Byte.byte -> option BundleSpec * option error.
Variable yaml_Unmarshal_bundleMeta :
  list Byte.byte -> bundleMeta * option error.
Variable json_Marshal :
  option (@fleet_Bundle BundleSpec_fields) -> Result (list Byte.byte).
Variable readOverlays :
  bundleMeta -> BundleSpec -> bool -> string ->
  Result (gmap string (list BundleResource)).
Variable readResources :
  bundleMeta -> bool -> string -> Result (list BundleResource).
Variable New : @fleet_Bundle BundleSpec_fields -> Result bundle_Bundle.
Variable filepath_Join : list string -> string.
Variable os_Open : string -> Result (Result (list Byte.byte)).
Variable os_Stdin : Result (list Byte.byte).

(** A call returns a bundle or an error, or panics on a nil pointer. *)
Inductive Outcome : Type :=
  | Returns (r : Result bundle_Bundle)
  | Panics.

Definition set_Spec_Resources (spec : BundleSpec)
  (resources : list BundleResource) : BundleSpec :=
  {| BundleSpec_Paused := BundleSpec_Paused spec;
     BundleSpec_RolloutStrategy := BundleSpec_RolloutStrategy spec;
     BundleSpec_rest :=
       {| BundleSpec_Targets := Spec_Targets spec;
          BundleSpec_Overlays := Spec_Overlays spec;
          BundleSpec_Resources := resources;
          BundleSpec_other := BundleSpec_other (BundleSpec_rest spec) |} |}.

Definition readMetadata (bytes : list Byte.byte) : bundleMeta * option error :=
  yaml_Unmarshal_bundleMeta bytes.

Definition size (bundle : option (@fleet_Bundle BundleSpec_fields))
  : Z * option error :=
  match json_Marshal bundle with
  | Err err => (0, Some err)
  | Ok marshalled => (len marshalled, None)
  end.

Definition meta_Name (meta : bundleMeta) : string :=
  ObjectMeta_Name (bundleMeta_ObjectMeta meta).

(** A reader is given by what [ioutil.ReadAll] makes of it. *)
Definition read (compress : bool) (baseDir : string)
  (bundleSpecReader : Result (list Byte.byte)) : Outcome :=
  let baseDir := if String.eqb baseDir "" then "./" else baseDir in
  match bundleSpecReader with
  | Err err => Returns (Err err)
  | Ok bytes =>
  match yaml_Unmarshal_BundleSpec bytes with
  | (_, Some err) => Returns (Err err)
  | (bundle, None) =>
  match readMetadata bytes with
  | (_, Some err) => Returns (Err err)
  | (meta, None) =>
  if String.eqb (meta_Name meta) ""
  then Returns (Err (Errorf "name is required in the bundle.yaml"))
  else
  match bundle with
  | None => Panics
  | Some bundle =>
  let bundle := setTargetNames bundle in
  match readOverlays meta bundle compress baseDir with
  | Err err => Returns (Err err)
  | Ok overlays =>
  match readResources meta compress baseDir with
  | Err err => Returns (Err err)
  | Ok resources =>
  let bundle := set_Spec_Resources bundle resources in
  let bundle := assignOverlay bundle overlays in
  Returns
    (New {| Bundle_Namespace :=
              ObjectMeta_Namespace (bundleMeta_ObjectMeta meta);
            Bundle_Name := meta_Name meta;
            Bundle_Spec := bundle |})
  end end end end end end.

Definition Read (baseDir : string)
  (bundleSpecReader : Result (list Byte.byte)) : Outcome :=
  match bundleSpecReader with
  | Err err => Returns (Err err)
  | Ok data =>
      match read false baseDir (Ok data) with
      | Panics => Panics
      | Returns (Err err) => Returns (Err err)
      | Returns (Ok bundle) =>
          match size (Definition_ bundle) with
          | (_, Some err) => Returns (Err err)
          | (size, None) =>
              if size <? 1000000
              then Returns (Ok bundle)
              else read true baseDir (Ok data)
          end
      end
  end.

Definition Open (baseDir file : string) : Outcome :=
  if String.eqb file ""
  then match os_Open (filepath_Join [baseDir; "bundle.yaml"]) with
       | Err err => Returns (Err err)
       | Ok f => Read baseDir f
       end
  else if String.eqb file "-"
  then Read baseDir os_Stdin
  else match os_Open (filepath_Join [baseDir; file]) with
       | Err err => Returns (Err err)
       | Ok f => Read baseDir f
       end.


(** ** Properties of read, Read and Open *)

Lemma setTargetNames_Forall_named (spec : BundleSpec) :
  List.Forall (fun t => BundleTarget_Name t <> "")
    (Spec_Targets (setTargetNames spec)).
Proof.
  unfold setTargetNames, set_Targets, Spec_Targets at 1.
  cbn [BundleSpec_rest BundleSpec_Targets].
  apply setTargetNames_loop_named.
Qed.

Lemma assignOverlay_sorted (bundle : BundleSpec)
  (overlays : gmap string (list BundleResource)) :
  sorted_by_overlay_name (Spec_Overlays (assignOverlay bundle overlays)).
Proof.
  rewrite assignOverlay_unfold.
  unfold set_Overlays, Spec_Overlays at 1.
  cbn [BundleSpec_rest BundleSpec_Overlays].
  apply sort_Slice_by_overlay_name.
Qed.

Lemma assignOverlay_Forall_resources (bundle : BundleSpec)
  (overlays : gmap string (list BundleResource)) :
  List.Forall
    (fun o => BundleOverlay_Resources o
              = default [] (overlays !! BundleOverlay_Name o))
    (Spec_Overlays (assignOverlay bundle overlays)).
Proof.
  rewrite assignOverlay_Permutation. unfold unsorted.
  apply Forall_app. split; apply List.Forall_forall; intros o Ho;
    apply in_map_iff in Ho; destruct Ho as (x & <- & Hx).
  - reflexivity.
  - apply filter_In in Hx. destruct Hx as [Hx _]. destruct x as [name res].
    apply In_map_to_list in Hx.
    cbn [appended fst snd BundleOverlay_Name BundleOverlay_Resources].
    rewrite Hx. reflexivity.
Qed.

Lemma assignOverlay_rest (bundle : BundleSpec)
  (overlays : gmap string (list BundleResource)) :
  Spec_Targets (assignOverlay bundle overlays) = Spec_Targets bundle
  /\ BundleSpec_Resources (BundleSpec_rest (assignOverlay bundle overlays))
     = BundleSpec_Resources (BundleSpec_rest bundle).
Proof. rewrite assignOverlay_unfold. split; reflexivity. Qed.

(** X27. The bundle that a successful read hands to New is normalised:
    it is named after the metadata of the file, which has a name; its
    targets are those of the file with every unnamed target named by
    setTargetNames, which is also the bundle that readOverlays was given;
    its resources are the ones readResources returned; and its overlays
    are in ascending order of name, each with the resources that
    readOverlays returned under its name.  An empty base directory is
    read as "./". *)
Theorem read_normalises (compress : bool) (baseDir : string)
  (bundleSpecReader : Result (list Byte.byte)) (b : bundle_Bundle) :
  read compress baseDir bundleSpecReader = Returns (Ok b) ->
  exists bytes spec meta overlays resources definition,
    bundleSpecReader = Ok bytes
    /\ yaml_Unmarshal_BundleSpec bytes = (Some spec, None)
    /\ readMetadata bytes = (meta, None)
    /\ meta_Name meta <> ""
    /\ readOverlays meta (setTargetNames spec) compress
         (if String.eqb baseDir "" then "./" else baseDir) = Ok overlays
    /\ readResources meta compress
         (if String.eqb baseDir "" then "./" else baseDir) = Ok resources
    /\ New definition = Ok b
    /\ Bundle_Name definition = meta_Name meta
    /\ Spec_Targets (Bundle_Spec definition)
       = Spec_Targets (setTargetNames spec)
    /\ List.Forall (fun t => BundleTarget_Name t <> "")
         (Spec_Targets (Bundle_Spec definition))
    /\ BundleSpec_Resources (BundleSpec_rest (Bundle_Spec definition))
       = resources
    /\ sorted_by_overlay_name (Spec_Overlays (Bundle_Spec definition))
    /\ List.Forall
         (fun o => BundleOverlay_Resources o
                   = default [] (overlays !! BundleOverlay_Name o))
         (Spec_Overlays (Bundle_Spec definition)).
Proof.
  unfold read. intros H.
  destruct bundleSpecReader as [bytes|e]; [|discriminate].
  destruct (yaml_Unmarshal_BundleSpec bytes) as [bundle [e|]] eqn:Hu;
    [discriminate|].
  destruct (readMetadata bytes) as [meta [e|]] eqn:Hm; [discriminate|].
  destruct (String.eqb_spec (meta_Name meta) "") as [Hn|Hn]; [discriminate|].
  destruct bundle as [spec|]; [|discriminate].
  destruct (readOverlays meta (setTargetNames spec) compress _)
    as [overlays|e] eqn:Ho; [|discriminate].
  destruct (readResources meta compress _) as [resources|e] eqn:Hr;
    [|discriminate].
  injection H as H.
  eexists bytes, spec, meta, overlays, resources, _.
  split; [reflexivity|]. split; [exact Hu|]. split; [exact Hm|].
  split; [exact Hn|]. split; [exact Ho|]. split; [exact Hr|].
  split; [exact H|]. cbn [Bundle_Name Bundle_Spec].
  destruct (assignOverlay_rest
              (set_Spec_Resources (setTargetNames spec) resources) overlays)
    as [Ht Hres].
  split; [reflexivity|]. split; [exact Ht|]. split.
  { rewrite Ht. apply setTargetNames_Forall_named. }
  split; [exact Hres|]. split.
  - apply assignOverlay_sorted.
  - apply assignOverlay_Forall_resources.
Qed.

(** X28. Read returns the bundle read without compression when the JSON
    of its definition is shorter than 1000000 bytes, and otherwise reads
    the same data again with compression and returns that result; a
    failure of the first read or of the marshalling is returned as it
    is.  Open with no file name behaves as Open with "bundle.yaml", and
    with the name "-" it is Read of the standard input, whatever os.Open
    would return. *)
Theorem Read_compresses_large (baseDir : string) (data : list Byte.byte)
  (plain : bundle_Bundle) :
  read false baseDir (Ok data) = Returns (Ok plain) ->
  (forall n,
     size (Definition_ plain) = (n, None) ->
     (n < 1000000 -> Read baseDir (Ok data) = Returns (Ok plain))
     /\ (1000000 <= n -> Read baseDir (Ok data) = read true baseDir (Ok data)))
  /\ (forall n err,
        size (Definition_ plain) = (n, Some err) ->
        Read baseDir (Ok data) = Returns (Err err))
  /\ Open baseDir "" = Open baseDir "bundle.yaml"
  /\ Open baseDir "-" = Read baseDir os_Stdin.
Proof.
  intros Hplain. split; [|split; [|split; reflexivity]].
  - intros n Hsize. unfold Read. rewrite Hplain, Hsize. split; intros Hn.
    + apply Z.ltb_lt in Hn. rewrite Hn. reflexivity.
    + apply Z.ltb_ge in Hn. rewrite Hn. reflexivity.
  - intros n err Hsize. unfold Read. rewrite Hplain, Hsize. reflexivity.
Qed.

(** X29. A bundle file whose metadata has no name is rejected by read and
    by Read with the error "name is required in the bundle.yaml",
    whatever the bundle spec is, also when it was left nil, and whatever
    readOverlays and readResources would return.  Both decoders read the
    same bytes: when a document that leaves the bundle spec nil also
    leaves the metadata without a name, as the document null does, the
    name is checked before the spec is used, and read and Read never
    panic. *)
Theorem read_name_required (compress : bool) (baseDir : string)
  (bytes : list Byte.byte) :
  (forall bundle meta,
     yaml_Unmarshal_BundleSpec bytes = (bundle, None) ->
     readMetadata bytes = (meta, None) ->
     meta_Name meta = "" ->
     read compress baseDir (Ok bytes)
     = Returns (Err (Errorf "name is required in the bundle.yaml"))
     /\ Read baseDir (Ok bytes)
        = Returns (Err (Errorf "name is required in the bundle.yaml")))
  /\ ((forall meta,
         yaml_Unmarshal_BundleSpec bytes = (None, None) ->
         readMetadata bytes = (meta, None) ->
         meta_Name meta = "") ->
      read compress baseDir (Ok bytes) <> Panics
      /\ Read baseDir (Ok bytes) <> Panics).
Proof.
  split.
  - intros bundle meta Hu Hm Hn.
    assert (Hempty : forall c,
              read c baseDir (Ok bytes)
              = Returns (Err (Errorf "name is required in the bundle.yaml"))).
    { intros c. unfold read. rewrite Hu, Hm, Hn. reflexivity. }
    split; [apply Hempty|].
    unfold Read. rewrite (Hempty false). reflexivity.
  - intros Hnull.
    assert (Hread : forall c, read c baseDir (Ok bytes) <> Panics).
    { intros c. unfold read.
      destruct (yaml_Unmarshal_BundleSpec bytes) as [bundle [e|]] eqn:Hu;
        [discriminate|].
      destruct (readMetadata bytes) as [meta [e|]] eqn:Hm; [discriminate|].
      destruct (String.eqb_spec (meta_Name meta) "") as [Hn|Hn];
        [discriminate|].
      destruct bundle as [spec|].
      - destruct (readOverlays meta (setTargetNames spec) c _);
          [|discriminate].
        destruct (readResources meta c _); discriminate.
      - exfalso. apply Hn. exact (Hnull meta eq_refl eq_refl). }
    split; [apply Hread|].
    unfold Read. pose proof (Hread false) as Hfalse.
    destruct (read false baseDir (Ok bytes)) as [[b|e]|];
      [|discriminate|contradiction].
    destruct (size (Definition_ b)) as [n [e|]]; [discriminate|].
    destruct (n <? 1000000); [discriminate|apply Hread].
Qed.


End Read.

(** X24. When the overlays of the bundle have different names, the result
    of assignOverlay does not depend on the order in which the map is
    traversed nor on how the sort orders equal elements: any two
    traversals and any two sorts give the same bundle. *)
Theorem assignOverlay_deterministic
  {BundleResource BundleDeploymentOptions BundleTargetRest BundleSpecOther : Type}
  (r1 r2 : MapRange) (s1 s2 : SortSlice)
  (no_options : BundleDeploymentOptions)
  (bundle : @BundleSpec BundleResource BundleDeploymentOptions
              BundleTargetRest BundleSpecOther)
  (overlays : gmap string (list BundleResource)) :
  List.NoDup (map BundleOverlay_Name (Spec_Overlays bundle)) ->
  assignOverlay (ranger := r1) (sorter := s1) no_options bundle overlays
  = assignOverlay (ranger := r2) (sorter := s2) no_options bundle overlays.
Proof.
  intros Hnd.
  assert (E : forall (r : MapRange) (s : SortSlice),
             assignOverlay (ranger := r) (sorter := s) no_options bundle overlays
             = set_Overlays bundle
                 (Spec_Overlays
                    (assignOverlay (ranger := r) (sorter := s)
                       no_options bundle overlays))).
  { intros r s. rewrite assignOverlay_unfold. reflexivity. }
  rewrite (E r1 s1), (E r2 s2). f_equal.
  apply (strictly_sorted_unique BundleOverlay_Name).
  - apply assignOverlay_strictly_sorted. exact Hnd.
  - apply assignOverlay_strictly_sorted. exact Hnd.
  - rewrite (assignOverlay_Permutation (ranger := r1) (sorter := s1)).
    rewrite (assignOverlay_Permutation (ranger := r2) (sorter := s2)).
    reflexivity.
Qed.


(** * A small fleet, for concrete runs *)

(** [sort.Slice] by merge sort. *)
Definition not_less {A : Type} (less : A -> A -> bool) (a b : A) : Prop :=
  less b a = false.

#[export] Instance not_less_dec {A : Type} (less : A -> A -> bool) :
  RelDecision (not_less less).
Proof. intros a b. unfold not_less. apply _. Defined.

Lemma merge_sort_Sorted_not_less (A : Type) (less : A -> A -> bool)
  (l : list A) :
  strict_weak_order less ->
  Sorted (fun a b => less b a = false) (merge_sort (not_less less) l).
Proof.
  intros (Hasym & _ & _).
  assert (Total (not_less less)) as Htotal.
  { intros a b. unfold not_less. destruct (less b a) eqn:Hba; [|left; reflexivity].
    right. apply Hasym. exact Hba. }
  exact (Sorted_merge_sort (not_less less) l).
Qed.

Lemma merge_sort_Permutation_not_less (A : Type) (less : A -> A -> bool)
  (l : list A) :
  Permutation (merge_sort (not_less less) l) l.
Proof. apply merge_sort_Permutation. Qed.

Definition merge_sorter : SortSlice :=
  {| sort_Slice := fun A less => merge_sort (not_less less);
     sort_Slice_Permutation := merge_sort_Permutation_not_less;
     sort_Slice_Sorted := merge_sort_Sorted_not_less |}.

Module Fleet.

(** A label selector of this fleet: the pairs of its [matchLabels]. It
    is not valid when a key is empty. *)
Definition selector_valid (selector : list (string * string)) : bool :=
  forallb (fun kv => negb (String.eqb (fst kv) "")) selector.

Definition selector_matches (sel : list (string * string))
  (labels : gmap string string) : bool :=
  forallb (fun kv => match labels !! fst kv with
                     | Some v => String.eqb v (snd kv)
                     | None => false
                     end) sel.

(** The packages: a bundle is its list of target definitions, each the
    name of a cluster group; the first one that names a cluster group of
    the cluster matches. [fail_on] names the manifest that the option
    merge rejects, if any. *)
Definition packages (fail_on : option string)
  : @Packages (list (string * string)) (list (string * string))
              (list string) string string string
              (string * list string) (string * string) :=
  {| LabelSelectorAsSelector := fun selector =>
       if selector_valid selector then Ok selector
       else Err (Errorf "invalid label key");
     Matches := selector_matches;
     bundle_New := fun b =>
       if String.eqb (Bundle_Name b) ""
       then Err (Errorf "name is required")
       else Ok (Bundle_Name b, BundleSpec_rest (Bundle_Spec b));
     Match := fun bundle groups _ =>
       match List.filter (fun g => match groups !! g with
                                   | Some _ => true
                                   | None => false
                                   end) (snd bundle) with
       | g :: _ => Some (fst bundle, g)
       | [] => None
       end;
     Match_Manifest := fun mt => Ok (fst mt);
     Match_Target := fun mt => snd mt;
     options_Calculate := fun _ target =>
       if match fail_on with
          | Some t => String.eqb t target
          | None => false
          end
       then Err (Errorf "cannot merge options")
       else Ok target;
     options_DeploymentID := fun manifest opts =>
       Ok (String.append manifest (String.append ":" opts)) |}.

Definition cluster (name env : string) : fleet_Cluster :=
  {| Cluster_Namespace := "fleet-default";
     Cluster_Name := name;
     Cluster_Labels := <["env" := env]> ∅;
     Cluster_Spec_Paused := false;
     Cluster_Status_Namespace := String.append "cluster-" name |}.

Definition west : fleet_Cluster := cluster "west" "prod".
Definition east : fleet_Cluster := cluster "east" "prod".
Definition dev : fleet_Cluster := cluster "dev" "dev".

Definition group (name : string) (selector : option (list (string * string)))
  : @fleet_ClusterGroup (list (string * string)) :=
  {| ClusterGroup_Namespace := "fleet-default";
     ClusterGroup_Name := name;
     ClusterGroup_Labels := ∅;
     ClusterGroup_Spec_Selector := selector |}.

Definition prod : @fleet_ClusterGroup (list (string * string)) :=
  group "prod" (Some [("env", "prod")]).
Definition broken : @fleet_ClusterGroup (list (string * string)) :=
  group "broken" (Some [("", "prod")]).
Definition unselective : @fleet_ClusterGroup (list (string * string)) :=
  group "unselective" None.

Definition deployment (namespace staged spec applied : string) (ready : bool)
  : fleet_BundleDeployment :=
  {| BundleDeployment_Namespace := namespace;
     BundleDeployment_Name := "app";
     BundleDeployment_Labels := ∅;
     Spec_StagedDeploymentID := staged;
     Spec_DeploymentID := spec;
     Status_AppliedDeploymentID := applied;
     Status_Ready := ready |}.

(** The manager: three clusters, three cluster groups, and the given
    answer of the bundle deployment cache. *)
Definition manager
  (deployments : Result (list fleet_BundleDeployment))
  : @Manager (list (string * string)) (list string) string (list string) :=
  {| clusters_List := fun _ _ => Ok [west; east; dev];
     clusterGroups_List := fun _ _ => Ok [broken; prod; unselective];
     bundleDeploymentCache_List := fun _ _ => deployments;
     bundleCache_List := fun _ _ => Ok [];
     contentStore_Store := fun manifest stored =>
       (Ok manifest, stored ++ [manifest]) |}.

Definition app : @fleet_Bundle (list string) :=
  {| Bundle_Namespace := "fleet-default";
     Bundle_Name := "app";
     Bundle_Spec := {| BundleSpec_Paused := false;
                       BundleSpec_RolloutStrategy := None;
                       BundleSpec_rest := ["canary"; "prod"] |} |}.

Definition start : @State (list (string * string)) (list string) :=
  {| content := []; log := [] |}.

Definition recorded : list fleet_BundleDeployment :=
  [deployment "cluster-east" "app:prod" "app:prod" "app:prod" true;
   deployment "cluster-west" "app:prod" "app:prod" "app:old" true].

(** The target of the bundle on a cluster of the group [prod], with the
    deployment recorded for it, if any. *)
Definition target (c : fleet_Cluster) (d : option fleet_BundleDeployment)
  : @Target (list (string * string)) (list string) string string :=
  {| Deployment := d;
     ClusterGroups := [prod];
     Cluster := c;
     Bundle := app;
     Target_BundleTarget := "prod";
     Options := "prod";
     DeploymentID := "app:prod" |}.

Definition east_target
  : @Target (list (string * string)) (list string) string string :=
  target east
    (Some (deployment "cluster-east" "app:prod" "app:prod" "app:prod" true)).

Definition west_target
  : @Target (list (string * string)) (list string) string string :=
  target west
    (Some (deployment "cluster-west" "app:prod" "app:prod" "app:old" true)).

Definition targets
  : list (@Target (list (string * string)) (list string) string string) :=
  [east_target; west_target].

(** The log after the cluster groups of the three clusters are looked up. *)
Definition broken_logged : @LogEntry (list (string * string)) :=
  invalid_selector "fleet-default" "broken" [("", "prod")]
    (Errorf "invalid label key").

Definition finish : @State (list (string * string)) (list string) :=
  {| content := ["app"; "app"];
     log := [broken_logged; broken_logged; broken_logged] |}.

Definition partition : fleet_PartitionStatus :=
  {| PartitionStatus_Name := "all";
     PartitionStatus_Count := 2;
     PartitionStatus_MaxUnavailable := 0;
     PartitionStatus_Unavailable := 7 |}.

End Fleet.

(** ** Runs on the small fleet *)

Lemma Targets_failure_witness :
  (exists st',
     Targets (Fleet.manager (Ok Fleet.recorded)) (Fleet.packages (Some "prod"))
       (sorter := merge_sorter) Fleet.app Fleet.start
     = (([], Some (Errorf "cannot merge options")), st'))
  /\ (LabelSelectorAsSelector (Fleet.packages None) [("", "prod")]
      = Err (Errorf "invalid label key")
      /\ snd (fst (Targets (Fleet.manager (Ok Fleet.recorded))
                     (Fleet.packages None) (sorter := merge_sorter)
                     Fleet.app Fleet.start)) = None).
Proof.
  split.
  - destruct (Targets_failure (Fleet.manager (Ok Fleet.recorded))
                (Fleet.packages (Some "prod")) (sorter := merge_sorter)
                Fleet.app Fleet.start (Errorf "cannot merge options"))
      as (_ & _ & H & _).
    apply (H ("app", ["canary"; "prod"]) [] Fleet.west [Fleet.east; Fleet.dev]
             [] Fleet.start eq_refl eq_refl eq_refl).
    eapply options_fail; reflexivity.
  - split; [reflexivity|].
    destruct (Targets_failure (Fleet.manager (Ok Fleet.recorded))
                (Fleet.packages None) (sorter := merge_sorter)
                Fleet.app Fleet.start (Errorf "invalid label key"))
      as (_ & _ & _ & _ & _ & _ & H & _).
    apply (H ("app", ["canary"; "prod"]) [Fleet.west; Fleet.east; Fleet.dev]
             Fleet.recorded eq_refl eq_refl).
    + intros cluster _. exists [Fleet.broken; Fleet.prod; Fleet.unselective].
      reflexivity.
    + intros cluster _ _ cgs match_ _ _.
      exists (fst match_), (snd match_),
        (String.append (fst match_) (String.append ":" (snd match_))).
      split; [reflexivity|]. split; [reflexivity|]. split; [reflexivity|].
      intros c. exists (fst match_). reflexivity.
    + reflexivity.
Defined.

(** A cluster group with a selector that cannot be evaluated does not
    make Targets fail; and when the listing of the bundle deployments
    fails, the sorted targets are returned together with the error. *)
Lemma Targets_failure_counterexample :
  (LabelSelectorAsSelector (Fleet.packages None) [("", "prod")]
   = Err (Errorf "invalid label key")
   /\ Targets (Fleet.manager (Ok Fleet.recorded)) (Fleet.packages None)
        (sorter := merge_sorter) Fleet.app Fleet.start
      = ((Fleet.targets, None), Fleet.finish))
  /\ Targets (Fleet.manager (Err (Errorf "cache not synced")))
       (Fleet.packages None) (sorter := merge_sorter) Fleet.app Fleet.start
     = (([Fleet.target Fleet.east None; Fleet.target Fleet.west None],
         Some (Errorf "cache not synced")),
        Fleet.finish).
Proof. repeat split; vm_compute; reflexivity. Qed.

Lemma Limit_invalid_budget_witness :
  Limit ParseFloat_digits int_unrepresentable_amd64 7
    [None; Some (FromString "abc%")]
  = (0, Some (parse_failure (NumError "ParseFloat" "abc" ErrSyntax)
                (FromString "abc%")))
  /\ Limit ParseFloat_digits int_unrepresentable_amd64 7
       [Some (FromString "-3")]
     = (0, Some (not_a_percentage (FromString "-3"))).
Proof.
  split.
  - destruct (Limit_invalid_budget ParseFloat_digits
                int_unrepresentable_amd64 7 [None; Some (FromString "abc%")]
                eq_refl eq_refl) as (H & _).
    assert (IntValue (selected_budget [None; Some (FromString "abc%")]) <= 0)
      as Hi by (vm_compute; discriminate).
    exact (proj1 (proj2 (H Hi) eq_refl (S754_zero false) _ eq_refl)).
  - destruct (Limit_invalid_budget ParseFloat_digits
                int_unrepresentable_amd64 7 [Some (FromString "-3")]
                eq_refl eq_refl) as (H & _).
    assert (IntValue (selected_budget [Some (FromString "-3")]) <= 0)
      as Hi by (vm_compute; discriminate).
    exact (proj1 (proj1 (H Hi) eq_refl)).
Defined.

(** Limit(10, "10"): a string that does not end in a percent sign, and
    no error. *)
Lemma Limit_invalid_budget_counterexample :
  HasSuffix "10" "%" = false
  /\ Limit ParseFloat_digits int_unrepresentable_amd64 10
       [Some (FromString "10")]
     = (10, None).
Proof. split; reflexivity. Qed.

Lemma Limit_explicit_budget_witness :
  Limit ParseFloat_digits int_unrepresentable_amd64 30
    [Some (FromString "25%")]
  = (7, None).
Proof.
  destruct (Limit_explicit_budget ParseFloat_digits int_unrepresentable_amd64
              30 [Some (FromString "25%")] (FromString "25%") eq_refl eq_refl)
    as (_ & H & _).
  assert (IntValue (FromString "25%") <= 0) as Hi
    by (vm_compute; discriminate).
  exact (H eq_refl eq_refl Hi (float64_of_int 25) eq_refl eq_refl).
Defined.

(** Limit(1, "99999999999999999999%"): the twentieth digit overflows, the
    integer value of the string is the greatest [int], and Limit returns
    it, whatever the float parser; the percentage, 1e20, is positive,
    and the formula of the claim gives 1 on amd64. *)
Lemma Limit_explicit_budget_counterexample :
  (forall ParseFloat int_unrepresentable,
     Limit ParseFloat int_unrepresentable 1
       [Some (FromString "99999999999999999999%")]
     = (MaxInt, None))
  /\ HasSuffix "99999999999999999999%" "%" = true
  /\ (let percent := fst (ParseFloat_digits "99999999999999999999") in
      snd (ParseFloat_digits "99999999999999999999") = None
      /\ float64_pos percent = true
      /\ Z.quot (int_of_float64 int_unrepresentable_amd64
                   (float64_mul (float64_of_int 1) percent)) 100 <= 0).
Proof.
  split; [|split; [|split; [|split]]].
  - intros ParseFloat int_unrepresentable. reflexivity.
  - reflexivity.
  - reflexivity.
  - reflexivity.
  - vm_compute. discriminate.
Qed.

Lemma Limit_at_least_one_slot_witness :
  Limit ParseFloat_digits int_unrepresentable_amd64 25 [None] = (2, None).
Proof.
  destruct (Limit_at_least_one_slot ParseFloat_digits
              int_unrepresentable_amd64) as (_ & _ & H).
  exact (H 25 [None] eq_refl eq_refl eq_refl eq_refl).
Defined.

(** With no budget and count = 3602879701896410 the product
    float64(count) * 10 is rounded down past a multiple of 100. And for
    the budget "99999999999999999999e-999%", whose numeral a float parser
    reads as zero, Limit returns the integer value of the string, the
    greatest [int], before it parses the percentage. *)
Lemma Limit_at_least_one_slot_counterexample :
  (ParseFloat_digits "10" = (float64_of_int 10, None)
   /\ Limit ParseFloat_digits int_unrepresentable_amd64 3602879701896410 []
      = (360287970189640, None)
   /\ Z.max 1 (3602879701896410 * 10 / 100) = 360287970189641)
  /\ (forall ParseFloat int_unrepresentable,
        ParseFloat "99999999999999999999e-999" = (S754_zero false, None) ->
        HasSuffix "99999999999999999999e-999%" "%" = true
        /\ float64_le_zero (S754_zero false) = true
        /\ Limit ParseFloat int_unrepresentable 1
             [Some (FromString "99999999999999999999e-999%")]
           = (MaxInt, None)).
Proof.
  split.
  - repeat split; vm_compute; reflexivity.
  - intros ParseFloat int_unrepresentable _. repeat split.
Qed.

Lemma Limit_string_budget_at_least_one_witness :
  exists v,
    Limit ParseFloat_digits int_unrepresentable_amd64 3
      [Some (FromString "50%")] = (v, None)
    /\ 1 <= v.
Proof.
  exists 1. split; [reflexivity|].
  apply (proj1 (@Limit_string_budget_at_least_one
                  unit unit unit unit unit ParseFloat_digits
                  int_unrepresentable_amd64 3 [Some (FromString "50%")] 1
                  eq_refl eq_refl)).
  reflexivity.
Defined.

Lemma UpToDate_iff_witness :
  UpToDate Fleet.east_target = true /\ UpToDate Fleet.west_target = false.
Proof.
  split.
  - apply (proj2 (UpToDate_iff Fleet.east_target) _ eq_refl).
    repeat split; reflexivity.
  - destruct (UpToDate Fleet.west_target) eqn:H; [|reflexivity].
    apply (proj2 (UpToDate_iff Fleet.west_target) _ eq_refl) in H.
    destruct H as (_ & _ & H). discriminate H.
Defined.

Lemma Unavailable_count_witness : Unavailable Fleet.targets = 1.
Proof.
  rewrite (proj2 (proj2 Unavailable_count) Fleet.targets)
    by (vm_compute; discriminate).
  reflexivity.
Defined.

Lemma IsPartitionUnavailable_count_witness :
  IsPartitionUnavailable Fleet.partition Fleet.targets
  = (true, set_Unavailable Fleet.partition 1).
Proof.
  assert (len Fleet.targets <= MaxInt) as Hlen by (vm_compute; discriminate).
  pose proof (IsPartitionUnavailable_count Fleet.partition Fleet.targets Hlen)
    as (Hs & Hr & _).
  destruct (IsPartitionUnavailable Fleet.partition Fleet.targets) as [b s].
  cbn [fst snd] in Hs, Hr.
  assert (b = true) as -> by (apply Hr; reflexivity).
  rewrite Hs. reflexivity.
Defined.

Lemma Targets_sorted_one_per_matched_cluster_witness :
  (map (fun t => Cluster_Name (Cluster t)) Fleet.targets = ["east"; "west"]
   /\ exists bundle clusters,
        bundle_New (Fleet.packages None) Fleet.app = Ok bundle
        /\ clusters_List (Fleet.manager (Ok Fleet.recorded)) "fleet-default"
             Everything = Ok clusters
        /\ Permutation (map Cluster Fleet.targets)
             (List.filter
                (matched (Fleet.manager (Ok Fleet.recorded))
                   (Fleet.packages None) bundle) clusters)
        /\ sorted_by_cluster_name Fleet.targets
        /\ (List.NoDup clusters -> List.NoDup (map Cluster Fleet.targets))
        /\ List.Forall (fun t => Bundle t = Fleet.app) Fleet.targets)
  /\ (matched (Fleet.manager (Ok Fleet.recorded)) (Fleet.packages None)
        ("app", ["canary"; "prod"]) Fleet.dev = false
      /\ exists result st',
           Targets (Fleet.manager (Ok Fleet.recorded)) (Fleet.packages None)
             (sorter := merge_sorter) Fleet.app Fleet.start
           = ((result, None), st')
           /\ Permutation (map Cluster result)
                (List.filter
                   (matched (Fleet.manager (Ok Fleet.recorded))
                      (Fleet.packages None) ("app", ["canary"; "prod"]))
                   [Fleet.west; Fleet.east; Fleet.dev])).
Proof.
  split.
  - split; [reflexivity|].
    apply (proj1 (Targets_sorted_one_per_matched_cluster
                    (Fleet.manager (Ok Fleet.recorded)) (Fleet.packages None)
                    (sorter := merge_sorter) Fleet.app Fleet.start)
             Fleet.finish Fleet.targets).
    vm_compute. reflexivity.
  - split; [vm_compute; reflexivity|].
    apply (proj1 (proj2 (Targets_sorted_one_per_matched_cluster
                           (Fleet.manager (Ok Fleet.recorded))
                           (Fleet.packages None) (sorter := merge_sorter)
                           Fleet.app Fleet.start))
             ("app", ["canary"; "prod"]) [Fleet.west; Fleet.east; Fleet.dev]
             Fleet.recorded eq_refl eq_refl).
    + intros cluster _. exists [Fleet.broken; Fleet.prod; Fleet.unselective].
      reflexivity.
    + intros cluster _ _ cgs match_ _ _.
      exists (fst match_), (snd match_),
        (String.append (fst match_) (String.append ":" (snd match_))).
      split; [reflexivity|]. split; [reflexivity|]. split; [reflexivity|].
      intros c. exists (fst match_). reflexivity.
    + reflexivity.
Defined.

Lemma ClusterGroupsForCluster_spec_witness :
  ClusterGroupsForCluster (Fleet.manager (Ok Fleet.recorded))
    (Fleet.packages None) Fleet.west Fleet.start
  = (([Fleet.prod], None),
     {| content := []; log := [Fleet.broken_logged] |}).
Proof.
  exact (proj1 (ClusterGroupsForCluster_spec
                  (Fleet.manager (Ok Fleet.recorded)) (Fleet.packages None)
                  Fleet.west Fleet.start
                  [Fleet.broken; Fleet.prod; Fleet.unselective] eq_refl)).
Defined.

(** ** Further runs on the small fleet *)

Module Catalog.

(** A bundle without a name, which [bundle.New] of the small fleet
    rejects. *)
Definition nameless : @fleet_Bundle (list string) :=
  {| Bundle_Namespace := "fleet-default";
     Bundle_Name := "";
     Bundle_Spec := {| BundleSpec_Paused := false;
                       BundleSpec_RolloutStrategy := None;
                       BundleSpec_rest := ["prod"] |} |}.

(** A bundle for a cluster group that does not exist. *)
Definition elsewhere : @fleet_Bundle (list string) :=
  {| Bundle_Namespace := "fleet-default";
     Bundle_Name := "elsewhere";
     Bundle_Spec := {| BundleSpec_Paused := false;
                       BundleSpec_RolloutStrategy := None;
                       BundleSpec_rest := ["staging"] |} |}.

(** The manager of the small fleet with three bundles in its bundle
    cache. *)
Definition manager
  : @Manager (list (string * string)) (list string) string (list string) :=
  {| clusters_List := clusters_List (Fleet.manager (Ok Fleet.recorded));
     clusterGroups_List :=
       clusterGroups_List (Fleet.manager (Ok Fleet.recorded));
     bundleDeploymentCache_List :=
       bundleDeploymentCache_List (Fleet.manager (Ok Fleet.recorded));
     bundleCache_List := fun _ _ => Ok [nameless; Fleet.app; elsewhere];
     contentStore_Store :=
       contentStore_Store (Fleet.manager (Ok Fleet.recorded)) |}.

(** A manager with no cluster. *)
Definition empty_manager
  : @Manager (list (string * string)) (list string) string (list string) :=
  {| clusters_List := fun _ _ => Ok [];
     clusterGroups_List := fun _ _ => Err (Errorf "cache not synced");
     bundleDeploymentCache_List := fun _ _ => Ok Fleet.recorded;
     bundleCache_List := fun _ _ => Ok [];
     contentStore_Store := fun manifest stored =>
       (Ok manifest, stored ++ [manifest]) |}.

End Catalog.

Lemma foldInDeployments_join_witness :
  foldInDeployments (Fleet.manager (Ok Fleet.recorded)) Fleet.app
    [Fleet.target Fleet.west None; Fleet.target Fleet.dev None]
  = ([Fleet.west_target; Fleet.target Fleet.dev None], None).
Proof.
  rewrite (proj1 (foldInDeployments_join (Fleet.manager (Ok Fleet.recorded))
                    Fleet.app _) Fleet.recorded eq_refl).
  vm_compute. reflexivity.
Defined.

Lemma BundleFromDeployment_DeploymentLabels_witness :
  BundleFromDeployment
    {| BundleDeployment_Namespace := "cluster-east";
       BundleDeployment_Name := "app";
       BundleDeployment_Labels :=
         <["team" := "web"]> (DeploymentLabels Fleet.app);
       Spec_StagedDeploymentID := "";
       Spec_DeploymentID := "";
       Status_AppliedDeploymentID := "";
       Status_Ready := false |}
  = ("fleet-default", "app").
Proof.
  apply (BundleFromDeployment_DeploymentLabels Fleet.app).
  apply insert_subseteq. vm_compute. reflexivity.
Defined.

Lemma UpToDate_unavailable_iff_not_ready_witness :
  exists d,
    Deployment Fleet.east_target = Some d
    /\ Status_AppliedDeploymentID d = Spec_DeploymentID d
    /\ IsUnavailable (Deployment Fleet.east_target) = negb (Status_Ready d)
    /\ (negb (UpToDate Fleet.east_target)
        || IsUnavailable (Deployment Fleet.east_target))
       = negb (Status_Ready d).
Proof.
  apply (UpToDate_unavailable_iff_not_ready Fleet.east_target). reflexivity.
Defined.

Lemma unavailable_counts_bounded_witness :
  0 <= Unavailable Fleet.targets <= 2
  /\ fst (IsPartitionUnavailable
            (set_Unavailable
               {| PartitionStatus_Name := "all";
                  PartitionStatus_Count := 2;
                  PartitionStatus_MaxUnavailable := 2;
                  PartitionStatus_Unavailable := 0 |} 9)
            Fleet.targets) = false.
Proof.
  assert (len Fleet.targets <= MaxInt) as Hlen by (vm_compute; discriminate).
  destruct (unavailable_counts_bounded
              (set_Unavailable
                 {| PartitionStatus_Name := "all";
                    PartitionStatus_Count := 2;
                    PartitionStatus_MaxUnavailable := 2;
                    PartitionStatus_Unavailable := 0 |} 9)
              Fleet.targets Hlen) as (H1 & _ & H3 & _).
  split; [exact H1|]. apply H3. vm_compute. discriminate.
Defined.

Lemma unavailable_counts_app_witness :
  Unavailable (Fleet.targets ++ [Fleet.west_target])
  = Unavailable Fleet.targets + Unavailable [Fleet.west_target].
Proof.
  apply (unavailable_counts_app Fleet.partition Fleet.targets
           [Fleet.west_target]).
  vm_compute. discriminate.
Defined.

Lemma Limit_error_inv_witness :
  IntValue (FromString "half") <= 0
  /\ InvalidBudget (not_a_percentage (FromString "half")).
Proof.
  destruct (Limit_error_inv ParseFloat_digits int_unrepresentable_amd64 4
              [Some (FromString "half")] 0
              (not_a_percentage (FromString "half")) eq_refl)
    as (_ & _ & _ & Hi & He & _).
  split; [exact Hi | exact He].
Defined.

Lemma Limit_default_never_fails_witness :
  exists v,
    Limit ParseFloat_digits int_unrepresentable_amd64 (-5) [None; None]
    = (v, None) /\ 1 <= v.
Proof.
  destruct (@Limit_default_never_fails unit unit unit unit unit
              ParseFloat_digits int_unrepresentable_amd64 eq_refl)
    as (H & _).
  apply H. reflexivity.
Defined.

Lemma Targets_resolved_witness :
  exists bundle bundleDeployments,
    bundle_New (Fleet.packages None) Fleet.app = Ok bundle
    /\ bundleDeploymentCache_List (Fleet.manager (Ok Fleet.recorded)) ""
         (SelectorFromSet (DeploymentLabels Fleet.app))
       = Ok bundleDeployments
    /\ List.Forall
         (fun t =>
            resolved_for (Fleet.manager (Ok Fleet.recorded))
              (Fleet.packages None) Fleet.app bundle t
            /\ Deployment t
               = find_last
                   (in_namespace (Cluster_Status_Namespace (Cluster t)))
                   bundleDeployments)
         Fleet.targets.
Proof.
  apply (Targets_resolved (Fleet.manager (Ok Fleet.recorded))
           (Fleet.packages None) (sorter := merge_sorter)
           Fleet.app Fleet.start Fleet.finish Fleet.targets).
  vm_compute. reflexivity.
Defined.

Lemma Targets_effects_witness :
  exists bundle clusters,
    bundle_New (Fleet.packages None) Fleet.app = Ok bundle
    /\ clusters_List (Fleet.manager (Ok Fleet.recorded)) "fleet-default"
         Everything = Ok clusters
    /\ log Fleet.finish
       = log Fleet.start
         ++ flat_map (cluster_log (Fleet.manager (Ok Fleet.recorded))
                        (Fleet.packages None)) clusters
    /\ content Fleet.finish
       = store_all (Fleet.manager (Ok Fleet.recorded))
           (flat_map (manifests_of (Fleet.manager (Ok Fleet.recorded))
                        (Fleet.packages None) bundle) clusters)
           (content Fleet.start)
    /\ length (flat_map (manifests_of (Fleet.manager (Ok Fleet.recorded))
                           (Fleet.packages None) bundle) clusters)
       = length Fleet.targets.
Proof.
  apply (Targets_effects (Fleet.manager (Ok Fleet.recorded))
           (Fleet.packages None) (sorter := merge_sorter)
           Fleet.app Fleet.start Fleet.finish Fleet.targets).
  vm_compute. reflexivity.
Defined.

Lemma Targets_no_clusters_witness :
  Targets Catalog.empty_manager (Fleet.packages None)
    (sorter := merge_sorter) Fleet.app Fleet.start
  = (([], None), Fleet.start).
Proof.
  destruct (Targets_no_clusters Catalog.empty_manager (Fleet.packages None)
              (sorter := merge_sorter) ParseFloat_digits
              int_unrepresentable_amd64 Fleet.app
              ("app", ["canary"; "prod"]) Fleet.start eq_refl eq_refl)
    as (H1 & H2 & H3 & _).
  destruct (Targets Catalog.empty_manager (Fleet.packages None) Fleet.app
              Fleet.start) as [[r e] s].
  cbn [fst snd] in H1, H2, H3. subst r s. rewrite H3. reflexivity.
Defined.

Lemma BundlesForCluster_spec_witness :
  BundlesForCluster Catalog.manager (Fleet.packages None) Fleet.west [] []
  = (([Fleet.app], None),
     [ignore_bad_app "fleet-default" "" (Errorf "name is required");
      cluster_groups_line Fleet.broken_logged;
      cluster_groups_line Fleet.broken_logged]).
Proof.
  exact (proj1 (BundlesForCluster_spec Catalog.manager (Fleet.packages None)
                  Fleet.west
                  [Catalog.nameless; Fleet.app; Catalog.elsewhere]
                  [Fleet.broken; Fleet.prod; Fleet.unselective] [] []
                  eq_refl eq_refl)).
Defined.

Lemma BundlesForCluster_of_target_witness :
  snd (fst (BundlesForCluster Catalog.manager (Fleet.packages None)
              Fleet.east [] [])) = None
  /\ In Fleet.app
       (fst (fst (BundlesForCluster Catalog.manager (Fleet.packages None)
                    Fleet.east [] []))).
Proof.
  apply (BundlesForCluster_of_target Catalog.manager (Fleet.packages None)
           (sorter := merge_sorter) Fleet.app Fleet.start Fleet.finish
           Fleet.targets Fleet.east_target
           [Catalog.nameless; Fleet.app; Catalog.elsewhere] [] []).
  - vm_compute. reflexivity.
  - left. reflexivity.
  - reflexivity.
  - right. left. reflexivity.
Defined.

(** ** A git repo, for concrete runs of the handler *)

Module Repo.

Definition SafeConcatName (parts : list string) : string :=
  String.concat "-" parts.

Definition config : config_Config :=
  {| Config_AgentImage := "rancher/fleet-agent:dev";
     Config_AgentImagePullPolicy := "IfNotPresent" |}.

(** A git repo that names neither a branch nor a revision, and no bundle
    directory. *)
Definition gitrepo : fleet_GitRepo :=
  {| GitRepo_Namespace := "fleet-local";
     GitRepo_Name := "demo";
     GitRepo_Spec :=
       {| GitRepoSpec_Repo := "https://example.com/demo.git";
          GitRepoSpec_Branch := "";
          GitRepoSpec_Revision := "";
          GitRepoSpec_ClientSecretName := "demo-key";
          GitRepoSpec_ServiceAccount := "deployer";
          GitRepoSpec_BundleDirs := [] |} |}.

(** The git job of that git repo. *)
Definition spec : gitjob_GitJobSpec :=
  {| GitJobSpec_Git :=
       {| GitInfo_Credential :=
            {| Credential_GitSecretName := "demo-key";
               Credential_GitHostname := "github.com" |};
          GitInfo_Provider := "polling";
          GitInfo_Repo := "https://example.com/demo.git";
          GitInfo_Revision := "";
          GitInfo_Branch := "master" |};
     GitJobSpec_JobSpec :=
       {| JobSpec_Template :=
            {| PodTemplateSpec_ObjectMeta :=
                 {| ObjectMeta_Name := "";
                    ObjectMeta_Namespace := "";
                    ObjectMeta_CreationTimestamp := Some (0, 0) |};
               PodTemplateSpec_Spec :=
                 {| PodSpec_ServiceAccountName := "git-demo";
                    PodSpec_RestartPolicy := "Never";
                    PodSpec_Containers :=
                      [ {| Container_Name := "fleet";
                           Container_Image := "rancher/fleet-agent:dev";
                           Container_ImagePullPolicy := "IfNotPresent";
                           Container_Command :=
                             [ "fleet"; "apply";
                               "--label=fleet.cattle.io/repo-name=demo";
                               "--namespace"; "fleet-local";
                               "--service-account"; "deployer";
                               "demo"; "." ];
                           Container_WorkingDir := "/workspace/source" |} ]
                 |} |} |} |}.

Definition job : @gitjob_GitJob string :=
  {| GitJob_ObjectMeta := meta "demo" "fleet-local";
     GitJob_Spec := spec;
     GitJob_Status :=
       {| GitJobStatus_Commit := ""; GitJobStatus_Conditions := [] |} |}.

(** The cache holds the job, which has run once. *)
Definition cached : @gitjob_GitJob string :=
  {| GitJob_ObjectMeta := meta "demo" "fleet-local";
     GitJob_Spec := spec;
     GitJob_Status :=
       {| GitJobStatus_Commit := "4f2c9a1";
          GitJobStatus_Conditions := ["Synced"] |} |}.

Definition h : @handler string :=
  {| gitjobCache_Get := fun namespace name =>
       if String.eqb namespace "fleet-local" && String.eqb name "demo"
       then Ok cached
       else Err (Errorf "not found") |}.

Definition status : @fleet_GitRepoStatus string Z :=
  {| GitRepoStatus_Commit := "0000000";
     GitRepoStatus_Conditions := [];
     GitRepoStatus_rest := 7 |}.

Definition objects : list (@runtime_Object string) :=
  fst (fst (OnChange h SafeConcatName config gitrepo status)).

End Repo.

Lemma OnChange_access_witness :
  In (GitJob Repo.job) Repo.objects
  /\ has_ServiceAccount Repo.objects "fleet-local" "git-demo".
Proof.
  assert (In (GitJob Repo.job) Repo.objects) as H.
  { right. right. right. left. reflexivity. }
  split; [exact H|].
  exact (proj1 (proj2 (OnChange_access Repo.h Repo.SafeConcatName Repo.config
                         Repo.gitrepo Repo.status Repo.job H))).
Defined.

(** ** A bundle, for concrete runs of the reader *)

Module Disk.

(** Ranging over a map in the order of its entry list, and in the
    opposite order. *)
Definition forwards : MapRange :=
  {| range_map := fun V mp => map_to_list mp;
     range_map_Permutation := fun V mp => Permutation_refl (map_to_list mp) |}.

Lemma backwards_Permutation (V : Type) (mp : gmap string V) :
  Permutation (reverse (map_to_list mp)) (map_to_list mp).
Proof. apply reverse_Permutation. Qed.

Definition backwards : MapRange :=
  {| range_map := fun V mp => reverse (map_to_list mp);
     range_map_Permutation := backwards_Permutation |}.

(** Merge sort of the reversed slice. *)
Lemma reverse_sort_Permutation (A : Type) (less : A -> A -> bool)
  (l : list A) :
  Permutation (merge_sort (not_less less) (reverse l)) l.
Proof. rewrite merge_sort_Permutation. apply reverse_Permutation. Qed.

Lemma reverse_sort_Sorted (A : Type) (less : A -> A -> bool) (l : list A) :
  strict_weak_order less ->
  Sorted (fun a b => less b a = false)
    (merge_sort (not_less less) (reverse l)).
Proof. apply merge_sort_Sorted_not_less. Qed.

Definition reverse_sorter : SortSlice :=
  {| sort_Slice := fun A less l => merge_sort (not_less less) (reverse l);
     sort_Slice_Permutation := reverse_sort_Permutation;
     sort_Slice_Sorted := reverse_sort_Sorted |}.

Definition target (name : string) (refs : list string)
  : @fleet_BundleTarget unit :=
  {| BundleTarget_Name := name;
     BundleTarget_Overlays := refs;
     BundleTarget_rest := tt |}.

Definition overlay (name : string) (refs : list string)
  (resources : list string) : @fleet_BundleOverlay string unit :=
  {| BundleOverlay_Name := name;
     BundleOverlay_Overlays := refs;
     BundleOverlay_Options := tt;
     BundleOverlay_Resources := resources |}.

Definition spec : @BundleSpec string unit unit unit :=
  {| BundleSpec_Paused := false;
     BundleSpec_RolloutStrategy := None;
     BundleSpec_rest :=
       {| BundleSpec_Targets :=
            [ target "prod" ["tls"; "big"];
              target "" ["big"];
              target "" [] ];
          BundleSpec_Overlays :=
            [ overlay "tls" ["base"] ["stale.yaml"];
              overlay "big" [] [] ];
          BundleSpec_Resources := ["deployment.yaml"];
          BundleSpec_other := tt |} |}.

(** The overlay directories found on disk. *)
Definition found : gmap string (list string) :=
  <["tls" := ["cert.yaml"]]> (<["edge" := ["proxy.yaml"]]>
    (<["arm" := ["patch.yaml"]]> ∅)).

End Disk.

Lemma setTargetNames_default_names_witness :
  exists target' digits,
    Spec_Targets (setTargetNames Disk.spec) !! 1%nat = Some target'
    /\ BundleTarget_Name target' = String.append "target" digits
    /\ (3 <= String.length digits)%nat
    /\ read_digits digits = Some (Z.of_nat 1)
    /\ forall j other,
         Spec_Targets Disk.spec !! j = Some other ->
         BundleTarget_Name other = "" ->
         j <> 1%nat ->
         exists other',
           Spec_Targets (setTargetNames Disk.spec) !! j = Some other'
           /\ BundleTarget_Name other' <> BundleTarget_Name target'.
Proof.
  apply (setTargetNames_default_names Disk.spec 1 (Disk.target "" ["big"]));
    reflexivity.
Defined.

Lemma assignOverlay_deterministic_witness :
  assignOverlay (ranger := Disk.forwards) (sorter := merge_sorter)
    tt Disk.spec Disk.found
  = assignOverlay (ranger := Disk.backwards) (sorter := Disk.reverse_sorter)
      tt Disk.spec Disk.found.
Proof.
  apply (assignOverlay_deterministic Disk.forwards Disk.backwards
           merge_sorter Disk.reverse_sorter tt Disk.spec Disk.found).
  constructor; [intros [H|[]]; discriminate|].
  constructor; [intros []|constructor].
Defined.

(** ** A tally, for concrete runs of the summary *)

Module Tally.

Definition GetDeploymentState (d : fleet_BundleDeployment) : string :=
  if Status_Ready d then "Ready" else "NotReady".

Definition MessageFromDeployment (d : option fleet_BundleDeployment)
  : string := "".

Definition IncrementState (s : @fleet_BundleSummary (list (string * string)))
  (name state message : string) : fleet_BundleSummary :=
  {| DesiredReady := DesiredReady s;
     BundleSummary_rest := BundleSummary_rest s ++ [(name, state)] |}.

End Tally.

Lemma Summary_DesiredReady_witness :
  DesiredReady
    (Summary "Pending" [] Tally.GetDeploymentState Tally.MessageFromDeployment
       Tally.IncrementState Fleet.targets) = 2.
Proof.
  refine (proj1 (Summary_DesiredReady "Pending" [] Tally.GetDeploymentState
                   Tally.MessageFromDeployment Tally.IncrementState
                   Fleet.targets _ _)).
  - intros s name state message. reflexivity.
  - vm_compute. discriminate.
Defined.

(** ** Bundle files, for concrete runs of read and Read *)

Module Files.

(** Two files: one whose metadata names the bundle, one without a name. *)
Definition good : list Byte.byte := [Byte.x61].
Definition anonymous : list Byte.byte := [Byte.x62].

Definition metadata (name : string) : bundleMeta :=
  {| bundleMeta_ObjectMeta := meta name "";
     bundleMeta_Manifests := "";
     bundleMeta_Overlays := "";
     bundleMeta_Chart := "" |}.

Definition yaml_Unmarshal_BundleSpec (bytes : list Byte.byte)
  : option (@BundleSpec string unit unit unit) * option error :=
  (Some Disk.spec, None).

Definition yaml_Unmarshal_bundleMeta (bytes : list Byte.byte)
  : bundleMeta * option error :=
  match bytes with
  | [Byte.x61] => (metadata "app", None)
  | _ => (metadata "", None)
  end.

Definition json_Marshal
  (bundle : option (@fleet_Bundle (@BundleSpec_fields string unit unit unit)))
  : Result (list Byte.byte) :=
  Ok [Byte.x7b; Byte.x7d].

Definition readOverlays (mt : bundleMeta)
  (bundle : @BundleSpec string unit unit unit) (compress : bool)
  (base : string) : Result (gmap string (list string)) :=
  Ok Disk.found.

Definition readResources (mt : bundleMeta) (compress : bool) (base : string)
  : Result (list string) :=
  Ok ["deployment.yaml"].

Definition New
  (definition : @fleet_Bundle (@BundleSpec_fields string unit unit unit))
  : Result (@fleet_Bundle (@BundleSpec_fields string unit unit unit)) :=
  Ok definition.

(** The bundle expected from the file with a name. *)
Definition bundle : @fleet_Bundle (@BundleSpec_fields string unit unit unit) :=
  {| Bundle_Namespace := "";
     Bundle_Name := "app";
     Bundle_Spec :=
       {| BundleSpec_Paused := false;
          BundleSpec_RolloutStrategy := None;
          BundleSpec_rest :=
            {| BundleSpec_Targets :=
                 [ Disk.target "prod" ["tls"; "big"];
                   Disk.target "target001" ["big"];
                   Disk.target "target002" [] ];
               BundleSpec_Overlays :=
                 [ Disk.overlay "arm" [] ["patch.yaml"];
                   Disk.overlay "big" [] [];
                   Disk.overlay "edge" [] ["proxy.yaml"];
                   Disk.overlay "tls" ["base"] ["cert.yaml"] ];
               BundleSpec_Resources := ["deployment.yaml"];
               BundleSpec_other := tt |} |} |}.

Definition read (compress : bool) (baseDir : string)
  (reader : Result (list Byte.byte)) : Outcome :=
  read (ranger := Disk.forwards) (sorter := merge_sorter) tt
    yaml_Unmarshal_BundleSpec yaml_Unmarshal_bundleMeta readOverlays
    readResources New compress baseDir reader.

Definition Read (baseDir : string) (reader : Result (list Byte.byte))
  : Outcome :=
  Read (ranger := Disk.forwards) (sorter := merge_sorter) tt
    Some yaml_Unmarshal_BundleSpec yaml_Unmarshal_bundleMeta json_Marshal
    readOverlays readResources New baseDir reader.

End Files.

Lemma read_normalises_witness :
  exists definition,
    Files.New definition = Ok Files.bundle
    /\ sorted_by_overlay_name (Spec_Overlays (Bundle_Spec definition))
    /\ List.Forall (fun t => BundleTarget_Name t <> "")
         (Spec_Targets (Bundle_Spec definition)).
Proof.
  assert (Files.read false "" (Ok Files.good) = Returns (Ok Files.bundle))
    as H by (vm_compute; reflexivity).
  destruct (read_normalises (ranger := Disk.forwards) (sorter := merge_sorter)
              tt Files.yaml_Unmarshal_BundleSpec
              Files.yaml_Unmarshal_bundleMeta Files.readOverlays
              Files.readResources Files.New false "" (Ok Files.good)
              Files.bundle H)
    as (bytes & spec & mt & found & resources & definition & _ & _ & _ & _
        & _ & _ & HNew & _ & _ & Hnamed & _ & Hsorted & _).
  exists definition. split; [exact HNew|]. split; [exact Hsorted|exact Hnamed].
Defined.

Lemma Read_compresses_large_witness :
  Files.Read "" (Ok Files.good) = Returns (Ok Files.bundle).
Proof.
  assert (Files.read false "" (Ok Files.good) = Returns (Ok Files.bundle))
    as H by (vm_compute; reflexivity).
  destruct (Read_compresses_large (ranger := Disk.forwards)
              (sorter := merge_sorter) tt Some
              Files.yaml_Unmarshal_BundleSpec Files.yaml_Unmarshal_bundleMeta
              Files.json_Marshal Files.readOverlays Files.readResources
              Files.New (String.concat "/")
              (fun _ => Ok (Ok Files.good)) (Ok Files.good)
              "" Files.good Files.bundle H) as [Hsmall _].
  apply (proj1 (Hsmall 2 eq_refl)). reflexivity.
Defined.

(** The document null: it leaves the bundle spec nil and the metadata
    empty. *)
Module Blank.

Definition null : list Byte.byte := [Byte.x6e; Byte.x75; Byte.x6c; Byte.x6c].

Definition yaml_Unmarshal_BundleSpec (bytes : list Byte.byte)
  : option (@BundleSpec string unit unit unit) * option error :=
  match bytes with
  | [Byte.x6e; Byte.x75; Byte.x6c; Byte.x6c] => (None, None)
  | _ => (Some Disk.spec, None)
  end.

Definition yaml_Unmarshal_bundleMeta (bytes : list Byte.byte)
  : bundleMeta * option error :=
  match bytes with
  | [Byte.x61] => (Files.metadata "app", None)
  | _ => (Files.metadata "", None)
  end.

Definition read (compress : bool) (baseDir : string)
  (reader : Result (list Byte.byte)) : Outcome :=
  read (ranger := Disk.forwards) (sorter := merge_sorter) tt
    yaml_Unmarshal_BundleSpec yaml_Unmarshal_bundleMeta Files.readOverlays
    Files.readResources Files.New compress baseDir reader.

Definition Read (baseDir : string) (reader : Result (list Byte.byte))
  : Outcome :=
  Read (ranger := Disk.forwards) (sorter := merge_sorter) tt
    Some yaml_Unmarshal_BundleSpec yaml_Unmarshal_bundleMeta
    Files.json_Marshal Files.readOverlays Files.readResources Files.New
    baseDir reader.

End Blank.

Lemma read_name_required_witness :
  Blank.read true "" (Ok Blank.null)
  = Returns (Err (Errorf "name is required in the bundle.yaml"))
  /\ Blank.read true "" (Ok Blank.null) <> Panics
  /\ Blank.Read "" (Ok Blank.null) <> Panics.
Proof.
  destruct (read_name_required (ranger := Disk.forwards)
              (sorter := merge_sorter) tt Some
              Blank.yaml_Unmarshal_BundleSpec Blank.yaml_Unmarshal_bundleMeta
              Files.json_Marshal Files.readOverlays Files.readResources
              Files.New true "" Blank.null) as [Hname Hpanic].
  split.
  - exact (proj1 (Hname None (Files.metadata "") eq_refl eq_refl eq_refl)).
  - apply Hpanic. intros mt _ Hm. injection Hm as <-. reflexivity.
Defined.
